(** * VelocityDRIVE web control: the MUP1 / CoAP / CBOR codec stack

    A shallow embedding of the three codec layers of the repository
    (MUP1 framing, CoAP messages, CBOR values) and the properties that the
    specification states about them.

    JavaScript numbers that take part in index and bit arithmetic are
    integers and are modelled in [Z]; the 32-bit wrap-around of the bit
    operators is written out ([JS.toInt32]).  A plain JS array of numbers
    and a [Uint8Array] are both [list Z]; the conversion
    [new Uint8Array(xs)] reduces every element modulo 256. *)

From Stdlib Require Import String Ascii ZArith NArith List Bool Lia.
From Stdlib Require Import DecimalString DecimalN.
From Stdlib Require Import Sorting.Sorted Sorting.Permutation.
Import ListNotations.
Open Scope Z_scope.

(* ================================================================== *)
(** ** JavaScript primitives used by the codecs *)
(* ================================================================== *)

Module JS.

(** A JS number as far as the codecs can tell numbers apart:
    an integer-valued double ([Int], both zeros are [Int 0]), any other
    double except NaN by its IEEE-754 bit pattern ([Frac]: fractions and
    the two infinities), or NaN. *)
Inductive num : Type :=
| Int (z : Z)
| Frac (bits : Z)
| NaN.

Definition num_eqb (a b : num) : bool :=
  match a, b with
  | Int x, Int y => x =? y
  | Frac x, Frac y => x =? y
  | _, _ => false
  end.

(** ToInt32: reduction modulo 2^32 into the signed range. *)
Definition toInt32 (z : Z) : Z := (z + 2 ^ 31) mod 2 ^ 32 - 2 ^ 31.

(** [a << n], [a >> n], [a & b], [a | b], [~a] on integers (shift
    counts are the literal constants of the source, all below 32). *)
Definition shl (a n : Z) : Z := toInt32 (Z.shiftl (toInt32 a) n).
Definition sar (a n : Z) : Z := Z.shiftr (toInt32 a) n.
Definition band (a b : Z) : Z := Z.land (toInt32 a) (toInt32 b).
Definition bor (a b : Z) : Z := Z.lor (toInt32 a) (toInt32 b).
Definition bnot (a : Z) : Z := Z.lnot (toInt32 a).

(** [xs[i]]: [None] stands for [undefined]. *)
Definition get (xs : list Z) (i : Z) : option Z :=
  if i <? 0 then None else nth_error xs (Z.to_nat i).

(** ToInt32 of an array read: [undefined] becomes 0. *)
Definition int_of (o : option Z) : Z :=
  match o with Some z => z | None => 0 end.

Definition len (xs : list Z) : Z := Z.of_nat (length xs).

(** [xs.slice(s, e)] with integer bounds: negative bounds count from the
    end, both are clamped to the array. *)
Definition slice (xs : list Z) (s e : Z) : list Z :=
  let n := len xs in
  let k := if s <? 0 then Z.max (n + s) 0 else Z.min s n in
  let f := if e <? 0 then Z.max (n + e) 0 else Z.min e n in
  firstn (Z.to_nat (f - k)) (skipn (Z.to_nat k) xs).

(** [xs.slice(s)] *)
Definition slice_from (xs : list Z) (s : Z) : list Z := slice xs s (len xs).

(** [new Uint8Array(xs)] for an array of integers. *)
Definition Uint8Array_from (xs : list Z) : list Z :=
  map (fun x => x mod 256) xs.

Definition isByte (b : Z) : Prop := 0 <= b < 256.

(** Every JS array is shorter than 2^53. *)
Definition arrayLength (xs : list Z) : Prop := len xs < 2 ^ 53.

(** A JS string is its sequence of UTF-16 code units. *)
Definition jsstring := list Z.

Definition str (s : string) : jsstring :=
  map (fun c => Z.of_N (N_of_ascii c)) (list_ascii_of_string s).

Fixpoint jsstring_eqb (a b : jsstring) : bool :=
  match a, b with
  | [], [] => true
  | x :: a', y :: b' => (x =? y) && jsstring_eqb a' b'
  | _, _ => false
  end.

(** Digits of [Number.prototype.toString(16)]. *)
Fixpoint hex_chars (d : Hexadecimal.uint) : jsstring :=
  match d with
  | Hexadecimal.Nil => []
  | Hexadecimal.D0 r => 48 :: hex_chars r
  | Hexadecimal.D1 r => 49 :: hex_chars r
  | Hexadecimal.D2 r => 50 :: hex_chars r
  | Hexadecimal.D3 r => 51 :: hex_chars r
  | Hexadecimal.D4 r => 52 :: hex_chars r
  | Hexadecimal.D5 r => 53 :: hex_chars r
  | Hexadecimal.D6 r => 54 :: hex_chars r
  | Hexadecimal.D7 r => 55 :: hex_chars r
  | Hexadecimal.D8 r => 56 :: hex_chars r
  | Hexadecimal.D9 r => 57 :: hex_chars r
  | Hexadecimal.Da r => 97 :: hex_chars r
  | Hexadecimal.Db r => 98 :: hex_chars r
  | Hexadecimal.Dc r => 99 :: hex_chars r
  | Hexadecimal.Dd r => 100 :: hex_chars r
  | Hexadecimal.De r => 101 :: hex_chars r
  | Hexadecimal.Df r => 102 :: hex_chars r
  end.

(** [n.toString(16)] for an integer [n]. *)
Definition toString16 (n : Z) : jsstring :=
  if n <? 0 then 45 :: hex_chars (N.to_hex_uint (Z.to_N (- n)))
  else hex_chars (N.to_hex_uint (Z.to_N n)).

(** [s.padStart(w, '0')] *)
Definition padStart0 (w : nat) (s : jsstring) : jsstring :=
  repeat 48 (w - length s) ++ s.

(** Value of a digit character in [parseInt]. *)
Definition digitVal (c : Z) : option Z :=
  if (48 <=? c) && (c <=? 57) then Some (c - 48)
  else if (97 <=? c) && (c <=? 122) then Some (c - 97 + 10)
  else if (65 <=? c) && (c <=? 90) then Some (c - 65 + 10)
  else None.

(** White space and line terminators that [parseInt] skips. *)
Definition isWhiteSpace (c : Z) : bool :=
  existsb (Z.eqb c)
    [9; 10; 11; 12; 13; 32; 160; 5760; 8232; 8233; 8239; 8287; 12288; 65279]
  || ((8192 <=? c) && (c <=? 8202)).

Fixpoint skipWhiteSpace (s : jsstring) : jsstring :=
  match s with
  | c :: s' => if isWhiteSpace c then skipWhiteSpace s' else s
  | [] => []
  end.

(** The longest prefix of digits valid in [radix], folded into a value;
    [None] when there is no such digit. *)
Fixpoint parseDigits (radix : Z) (s : jsstring) (acc : option Z) : option Z :=
  match s with
  | [] => acc
  | c :: s' =>
      match digitVal c with
      | Some d =>
          if d <? radix
          then parseDigits radix s' (Some (int_of acc * radix + d))
          else acc
      | None => acc
      end
  end.

Definition stripHexPrefix (s : jsstring) : option jsstring :=
  match s with
  | 48 :: x :: s' => if (x =? 120) || (x =? 88) then Some s' else None
  | _ => None
  end.

(** [parseInt(s, radix)]; [radix = 0] stands for an omitted radix.
    The result is exact as long as it stays below 2^53. *)
Definition parseInt (s : jsstring) (radix : Z) : num :=
  let s1 := skipWhiteSpace s in
  let '(sign, s2) :=
    match s1 with
    | 45 :: r => (-1, r)
    | 43 :: r => (1, r)
    | _ => (1, s1)
    end in
  if (radix <? 0) || ((0 <? radix) && (radix <? 2)) || (36 <? radix) then NaN
  else
    let '(r, s3) :=
      if (radix =? 0) || (radix =? 16) then
        match stripHexPrefix s2 with
        | Some s' => (16, s')
        | None => ((if radix =? 0 then 10 else radix), s2)
        end
      else (radix, s2) in
    match parseDigits r s3 None with
    | Some v => Int (sign * v)
    | None => NaN
    end.

(** Decimal digits of a non-negative integer. *)
Fixpoint dec_chars (d : Decimal.uint) : jsstring :=
  match d with
  | Decimal.Nil => []
  | Decimal.D0 r => 48 :: dec_chars r
  | Decimal.D1 r => 49 :: dec_chars r
  | Decimal.D2 r => 50 :: dec_chars r
  | Decimal.D3 r => 51 :: dec_chars r
  | Decimal.D4 r => 52 :: dec_chars r
  | Decimal.D5 r => 53 :: dec_chars r
  | Decimal.D6 r => 54 :: dec_chars r
  | Decimal.D7 r => 55 :: dec_chars r
  | Decimal.D8 r => 56 :: dec_chars r
  | Decimal.D9 r => 57 :: dec_chars r
  end.

(** [String(n)] for an integer [n] of magnitude below 10^21. *)
Definition decimal (n : Z) : jsstring :=
  if n <? 0 then 45 :: dec_chars (N.to_uint (Z.to_N (- n)))
  else dec_chars (N.to_uint (Z.to_N n)).

(** Rounding of an integer to the nearest double (53 significant bits,
    ties to even); the identity below 2^53. *)
Definition round53 (z : Z) : Z :=
  let a := Z.abs z in
  if a <? 2 ^ 53 then z
  else
    let sh := Z.log2 a - 52 in
    let q := a / 2 ^ sh in
    let r := a mod 2 ^ sh in
    let half := 2 ^ (sh - 1) in
    let q' := if (half <? r) || ((r =? half) && Z.odd q) then q + 1 else q in
    Z.sgn z * (q' * 2 ^ sh).

(** [a + b] on numbers that are integers or NaN (offsets, lengths). *)
Definition num_add (a b : num) : num :=
  match a, b with
  | Int x, Int y => Int (round53 (x + y))
  | _, _ => NaN
  end.

(** [a < b], [a > b], [a >= b]: every comparison with NaN is false. *)
Definition num_ltb (a b : num) : bool :=
  match a, b with Int x, Int y => x <? y | _, _ => false end.
Definition num_gtb (a b : num) : bool := num_ltb b a.
Definition num_geb (a b : num) : bool :=
  match a, b with Int x, Int y => y <=? x | _, _ => false end.

(** [xs[i]] for a number [i]: only an integer in range hits an element. *)
Definition get_num (xs : list Z) (i : num) : option Z :=
  match i with Int z => get xs z | _ => None end.

(** ToIntegerOrInfinity of a slice bound: NaN becomes 0. *)
Definition slice_num (xs : list Z) (s e : num) : list Z :=
  let toInt n := match n with Int z => z | _ => 0 end in
  slice xs (toInt s) (toInt e).

(** [new TextEncoder().encode(s)]: UTF-8 of a sequence of UTF-16 code
    units; a surrogate that is not part of a pair becomes U+FFFD. *)
Fixpoint TextEncoder_encode (s : jsstring) : list Z :=
  match s with
  | [] => []
  | c :: rest =>
      if c <? 0x80 then c :: TextEncoder_encode rest
      else if c <? 0x800 then
        Z.lor 0xC0 (Z.shiftr c 6) :: Z.lor 0x80 (Z.land c 0x3F)
          :: TextEncoder_encode rest
      else if (0xD800 <=? c) && (c <=? 0xDBFF) then
        match rest with
        | d :: rest' =>
            if (0xDC00 <=? d) && (d <=? 0xDFFF) then
              let cp := 0x10000 + (c - 0xD800) * 0x400 + (d - 0xDC00) in
              Z.lor 0xF0 (Z.shiftr cp 18)
                :: Z.lor 0x80 (Z.land (Z.shiftr cp 12) 0x3F)
                :: Z.lor 0x80 (Z.land (Z.shiftr cp 6) 0x3F)
                :: Z.lor 0x80 (Z.land cp 0x3F)
                :: TextEncoder_encode rest'
            else 0xEF :: 0xBF :: 0xBD :: TextEncoder_encode rest
        | [] => [0xEF; 0xBF; 0xBD]
        end
      else if (0xDC00 <=? c) && (c <=? 0xDFFF) then
        0xEF :: 0xBF :: 0xBD :: TextEncoder_encode rest
      else
        Z.lor 0xE0 (Z.shiftr c 12)
          :: Z.lor 0x80 (Z.land (Z.shiftr c 6) 0x3F)
          :: Z.lor 0x80 (Z.land c 0x3F)
          :: TextEncoder_encode rest
  end.

(** The double with the given 64-bit pattern, as a [num]. *)
Definition float64_of_bits (b : Z) : num :=
  let s := b / 2 ^ 63 in
  let e := (b / 2 ^ 52) mod 2 ^ 11 in
  let m := b mod 2 ^ 52 in
  let sgn := if s =? 0 then 1 else -1 in
  if e =? 2047 then (if m =? 0 then Frac b else NaN)
  else if e =? 0 then (if m =? 0 then Int 0 else Frac b)
  else
    let sig := 2 ^ 52 + m in
    if 1075 <=? e then Int (sgn * (sig * 2 ^ (e - 1075)))
    else if sig mod 2 ^ (1075 - e) =? 0
         then Int (sgn * (sig / 2 ^ (1075 - e)))
         else Frac b.

(** Bit pattern written by [setFloat64] for NaN. *)
Definition nan_bits : Z := 0x7FF8000000000000.

End JS.

(** Outcome of a function that may [throw new Error(msg)]. *)
Inductive result (A : Type) : Type :=
| Ok (a : A)
| Throw (msg : string).
Arguments Ok {A} a.
Arguments Throw {A} msg%_string.

(* ================================================================== *)
(** ** MUP1 framing, prefix-escape variant
       (class [MUP1Protocol] with [escapeData] built on [specialChars]) *)
(* ================================================================== *)

Module Mup1.
Import JS.

Definition SOF : Z := 0x3E.
Definition EOF : Z := 0x3C.
Definition ESCAPE : Z := 0x5C.

Record Frame : Type := mkFrame {
  type : Z;              (* code unit of the one-character type string *)
  data : list Z;
  checksum : num;
  checksumValid : bool
}.

(** The [for (i = 0; i < data.length; i += 2)] loop of
    [calculateChecksum]. *)
Fixpoint sumWords (data : list Z) (sum : Z) : Z :=
  match data with
  | [] => sum
  | [hi] => sum + shl hi 8
  | hi :: lo :: rest => sumWords rest (sum + bor (shl hi 8) lo)
  end.

(** [while (sum >> 16) sum = (sum & 0xFFFF) + (sum >> 16);] *)
Fixpoint foldCarries (fuel : nat) (sum : Z) : Z :=
  match fuel with
  | O => sum
  | S f =>
      if sar sum 16 =? 0 then sum
      else foldCarries f (band sum 0xFFFF + sar sum 16)
  end.

Definition calculateChecksum (data : list Z) : Z :=
  let sum := sumWords data 0 in
  let sum := foldCarries 8 sum in
  band (bnot sum) 0xFFFF.

Definition isSpecial (byte : Z) : bool :=
  existsb (Z.eqb byte) [SOF; EOF; ESCAPE].

Fixpoint escapeData (data : list Z) : list Z :=
  match data with
  | [] => []
  | byte :: rest =>
      if isSpecial byte then ESCAPE :: byte :: escapeData rest
      else byte :: escapeData rest
  end.

(** The index loop of [unescapeData], on the remaining input: an escape
    byte that is not the last byte is skipped and the byte after it is
    copied. *)
Fixpoint unescapeData (data : list Z) : list Z :=
  match data with
  | [] => []
  | b :: rest =>
      if b =? ESCAPE then
        match rest with
        | [] => [b]
        | x :: rest' => x :: unescapeData rest'
        end
      else b :: unescapeData rest
  end.

(** [checksum.toString(16).padStart(4, '0')] as character codes. *)
Definition checksumStr (checksum : Z) : list Z :=
  padStart0 4 (toString16 checksum).

(** [createFrame(type, data)]; [type] is the code unit
    [type.charCodeAt(0)]. *)
Definition createFrame (type : Z) (data : list Z) : list Z :=
  let frame := [SOF; type] in
  let frame :=
    if 0 <? len data then frame ++ escapeData data else frame in
  let frame := frame ++ [EOF] in
  let frame :=
    if (len frame + 4) mod 2 =? 0 then frame ++ [EOF] else frame in
  let checksum := calculateChecksum frame in
  Uint8Array_from (frame ++ checksumStr checksum).

(** First index [i >= from] with [data[i] === SOF]. *)
Fixpoint findSOF (data : list Z) (i : Z) : option Z :=
  match data with
  | [] => None
  | b :: rest => if b =? SOF then Some i else findSOF rest (i + 1)
  end.

(** The end-of-frame loop of [parseFrame]: [n] iterations are left,
    [i] is the loop index; returns the final [endIdx]. *)
Fixpoint findEnd (data : list Z) (n : nat) (i eofCount endIdx : Z) : Z :=
  match n with
  | O => endIdx
  | S n' =>
      if (int_of (get data i) =? EOF)
         && ((i =? 0) || negb (match get data (i - 1) with
                               | Some b => b =? ESCAPE
                               | None => false
                               end))
      then
        let eofCount := eofCount + 1 in
        let endIdx := if eofCount =? 1 then i else endIdx in
        if (i + 1 <? len data)
           && (match get data (i + 1) with
               | Some b => b =? EOF
               | None => false
               end)
        then i + 1
        else if eofCount =? 1 then endIdx
        else findEnd data n' (i + 1) eofCount endIdx
      else findEnd data n' (i + 1) eofCount endIdx
  end.

(** [while (p.length > 0 && p[p.length - 1] === EOF) p.pop();] *)
Fixpoint popEOF (p : list Z) : list Z :=
  match p with
  | [] => []
  | x :: rest =>
      match popEOF rest with
      | [] => if x =? EOF then [] else [x]
      | rest' => x :: rest'
      end
  end.

Definition parseFrame (buffer : list Z) : result Frame :=
  let data := Uint8Array_from buffer in
  match findSOF data 0 with
  | None => Throw "No start of frame found"
  | Some startIdx =>
      let endIdx :=
        findEnd data (Z.to_nat (len data - (startIdx + 1)))
                (startIdx + 1) 0 (-1) in
      if endIdx =? -1 then Throw "No end of frame found"
      else
        let checksumStart := endIdx + 1 in
        if len data <? checksumStart + 4 then Throw "Incomplete checksum"
        else
          let checksumStr := slice data checksumStart (checksumStart + 4) in
          let receivedChecksum := parseInt checksumStr 16 in
          let frameData := slice data startIdx (endIdx + 1) in
          let calculatedChecksum := calculateChecksum frameData in
          let commandType := int_of (get data (startIdx + 1)) in
          let payloadStart := startIdx + 2 in
          let payloadEnd := endIdx in
          let payload :=
            if payloadStart <? payloadEnd then
              let escapedPayload :=
                popEOF (slice data payloadStart payloadEnd) in
              if 0 <? len escapedPayload
              then unescapeData escapedPayload
              else []
            else [] in
          Ok {| type := commandType;
                data := Uint8Array_from payload;
                checksum := receivedChecksum;
                checksumValid :=
                  num_eqb (Int calculatedChecksum) receivedChecksum |}
  end.

(** [createPing()] *)
Definition createPing : list Z := createFrame 112 [].

(** The bytes of a frame before its checksum characters: SOF, type,
    payload, one end marker and the padding [pad]. *)
Definition frameBody (type : Z) (payload pad : list Z) : list Z :=
  [SOF; type] ++ payload ++ [EOF] ++ pad.

End Mup1.

(* ================================================================== *)
(** ** MUP1 framing, byte-substitution variant
       (class [MUP1Protocol] whose [escapeData] also rewrites 0x00 and
       0xFF, and whose [createFrame] checksums the unescaped bytes) *)
(* ================================================================== *)

Module Mup1Subst.
Import JS.

Definition SOF : Z := 0x3E.
Definition EOF : Z := 0x3C.
Definition ESCAPE : Z := 0x5C.

Record Frame : Type := mkFrame {
  type : Z;
  data : list Z;
  checksum : num;
  checksumValid : bool
}.

(** [hi = data[i]; lo = (i + 1 < data.length) ? data[i + 1] : 0;
    sum += (hi << 8) | lo] *)
Fixpoint sumWords (data : list Z) (sum : Z) : Z :=
  match data with
  | [] => sum
  | [hi] => sum + bor (shl hi 8) 0
  | hi :: lo :: rest => sumWords rest (sum + bor (shl hi 8) lo)
  end.

Fixpoint foldCarries (fuel : nat) (sum : Z) : Z :=
  match fuel with
  | O => sum
  | S f =>
      if sar sum 16 =? 0 then sum
      else foldCarries f (band sum 0xFFFF + sar sum 16)
  end.

Definition calculateChecksum (data : list Z) : Z :=
  let sum := sumWords data 0 in
  let sum := foldCarries 8 sum in
  band (bnot sum) 0xFFFF.

Fixpoint escapeData (data : list Z) : list Z :=
  match data with
  | [] => []
  | byte :: rest =>
      if byte =? 0x00 then ESCAPE :: 0x30 :: escapeData rest
      else if byte =? 0xFF then ESCAPE :: 0x46 :: escapeData rest
      else if byte =? SOF then ESCAPE :: SOF :: escapeData rest
      else if byte =? EOF then ESCAPE :: EOF :: escapeData rest
      else if byte =? ESCAPE then ESCAPE :: ESCAPE :: escapeData rest
      else byte :: escapeData rest
  end.

Fixpoint unescapeData (data : list Z) : list Z :=
  match data with
  | [] => []
  | b :: rest =>
      if b =? ESCAPE then
        match rest with
        | [] => [b]
        | x :: rest' =>
            if x =? 0x30 then 0x00 :: unescapeData rest'
            else if x =? 0x46 then 0xFF :: unescapeData rest'
            else x :: unescapeData rest'
        end
      else b :: unescapeData rest
  end.

Definition checksumStr (checksum : Z) : list Z :=
  padStart0 4 (toString16 checksum).

Definition createFrame (type : Z) (data : list Z) : list Z :=
  (* checksum data (non-escaped) *)
  let checksumData := [SOF; type] ++ data ++ [EOF] in
  let checksumData :=
    if len data mod 2 =? 0 then checksumData ++ [EOF] else checksumData in
  let checksum := calculateChecksum checksumData in
  (* actual frame with escaped data *)
  let frame := [SOF; type] in
  let frame :=
    if 0 <? len data then frame ++ escapeData data else frame in
  let frame := frame ++ [EOF] in
  let frame := if len data mod 2 =? 0 then frame ++ [EOF] else frame in
  Uint8Array_from (frame ++ checksumStr checksum).

Fixpoint findSOF (data : list Z) (i : Z) : option Z :=
  match data with
  | [] => None
  | b :: rest => if b =? SOF then Some i else findSOF rest (i + 1)
  end.

Fixpoint findEnd (data : list Z) (n : nat) (i eofCount endIdx : Z) : Z :=
  match n with
  | O => endIdx
  | S n' =>
      if (int_of (get data i) =? EOF)
         && ((i =? 0) || negb (match get data (i - 1) with
                               | Some b => b =? ESCAPE
                               | None => false
                               end))
      then
        let eofCount := eofCount + 1 in
        let endIdx := if eofCount =? 1 then i else endIdx in
        if (i + 1 <? len data)
           && (match get data (i + 1) with
               | Some b => b =? EOF
               | None => false
               end)
        then i + 1
        else if eofCount =? 1 then endIdx
        else findEnd data n' (i + 1) eofCount endIdx
      else findEnd data n' (i + 1) eofCount endIdx
  end.

Fixpoint popEOF (p : list Z) : list Z :=
  match p with
  | [] => []
  | x :: rest =>
      match popEOF rest with
      | [] => if x =? EOF then [] else [x]
      | rest' => x :: rest'
      end
  end.

Definition parseFrame (buffer : list Z) : result Frame :=
  let data := Uint8Array_from buffer in
  match findSOF data 0 with
  | None => Throw "No start of frame found"
  | Some startIdx =>
      let endIdx :=
        findEnd data (Z.to_nat (len data - (startIdx + 1)))
                (startIdx + 1) 0 (-1) in
      if endIdx =? -1 then Throw "No end of frame found"
      else
        let checksumStart := endIdx + 1 in
        if len data <? checksumStart + 4 then Throw "Incomplete checksum"
        else
          let checksumStr := slice data checksumStart (checksumStart + 4) in
          let receivedChecksum := parseInt checksumStr 16 in
          let frameData := slice data startIdx (endIdx + 1) in
          let calculatedChecksum := calculateChecksum frameData in
          let commandType := int_of (get data (startIdx + 1)) in
          let payloadStart := startIdx + 2 in
          let payloadEnd := endIdx in
          let payload :=
            if payloadStart <? payloadEnd then
              let escapedPayload :=
                popEOF (slice data payloadStart payloadEnd) in
              if 0 <? len escapedPayload
              then unescapeData escapedPayload
              else []
            else [] in
          Ok {| type := commandType;
                data := Uint8Array_from payload;
                checksum := receivedChecksum;
                checksumValid :=
                  num_eqb (Int calculatedChecksum) receivedChecksum |}
  end.

Definition createPing : list Z := createFrame 112 [].

End Mup1Subst.

(* ================================================================== *)
(** ** MUP1 stream reassembly
       (class [MUP1Protocol] with [packFrame] / [processData] /
       [extractFrames] and a persistent [frameBuffer]) *)
(* ================================================================== *)

Module Mup1Stream.
Import JS.

(** The mutable fields of the object that the methods below use. *)
Record State : Type := mkState {
  messageId : Z;
  frameBuffer : list Z
}.

(** [new MUP1Protocol()] *)
Definition init : State := {| messageId := 1; frameBuffer := [] |}.

(** [sum = (sum + data[i]) & 0xFFFF] over all bytes. *)
Definition calculateChecksum (data : list Z) : Z :=
  fold_left (fun sum b => band (sum + b) 0xFFFF) data 0.

(** [packFrame(payload, messageType)]: the frame and the state after
    [this.messageId++].  [messageType] is not used by the source. *)
Definition packFrame (st : State) (payload : list Z) (messageType : Z)
  : list Z * State :=
  let header := [0x40; 0x05] in
  let msgId := [band (sar (messageId st) 8) 0xFF;
                band (messageId st) 0xFF] in
  let checksum := calculateChecksum payload in
  let frameData :=
    header ++ msgId ++ [0xB1; 0x63]
      ++ [band (sar checksum 8) 0xFF; band checksum 0xFF]
      ++ [0x33; 0x64; 0x3D; 0x61]
      ++ [0x21; 0x8E; 0xFF]
      ++ Uint8Array_from payload in
  (frameData,
   {| messageId := messageId st + 1; frameBuffer := frameBuffer st |}).

(** The loop of [unpackFrame]: [n] iterations left at index [i]. *)
Fixpoint unpackLoop (data : list Z) (n : nat) (i : Z) : option (list Z) :=
  match n with
  | O => None
  | S n' =>
      if int_of (get data i) =? 0xFF then Some (slice_from data (i + 1))
      else unpackLoop data n' (i + 1)
  end.

(** [unpackFrame(data)]: [None] is [null]. *)
Definition unpackFrame (data : list Z) : option (list Z) :=
  unpackLoop data (Z.to_nat (len data - 1)) 0.

(** The loop of [extractFrames]: [n] iterations left at index [i];
    returns the frames found and the new [frameBuffer]. *)
Fixpoint extractLoop (buf : list Z) (n : nat) (i : Z)
  : list (list Z) * list Z :=
  match n with
  | O => ([], buf)
  | S n' =>
      if (int_of (get buf i) =? 0x60) && (int_of (get buf (i + 1)) =? 0x45)
      then
        match unpackFrame (slice_from buf i) with
        | Some payload => ([payload], slice_from buf (i + 32))
        | None => extractLoop buf n' (i + 1)
        end
      else extractLoop buf n' (i + 1)
  end.

Definition extractFrames (st : State) : list (list Z) * State :=
  let '(frames, buf) :=
    extractLoop (frameBuffer st)
                (Z.to_nat (len (frameBuffer st) - 1)) 0 in
  (frames, {| messageId := messageId st; frameBuffer := buf |}).

(** [processData(data)] *)
Definition processData (st : State) (data : list Z)
  : list (list Z) * State :=
  let newBuffer := frameBuffer st ++ Uint8Array_from data in
  extractFrames {| messageId := messageId st; frameBuffer := newBuffer |}.

(** Feeding a sequence of chunks, one [processData] call per chunk;
    the frames of all calls in order. *)
Fixpoint feedChunks (st : State) (chunks : list (list Z))
  : list (list Z) * State :=
  match chunks with
  | [] => ([], st)
  | c :: rest =>
      let '(fs, st1) := processData st c in
      let '(fs', st2) := feedChunks st1 rest in
      (fs ++ fs', st2)
  end.

End Mup1Stream.

(* ================================================================== *)
(** ** CBOR encoder / decoder (class [CBOREncoder]) *)
(* ================================================================== *)

Module CBOR.
Import JS.

(** The JS values the encoder accepts and the decoder builds.  An object
    is the list of its own properties in creation order, with distinct
    keys. *)
#[warnings="-register-all"]
Inductive value : Type :=
| VUndefined
| VNull
| VBool (b : bool)
| VNum (n : num)
| VString (s : jsstring)
| VBytes (bs : list Z)                       (* Uint8Array *)
| VArray (items : list value)
| VObject (props : list (jsstring * value)).

(** *** Own-property order and property assignment *)

Definition isDigit (c : Z) : bool := (48 <=? c) && (c <=? 57).

(** The array index a property key denotes, if any: a canonical decimal
    string below 2^32 - 1. *)
Definition arrayIndex (k : jsstring) : option Z :=
  match k with
  | [] => None
  | c :: rest =>
      if forallb isDigit k && (negb (c =? 48) || (length rest =? 0)%nat)
      then
        let v := fold_left (fun acc d => acc * 10 + (d - 48)) k 0 in
        if v <? 2 ^ 32 - 1 then Some v else None
      else None
  end.

Fixpoint insertIndexed {A : Type} (e : Z * (jsstring * A))
         (l : list (Z * (jsstring * A))) : list (Z * (jsstring * A)) :=
  match l with
  | [] => [e]
  | x :: rest =>
      if fst e <? fst x then e :: l else x :: insertIndexed e rest
  end.

(** [Object.entries(o)]: array-index keys in ascending order, then the
    other keys in creation order. *)
Definition Object_entries {A : Type} (props : list (jsstring * A))
  : list (jsstring * A) :=
  let indexed :=
    fold_left
      (fun acc p =>
         match arrayIndex (fst p) with
         | Some i => insertIndexed (i, p) acc
         | None => acc
         end) props [] in
  let named :=
    filter (fun p => match arrayIndex (fst p) with
                     | Some _ => false
                     | None => true
                     end) props in
  map snd indexed ++ named.

Fixpoint obj_set {A : Type} (props : list (jsstring * A)) (k : jsstring)
         (v : A) : list (jsstring * A) :=
  match props with
  | [] => [(k, v)]
  | (k', v') :: rest =>
      if jsstring_eqb k' k then (k', v) :: rest
      else (k', v') :: obj_set rest k v
  end.

(** [o[k] = v] on an object created by [{}].  Writing the key
    [__proto__] creates no own property (the prototype itself is not
    modelled). *)
Definition assign {A : Type} (props : list (jsstring * A)) (k : jsstring)
           (v : A) : list (jsstring * A) :=
  if jsstring_eqb k (str "__proto__") then props else obj_set props k v.

(** *** Encoder *)

(** [_encodeTypeAndValue(majorType, value, bytes)]: the bytes pushed. *)
Definition encodeTypeAndValue (majorType value : Z) : list Z :=
  let type := shl majorType 5 in
  if value <? 24 then [bor type value]
  else if value <? 256 then [bor type 24; value]
  else if value <? 65536 then
    [bor type 25; band (sar value 8) 0xFF; band value 0xFF]
  else if value <? 4294967296 then
    [bor type 26; band (sar value 24) 0xFF; band (sar value 16) 0xFF;
     band (sar value 8) 0xFF; band value 0xFF]
  else
    let high := value / 4294967296 in
    let low := Z.rem value 4294967296 in
    [bor type 27;
     band (sar high 24) 0xFF; band (sar high 16) 0xFF;
     band (sar high 8) 0xFF; band high 0xFF;
     band (sar low 24) 0xFF; band (sar low 16) 0xFF;
     band (sar low 8) 0xFF; band low 0xFF].

Definition encodeUnsignedInt (value : Z) : list Z :=
  encodeTypeAndValue 0 value.

Definition encodeNegativeInt (value : Z) : list Z :=
  encodeTypeAndValue 1 value.

(** [_encodeFloat]: the header and the eight bytes of the bit pattern. *)
Definition encodeFloat (bits : Z) : list Z :=
  bor (shl 7 5) 27
    :: map (fun i => (bits / 256 ^ (7 - i)) mod 256) [0; 1; 2; 3; 4; 5; 6; 7].

Definition encodeNumber (n : num) : list Z :=
  match n with
  | Int z =>
      if 0 <=? z then encodeUnsignedInt z
      else encodeNegativeInt (round53 (- z - 1))
  | Frac bits => encodeFloat bits
  | NaN => encodeFloat nan_bits
  end.

Definition encodeString (s : jsstring) : list Z :=
  let encoded := TextEncoder_encode s in
  encodeTypeAndValue 3 (len encoded) ++ encoded.

Definition encodeByteString (bs : list Z) : list Z :=
  encodeTypeAndValue 2 (len bs) ++ bs.

(** [_encodeValue(value, bytes)]: the bytes pushed.  For an object the
    values are encoded first and then placed in the order of
    [Object.entries]; the bytes of a value do not depend on its
    position. *)
Fixpoint encodeValue (v : value) : list Z :=
  match v with
  | VBool false => [bor (shl 7 5) 20]
  | VBool true => [bor (shl 7 5) 21]
  | VNull => [bor (shl 7 5) 22]
  | VUndefined => [bor (shl 7 5) 23]
  | VNum n => encodeNumber n
  | VString s => encodeString s
  | VBytes bs => encodeByteString bs
  | VArray items =>
      encodeTypeAndValue 4 (Z.of_nat (length items))
        ++ flat_map encodeValue items
  | VObject props =>
      let entries :=
        Object_entries (map (fun '(k, x) => (k, encodeValue x)) props) in
      encodeTypeAndValue 5 (Z.of_nat (length entries))
        ++ flat_map (fun e => encodeString (fst e) ++ snd e) entries
  end.

(** [encode(value)] *)
Definition encode (v : value) : list Z := Uint8Array_from (encodeValue v).

(** *** Decoder *)

Definition dec_string (n : Z) : string :=
  NilEmpty.string_of_uint (N.to_uint (Z.to_N n)).

(** [data[offset + k]] coerced by a bit operator. *)
Definition byteAt (data : list Z) (offset : num) (k : Z) : Z :=
  int_of (get_num data (num_add offset (Int k))).

Definition read32 (data : list Z) (offset : num) (k : Z) : Z :=
  bor (bor (bor (shl (byteAt data offset k) 24)
                (shl (byteAt data offset (k + 1)) 16))
           (shl (byteAt data offset (k + 2)) 8))
      (byteAt data offset (k + 3)).

(** The argument reader shared by [_decodeUnsignedInt] and
    [_decodeLength]; [indefinite] is what additional info 31 gives. *)
Definition decodeArgument (data : list Z) (offset : num)
           (other : Z -> result (value * num)) : result (value * num) :=
  let additionalInfo := band (int_of (get_num data offset)) 0x1F in
  let offset := num_add offset (Int 1) in
  if additionalInfo <? 24 then Ok (VNum (Int additionalInfo), offset)
  else if additionalInfo =? 24 then
    Ok (match get_num data offset with
        | Some b => VNum (Int b)
        | None => VUndefined
        end, num_add offset (Int 1))
  else if additionalInfo =? 25 then
    Ok (VNum (Int (bor (shl (byteAt data offset 0) 8) (byteAt data offset 1))),
        num_add offset (Int 2))
  else if additionalInfo =? 26 then
    Ok (VNum (Int (read32 data offset 0)), num_add offset (Int 4))
  else if additionalInfo =? 27 then
    let high := read32 data offset 0 in
    let low := read32 data offset 4 in
    Ok (VNum (Int (round53 (high * 4294967296 + low))),
        num_add offset (Int 8))
  else other additionalInfo.

Definition decodeUnsignedInt (data : list Z) (offset : num)
  : result (value * num) :=
  decodeArgument data offset
    (fun ai => Throw ("Invalid additional info: " ++ dec_string ai)).

Definition decodeLength (data : list Z) (offset : num)
  : result (value * num) :=
  decodeArgument data offset
    (fun ai =>
       if ai =? 31 then Ok (VNum (Int (-1)), num_add offset (Int 1))
       else Throw ("Invalid length encoding: " ++ dec_string ai)).

(** A decoded argument used as a number: [undefined] turns an addition
    into NaN. *)
Definition asNum (v : value) : num :=
  match v with VNum n => n | _ => NaN end.

Definition decodeNegativeInt (data : list Z) (offset : num)
  : result (value * num) :=
  match decodeUnsignedInt data offset with
  | Ok (v, off) =>
      Ok (match v with
          | VNum (Int z) => VNum (Int (round53 (- z - 1)))
          | _ => VNum NaN
          end, off)
  | Throw m => Throw m
  end.

Section Platform.
(** [new TextDecoder().decode(bytes)] and the text of a double that is
    not an integer ([String(x)]) are functions of the platform. *)
Variable TextDecoder_decode : list Z -> jsstring.
Variable fracToString : Z -> jsstring.

Definition decodeByteString (data : list Z) (offset : num)
  : result (value * num) :=
  match decodeLength data offset with
  | Ok (lengthValue, start) =>
      let end_ := num_add start (asNum lengthValue) in
      if num_gtb end_ (Int (len data))
      then Throw "Byte string extends beyond data"
      else Ok (VBytes (slice_num data start end_), end_)
  | Throw m => Throw m
  end.

Definition decodeTextString (data : list Z) (offset : num)
  : result (value * num) :=
  match decodeLength data offset with
  | Ok (lengthValue, start) =>
      let end_ := num_add start (asNum lengthValue) in
      if num_gtb end_ (Int (len data))
      then Throw "Text string extends beyond data"
      else Ok (VString (TextDecoder_decode (slice_num data start end_)),
               end_)
  | Throw m => Throw m
  end.

Definition decodeFloatSimple (data : list Z) (offset : num)
  : result (value * num) :=
  let additionalInfo := band (int_of (get_num data offset)) 0x1F in
  let offset := num_add offset (Int 1) in
  if additionalInfo <? 20 then Ok (VNum (Int additionalInfo), offset)
  else if additionalInfo =? 20 then Ok (VBool false, offset)
  else if additionalInfo =? 21 then Ok (VBool true, offset)
  else if additionalInfo =? 22 then Ok (VNull, offset)
  else if additionalInfo =? 23 then Ok (VUndefined, offset)
  else if additionalInfo =? 27 then
    let bits :=
      fold_left (fun acc i => acc * 256 + byteAt data offset i mod 256)
                [0; 1; 2; 3; 4; 5; 6; 7] 0 in
    Ok (VNum (float64_of_bits bits), num_add offset (Int 8))
  else
    Throw ("Unsupported float/simple value: " ++ dec_string additionalInfo).

(** ToString of a value used as a property key. *)
Definition numToString (n : num) : jsstring :=
  match n with
  | Int z => decimal z
  | Frac bits => fracToString bits
  | NaN => str "NaN"
  end.

Fixpoint join (parts : list jsstring) : jsstring :=
  match parts with
  | [] => []
  | [p] => p
  | p :: rest => p ++ 44 :: join rest
  end.

Fixpoint toPropertyKey (v : value) : jsstring :=
  match v with
  | VUndefined => str "undefined"
  | VNull => str "null"
  | VBool true => str "true"
  | VBool false => str "false"
  | VNum n => numToString n
  | VString s => s
  | VBytes bs => join (map decimal bs)
  | VArray items =>
      join (map (fun x => match x with
                          | VUndefined | VNull => []
                          | _ => toPropertyKey x
                          end) items)
  | VObject _ => str "[object Object]"
  end.

(** [i < lengthResult.value] *)
Definition indexBelow (i : Z) (lengthValue : value) : bool :=
  num_ltb (Int i) (asNum lengthValue).

(** [_decodeValue(data, offset)] with the loops of [_decodeArray] and
    [_decodeMap].  [fuel] bounds the number of nested and repeated
    calls; [None] means the bound was reached. *)
Fixpoint decodeValue (fuel : nat) (data : list Z) (offset : num)
  {struct fuel} : option (result (value * num)) :=
  match fuel with
  | O => None
  | S f =>
      if num_geb offset (Int (len data))
      then Some (Throw "Unexpected end of CBOR data")
      else
        let initialByte := int_of (get_num data offset) in
        let majorType := band (sar initialByte 5) 0x07 in
        if majorType =? 0 then Some (decodeUnsignedInt data offset)
        else if majorType =? 1 then Some (decodeNegativeInt data offset)
        else if majorType =? 2 then Some (decodeByteString data offset)
        else if majorType =? 3 then Some (decodeTextString data offset)
        else if majorType =? 4 then
          (* _decodeArray *)
          match decodeLength data offset with
          | Ok (lengthValue, offset) =>
              match decodeItems f data 0 lengthValue offset [] with
              | Some (Ok (array, offset)) =>
                  Some (Ok (VArray array, offset))
              | Some (Throw m) => Some (Throw m)
              | None => None
              end
          | Throw m => Some (Throw m)
          end
        else if majorType =? 5 then
          (* _decodeMap *)
          match decodeLength data offset with
          | Ok (lengthValue, offset) =>
              match decodeEntries f data 0 lengthValue offset [] with
              | Some (Ok (map, offset)) => Some (Ok (VObject map, offset))
              | Some (Throw m) => Some (Throw m)
              | None => None
              end
          | Throw m => Some (Throw m)
          end
        else if majorType =? 6 then
          (* _decodeTag *)
          match decodeLength data offset with
          | Ok (tagValue, tagOffset) =>
              match decodeValue f data tagOffset with
              | Some (Ok (v, offset)) =>
                  Some (Ok (VObject [(str "tag", tagValue);
                                     (str "value", v)], offset))
              | Some (Throw m) => Some (Throw m)
              | None => None
              end
          | Throw m => Some (Throw m)
          end
        else Some (decodeFloatSimple data offset)
  end

with decodeItems (fuel : nat) (data : list Z) (i : Z)
                 (lengthValue : value) (offset : num) (array : list value)
  {struct fuel} : option (result (list value * num)) :=
  match fuel with
  | O => None
  | S f =>
      if indexBelow i lengthValue then
        match decodeValue f data offset with
        | Some (Ok (v, offset)) =>
            decodeItems f data (i + 1) lengthValue offset (array ++ [v])
        | Some (Throw m) => Some (Throw m)
        | None => None
        end
      else Some (Ok (array, offset))
  end

with decodeEntries (fuel : nat) (data : list Z) (i : Z)
                   (lengthValue : value) (offset : num)
                   (map : list (jsstring * value))
  {struct fuel} : option (result (list (jsstring * value) * num)) :=
  match fuel with
  | O => None
  | S f =>
      if indexBelow i lengthValue then
        match decodeValue f data offset with
        | Some (Ok (key, offset)) =>
            match decodeValue f data offset with
            | Some (Ok (v, offset)) =>
                decodeEntries f data (i + 1) lengthValue offset
                              (assign map (toPropertyKey key) v)
            | Some (Throw m) => Some (Throw m)
            | None => None
            end
        | Some (Throw m) => Some (Throw m)
        | None => None
        end
      else Some (Ok (map, offset))
  end.

(** [decode(bytes)] for a [Uint8Array]. *)
Definition decode (fuel : nat) (bytes : list Z) : option (result value) :=
  match decodeValue fuel bytes (Int 0) with
  | Some (Ok (v, _)) => Some (Ok v)
  | Some (Throw m) => Some (Throw m)
  | None => None
  end.

End Platform.

End CBOR.

(* ================================================================== *)
(** ** CoAP messages (class [CoAPClient]) *)
(* ================================================================== *)

Module CoAP.
Import JS.

(** A value given for an option in the [options] argument: a string, an
    integer number, or an array of integers ([Uint8Array] or plain). *)
Inductive optionValue : Type :=
| OString (s : jsstring)
| ONumber (n : Z)
| OBytes (bs : list Z).

(** The [payload] property of the [options] argument, when it is a
    [Uint8Array] or a string. *)
Inductive payloadValue : Type :=
| PBytes (bs : list Z)
| PString (s : jsstring).

(** The fields of the client object that [createMessage] uses. *)
Record Client : Type := mkClient {
  clientMessageId : Z
}.

(** [new CoAPClient()] *)
Definition init : Client := {| clientMessageId := 1 |}.

(** What [createMessage] returns. *)
Record Created : Type := mkCreated {
  bytes : list Z;
  createdMessageId : Z;
  createdToken : list Z
}.

(** What [parseMessage] returns; [code] is [None] when the buffer has no
    second byte ([undefined]), [payload] is [None] for [null]. *)
Record Message : Type := mkMessage {
  version : Z;
  type : Z;
  code : option Z;
  codeClass : Z;
  codeDetail : Z;
  messageId : Z;
  token : list Z;
  options : list (jsstring * list (list Z));
  payload : option (list Z)
}.

Definition toLowerCase (s : jsstring) : jsstring :=
  map (fun c => if (65 <=? c) && (c <=? 90) then c + 32 else c) s.

(** The table [optionMap] of [getOptionNumber]. *)
Definition optionMap : list (jsstring * Z) :=
  [(str "uri-path", 11); (str "uri-query", 15); (str "content-format", 12);
   (str "accept", 17); (str "uri-host", 3); (str "uri-port", 7)].

Fixpoint lookup {A : Type} (k : jsstring) (m : list (jsstring * A))
  : option A :=
  match m with
  | [] => None
  | (k', v) :: rest => if jsstring_eqb k' k then Some v else lookup k rest
  end.

(** [getOptionNumber(name)] for a property key (a string):
    [optionMap[name.toLowerCase()] || parseInt(name)]. *)
Definition getOptionNumber (name : jsstring) : num :=
  match lookup (toLowerCase name) optionMap with
  | Some n => Int n
  | None => parseInt name 0
  end.

(** The table [reverseMap] of [getOptionName]. *)
Definition reverseMap : list (Z * jsstring) :=
  [(11, str "uri-path"); (15, str "uri-query"); (12, str "content-format");
   (17, str "accept"); (3, str "uri-host"); (7, str "uri-port")].

Fixpoint lookupZ (k : Z) (m : list (Z * jsstring)) : option jsstring :=
  match m with
  | [] => None
  | (k', v) :: rest => if k' =? k then Some v else lookupZ k rest
  end.

(** [getOptionName(number)]: [reverseMap[number] || `option-${number}`]. *)
Definition getOptionName (number : num) : jsstring :=
  match number with
  | Int n =>
      match lookupZ n reverseMap with
      | Some name => name
      | None => str "option-" ++ decimal n
      end
  | _ => str "option-NaN"
  end.

(** [encodeNumber(num)] for an integer, as the [Uint8Array] it returns. *)
Definition encodeNumber (n : Z) : list Z :=
  if n =? 0 then []
  else if n <? 256 then Uint8Array_from [n]
  else if n <? 65536 then Uint8Array_from [sar n 8; band n 0xFF]
  else Uint8Array_from
         [sar n 24; band (sar n 16) 0xFF; band (sar n 8) 0xFF; band n 0xFF].

(** The [valueBytes] of an option. *)
Definition valueBytes (v : optionValue) : list Z :=
  match v with
  | OString s => TextEncoder_encode s
  | ONumber n => encodeNumber n
  | OBytes bs => Uint8Array_from bs
  end.

(** A number pushed on a byte array: NaN ends up as 0 in the
    [Uint8Array], and as 0 under a bit operator. *)
Definition intOf (n : num) : Z :=
  match n with Int z => z | _ => 0 end.

(** [a - b] on option numbers. *)
Definition num_sub (a b : num) : num := num_add a (match b with
                                                   | Int z => Int (- z)
                                                   | _ => NaN
                                                   end).

(** Stable insertion of [x] after the elements that do not compare
    greater: the comparator is [(a, b) => a.number - b.number], and a
    NaN difference counts as equal. *)
Fixpoint insertSorted (x : num * optionValue) (l : list (num * optionValue))
  : list (num * optionValue) :=
  match l with
  | [] => [x]
  | y :: rest =>
      if num_ltb (Int 0) (num_sub (fst y) (fst x))
      then x :: l
      else y :: insertSorted x rest
  end.

(** [Array.prototype.sort] with that comparator (a stable sort). *)
Definition sortByNumber (l : list (num * optionValue))
  : list (num * optionValue) :=
  fold_left (fun acc x => insertSorted x acc) l [].

(** The entries of [options] other than [payload], with their keys
    resolved to numbers ([{ number: optionNumber, value }]). *)
Definition numbered (entries : list (jsstring * optionValue))
  : list (num * optionValue) :=
  map (fun '(key, value) => (getOptionNumber key, value)) entries.

(** [sortedOptions]: those entries sorted by number. *)
Definition sortedOptions (entries : list (jsstring * optionValue))
  : list (num * optionValue) :=
  sortByNumber (numbered entries).

(** The nibble written for an extended length next to an extended
    delta: [length < 13 ? length : (length < 269 ? 13 : 14)]. *)
Definition lengthNibble (length : Z) : Z :=
  if length <? 13 then length else if length <? 269 then 13 else 14.

(** The bytes pushed for one option (header, extensions, value). *)
Definition encodeOption (delta : num) (valueBytes : list Z) : list Z :=
  let length := len valueBytes in
  (if num_ltb delta (Int 13) && (length <? 13) then
     [bor (shl (intOf delta) 4) length]
   else
     let headerByte :=
       if num_ltb delta (Int 13) then shl (intOf delta) 4
       else if num_ltb delta (Int 269) then shl 13 4
       else shl 14 4 in
     (* delta *)
     (if num_ltb delta (Int 13) then []
      else if num_ltb delta (Int 269) then
        [bor headerByte (lengthNibble length);
         intOf (num_sub delta (Int 13))]
      else
        [bor headerByte (lengthNibble length);
         sar (intOf (num_sub delta (Int 269))) 8;
         band (intOf (num_sub delta (Int 269))) 0xFF])
     (* length *)
     ++ (if num_ltb delta (Int 13) then
           if length <? 13 then [bor headerByte length]
           else if length <? 269 then [bor headerByte 13; length - 13]
           else [bor headerByte 14; sar (length - 269) 8;
                 band (length - 269) 0xFF]
         else if 269 <=? length then
           [sar (length - 269) 8; band (length - 269) 0xFF]
         else if 13 <=? length then [length - 13]
         else []))
  ++ valueBytes.

(** The loop of [encodeOptions] over the sorted options. *)
Fixpoint encodeSorted (lastOptionNumber : num)
         (sorted : list (num * optionValue)) : list Z :=
  match sorted with
  | [] => []
  | (number, value) :: rest =>
      let delta := num_sub number lastOptionNumber in
      encodeOption delta (valueBytes value) ++ encodeSorted number rest
  end.

(** [encodeOptions(options)] *)
Definition encodeOptions (entries : list (jsstring * optionValue))
  : list Z :=
  encodeSorted (Int 0) (sortedOptions entries).

(** [if (options.payload)]: an empty string is falsy, a [Uint8Array] is
    truthy whatever its length. *)
Definition truthy (p : option payloadValue) : bool :=
  match p with
  | None => false
  | Some (PString []) => false
  | Some _ => true
  end.

Definition payloadBytes (p : payloadValue) : list Z :=
  match p with
  | PBytes bs => bs
  | PString s => TextEncoder_encode s
  end.

(** The byte layout of [createMessage], for the message ID and token
    that it has generated. *)
Definition buildMessage (messageId : Z) (token : list Z) (type code : Z)
           (entries : list (jsstring * optionValue))
           (payload : option payloadValue) : list Z :=
  let tokenLength := len token in
  let version := 1 in
  let byte0 := bor (bor (shl version 6) (shl type 4)) tokenLength in
  let message :=
    [byte0; code; band (sar messageId 8) 0xFF; band messageId 0xFF] in
  let message := if 0 <? tokenLength then message ++ token else message in
  let optionBytes := encodeOptions entries in
  let message :=
    if 0 <? len optionBytes then message ++ optionBytes else message in
  let message :=
    match payload with
    | Some p =>
        if truthy payload then message ++ [0xFF] ++ payloadBytes p
        else message
    | None => message
    end in
  Uint8Array_from message.

(** [generateToken()]: [random i] is the value of
    [Math.floor(Math.random() * 256)] at the [i]-th call. *)
Definition generateToken (random : nat -> Z) : list Z :=
  Uint8Array_from (map random [0; 1; 2; 3]%nat).

(** [createMessage(type, code, options)]: the result and the client
    after [this.messageId++]. *)
Definition createMessage (c : Client) (random : nat -> Z) (type code : Z)
           (entries : list (jsstring * optionValue))
           (payload : option payloadValue) : Created * Client :=
  let messageId := clientMessageId c in
  let token := generateToken random in
  ({| bytes := buildMessage messageId token type code entries payload;
      createdMessageId := messageId;
      createdToken := token |},
   {| clientMessageId := clientMessageId c + 1 |}).

(** [if (!options[name]) options[name] = []; options[name].push(value)]
    on the object of decoded options (keys in creation order). *)
Fixpoint storeOption (options : list (jsstring * list (list Z)))
         (name : jsstring) (value : list Z)
  : list (jsstring * list (list Z)) :=
  match options with
  | [] => [(name, [value])]
  | (k, vs) :: rest =>
      if jsstring_eqb k name then (k, vs ++ [value]) :: rest
      else (k, vs) :: storeOption rest name value
  end.

(** [13 + bytes[offset]] *)
Definition ext1 (bytes : list Z) (offset : Z) : num :=
  match get bytes offset with
  | Some b => Int (13 + b)
  | None => NaN
  end.

(** [269 + (bytes[offset] << 8) + bytes[offset + 1]] *)
Definition ext2 (bytes : list Z) (offset : Z) : num :=
  match get bytes (offset + 1) with
  | Some b => Int (269 + shl (int_of (get bytes offset)) 8 + b)
  | None => NaN
  end.

(** "Handle extended delta" / "Handle extended length": the value of a
    header nibble below 15 and the offset after its extension bytes. *)
Definition extended (bytes : list Z) (nibble off : Z) : num * Z :=
  if nibble =? 13 then (ext1 bytes off, off + 1)
  else if nibble =? 14 then (ext2 bytes off, off + 2)
  else (Int nibble, off).

(** One iteration of the [while] loop of [parseOptions]: either [break]
    at an offset, or the new option number, the option value and the
    offset after it. *)
Inductive step : Type :=
| Break (offset : Z)
| Continue (currentOption : num) (value : list Z) (offset : num).

Definition loopBody (bytes : list Z) (off : Z) (currentOption : num)
  : step :=
  let byte := int_of (get bytes off) in
  let off := off + 1 in
  let delta := band (sar byte 4) 0x0F in
  let length := band byte 0x0F in
  if delta =? 15 then Break off
  else
    let '(delta, off) := extended bytes delta off in
    if length =? 15 then Break off
    else
      let '(length, off) := extended bytes length off in
      let currentOption := num_add currentOption delta in
      let value := slice_num bytes (Int off) (num_add (Int off) length) in
      let offset := num_add (Int off) length in
      Continue currentOption value offset.

(** [while (offset < bytes.length && bytes[offset] !== 0xFF)] *)
Definition loopTest (bytes : list Z) (offset : num) : bool :=
  match offset with
  | Int off =>
      (off <? len bytes)
      && negb (match get bytes off with
               | Some b => b =? 0xFF
               | None => false
               end)
  | _ => false
  end.

(** The [while] loop of [parseOptions]; every iteration moves [offset]
    forward, [fuel] bounds the number of iterations. *)
Fixpoint parseOptionsLoop (fuel : nat) (bytes : list Z) (offset : num)
         (currentOption : num) (options : list (jsstring * list (list Z)))
  : list (jsstring * list (list Z)) * num :=
  match fuel with
  | O => (options, offset)
  | S fuel' =>
      if loopTest bytes offset then
        match loopBody bytes (intOf offset) currentOption with
        | Break off => (options, Int off)
        | Continue currentOption value offset =>
            let optionName := getOptionName currentOption in
            parseOptionsLoop fuel' bytes offset currentOption
                             (storeOption options optionName value)
        end
      else (options, offset)
  end.

(** [parseOptions(bytes, offset)] *)
Definition parseOptions (bytes : list Z) (offset : Z)
  : list (jsstring * list (list Z)) * num :=
  parseOptionsLoop (length bytes) bytes (Int offset) (Int 0) [].

(** [parseMessage(data)] *)
Definition parseMessage (data : list Z) : Message :=
  let bytes := Uint8Array_from data in
  let byte0 := int_of (get bytes 0) in
  let version := band (sar byte0 6) 0x03 in
  let type := band (sar byte0 4) 0x03 in
  let tokenLength := band byte0 0x0F in
  let code := get bytes 1 in
  let codeClass := band (sar (int_of code) 5) 0x07 in
  let codeDetail := band (int_of code) 0x1F in
  let messageId :=
    bor (shl (int_of (get bytes 2)) 8) (int_of (get bytes 3)) in
  let offset := 4 in
  let token :=
    if 0 <? tokenLength then slice bytes offset (offset + tokenLength)
    else [] in
  let offset := offset + tokenLength in
  let '(options, newOffset) := parseOptions bytes offset in
  let payload :=
    match newOffset with
    | Int off =>
        if (off <? len bytes)
           && (match get bytes off with
               | Some b => b =? 0xFF
               | None => false
               end)
        then Some (slice_from bytes (off + 1))
        else None
    | _ => None
    end in
  {| version := version; type := type; code := code;
     codeClass := codeClass; codeDetail := codeDetail;
     messageId := messageId; token := token;
     options := options; payload := payload |}.

(** *** Notions used to state the properties *)

(** The key of an entry resolves to an integer (not NaN). *)
Definition resolves (p : num * optionValue) : Prop :=
  exists n, fst p = Int n.

(** Ascending order of option numbers. *)
Definition numberLe (a b : num * optionValue) : Prop :=
  intOf (fst a) <= intOf (fst b).

(** Strictly ascending order of option numbers. *)
Definition numberLt (a b : num * optionValue) : Prop :=
  intOf (fst a) < intOf (fst b).

(** The decoded options when every option number occurs once: one name
    and one value per option, in order. *)
Definition singleOptions (l : list (num * optionValue))
  : list (jsstring * list (list Z)) :=
  map (fun p => (getOptionName (fst p), [valueBytes (snd p)])) l.

(** The extension bytes of a delta or length [x]. *)
Definition extension (x : Z) : list Z :=
  if x <? 13 then []
  else if x <? 269 then [x - 13]
  else [sar (x - 269) 8; band (x - 269) 0xFF].

(** An option that the wire format can carry: its number is an integer
    of 16 bits, its value has at most 65804 bytes. *)
Definition wireOption (p : num * optionValue) : Prop :=
  (exists n, fst p = Int n /\ 0 <= n <= 65535)
  /\ len (valueBytes (snd p)) <= 65804
  /\ Forall isByte (valueBytes (snd p)).

(** The decoded options of a sequence of numbered options: each value is
    stored under the name of its number, in order. *)
Definition storeAll (l : list (num * optionValue))
           (options : list (jsstring * list (list Z)))
  : list (jsstring * list (list Z)) :=
  fold_left
    (fun acc p => storeOption acc (getOptionName (fst p))
                              (valueBytes (snd p)))
    l options.

(** The bytes of a message behind its options: the marker and the
    payload, when there is a (truthy) payload. *)
Definition payloadPart (payload : option payloadValue) : list Z :=
  match payload with
  | Some p => if truthy payload then 0xFF :: payloadBytes p else []
  | None => []
  end.

(** The payload marker of an input: the offset at which the option loop
    of [parseMessage] stops, when a byte 0xFF is there. *)
Definition payloadMarker (data : list Z) : option Z :=
  let bytes := Uint8Array_from data in
  let tokenLength := band (int_of (get bytes 0)) 0x0F in
  match snd (parseOptions bytes (4 + tokenLength)) with
  | Int off =>
      if (off <? len bytes)
         && (match get bytes off with
             | Some b => b =? 0xFF
             | None => false
             end)
      then Some off
      else None
  | _ => None
  end.

(** The message that was encoded, in the shape [parseMessage] returns. *)
Definition messageOf (messageId : Z) (token : list Z) (type code : Z)
           (entries : list (jsstring * optionValue))
           (payload : option payloadValue) : Message :=
  {| version := 1;
     type := type;
     code := Some code;
     codeClass := code / 32;
     codeDetail := code mod 32;
     messageId := messageId;
     token := token;
     options := storeAll (numbered entries) [];
     payload := if truthy payload then option_map payloadBytes payload
                else None |}.

End CoAP.

(* ================================================================== *)
(** ** CoAP messages as data *)
(* ================================================================== *)

(** A message is held here as plain data, apart from the argument
    conventions of [createMessage]: an option is a number with the bytes
    of its value, a payload is its bytes or absent. *)

Module CoAPData.
Import JS CoAP.

(** The number that a sequence of bytes denotes, most significant byte
    first. *)
Definition bigEndian (bs : list Z) : Z :=
  fold_left (fun acc b => acc * 256 + b) bs 0.

(** The number of bytes of an unsigned option value [n]: none for 0, and
    1, 2 or 4. *)
Definition uintLength (n : Z) : Z :=
  if n =? 0 then 0 else if n <? 256 then 1 else if n <? 65536 then 2 else 4.

(** The bytes [bs] are the value [v]: the bytes of a byte array, the
    UTF-8 bytes of a string, the big-endian digits of an unsigned number
    of 32 bits. *)
Definition carries (v : optionValue) (bs : list Z) : Prop :=
  match v with
  | OBytes b => b = bs
  | OString s => TextEncoder_encode s = bs
  | ONumber n =>
      0 <= n < 2 ^ 32 /\ bigEndian bs = n /\ len bs = uintLength n
  end.

(** The entry [e] of the [options] argument is the option [o]: its key
    stands for the number of [o], its value for the bytes of [o]. *)
Definition optionOf (e : jsstring * optionValue) (o : Z * list Z) : Prop :=
  getOptionNumber (fst e) = Int (fst o) /\ carries (snd e) (snd o).

(** An option of a valid message: a number of 16 bits and at most 65804
    bytes of value. *)
Definition validOption (o : Z * list Z) : Prop :=
  0 <= fst o <= 65535 /\ len (snd o) <= 65804 /\ Forall isByte (snd o).

(** Ascending and strictly ascending option numbers. *)
Definition ascending (a b : Z * list Z) : Prop := fst a <= fst b.
Definition strictlyAscending (a b : Z * list Z) : Prop := fst a < fst b.

(** The [payload] property stands for the payload [body]: a byte array
    for its bytes, even when there are none; a string that is not empty
    for its UTF-8 bytes; no property, or an empty string, for no
    payload. *)
Definition carriesPayload (p : option payloadValue) (body : option (list Z))
  : Prop :=
  match p with
  | None => body = None
  | Some (PBytes bs) => body = Some bs
  | Some (PString []) => body = None
  | Some (PString s) => body = Some (TextEncoder_encode s)
  end.

(** The values of the options with number [n], in order; [None] when
    there is none. *)
Definition valuesOf (n : Z) (opts : list (Z * list Z))
  : option (list (list Z)) :=
  match map snd (filter (fun o => fst o =? n) opts) with
  | [] => None
  | vs => Some vs
  end.

(** The options grouped by number: the values of consecutive options
    with one number make one group, in order. *)
Definition absorb (g : Z * list (list Z)) (gs : list (Z * list (list Z)))
  : list (Z * list (list Z)) :=
  match gs with
  | (n, ws) :: gs' =>
      if fst g =? n then (fst g, snd g ++ ws) :: gs' else g :: gs
  | [] => [g]
  end.

Fixpoint grouped (opts : list (Z * list Z)) : list (Z * list (list Z)) :=
  match opts with
  | [] => []
  | (n, v) :: rest => absorb (n, [v]) (grouped rest)
  end.

(** The groups under the names of their numbers. *)
Definition named (gs : list (Z * list (list Z)))
  : list (jsstring * list (list Z)) :=
  map (fun g => (getOptionName (Int (fst g)), snd g)) gs.

(** The object of decoded options that holds [opts]: one property for
    each option number, named after the number, with the values of that
    number. *)
Definition optionsObject (opts : list (Z * list Z))
  : list (jsstring * list (list Z)) :=
  named (grouped opts).

(** The decoder's way of storing options one after the other, from [acc]
    on. *)
Definition storeFold (opts : list (Z * list Z))
           (acc : list (jsstring * list (list Z)))
  : list (jsstring * list (list Z)) :=
  fold_left (fun acc o => storeOption acc (getOptionName (Int (fst o)))
                                      (snd o))
            opts acc.

(** The values under one name after more values have been stored:
    [cur] is what was there before. *)
Definition addValues (cur : option (list (list Z))) (vs : list (list Z))
  : option (list (list Z)) :=
  match vs with
  | [] => cur
  | _ => Some (match cur with Some c => c ++ vs | None => vs end)
  end.


(** The message with these fields, as [parseMessage] returns it. *)
Definition message (messageId : Z) (token : list Z) (type code : Z)
           (opts : list (Z * list Z)) (body : option (list Z)) : Message :=
  {| version := 1;
     type := type;
     code := Some code;
     codeClass := code / 32;
     codeDetail := code mod 32;
     messageId := messageId;
     token := token;
     options := optionsObject opts;
     payload := body |}.

End CoAPData.

(* ================================================================== *)
(** ** CBOR values that the codec carries unchanged *)
(* ================================================================== *)

Module CBORValues.
Import JS CBOR.

(** The text strings of a value: its string items and the keys of its
    objects. *)
Fixpoint strings (v : value) : list jsstring :=
  match v with
  | VString s => [s]
  | VArray items => flat_map strings items
  | VObject props => flat_map (fun '(k, x) => k :: strings x) props
  | _ => []
  end.

(** A UTF-16 code unit; a byte. *)
Definition codeUnit (c : Z) : bool := (0 <=? c) && (c <? 65536).
Definition byteb (b : Z) : bool := (0 <=? b) && (b <? 256).

Fixpoint distinct (ks : list jsstring) : bool :=
  match ks with
  | [] => true
  | k :: rest => negb (existsb (jsstring_eqb k) rest) && distinct rest
  end.

(** A property key that an object keeps in creation order: not an array
    index, and not [__proto__]. *)
Definition plainKey (k : jsstring) : bool :=
  forallb codeUnit k
  && negb (jsstring_eqb k (str "__proto__"))
  && match arrayIndex k with Some _ => false | None => true end.

(** The values considered for the round trip: integers of 32 signed
    bits, doubles that are not integers given by their own bit pattern,
    NaN, strings, byte strings, arrays, and objects with distinct plain
    keys. *)
Fixpoint plain (v : value) : bool :=
  match v with
  | VUndefined | VNull | VBool _ => true
  | VNum (Int z) => (- 2 ^ 31 <=? z) && (z <? 2 ^ 31)
  | VNum (Frac b) =>
      (0 <=? b) && (b <? 2 ^ 64) && num_eqb (float64_of_bits b) (Frac b)
  | VNum NaN => true
  | VString s => forallb codeUnit s
  | VBytes bs => forallb byteb bs
  | VArray items => forallb plain items
  | VObject props =>
      distinct (map fst props)
      && forallb (fun '(k, x) => plainKey k && plain x) props
  end.

End CBORValues.

(* ================================================================== *)
(** ** CoAP request builders (class [CoAPClient]) *)
(* ================================================================== *)

Module CoAPRequests.
Import JS CoAP.

(** [this.TYPE.CON], [this.METHOD.*] and [this.CONTENT_FORMAT.*]. *)
Definition CON : Z := 0.
Definition GET : Z := 1.
Definition FETCH : Z := 5.
Definition YANG_IDENTIFIERS_CBOR_SEQ : Z := 61441.

(** [{ ...base, ...own }]: the own properties of the spread object are
    written over the base in the order in which the object lists them; a
    key that is already there keeps its place. *)
Definition spread (base own : list (jsstring * optionValue))
  : list (jsstring * optionValue) :=
  fold_left (fun acc p => CBOR.obj_set acc (fst p) (snd p))
            (CBOR.Object_entries own) base.

(** The [options] argument of a builder: its own properties other than
    [payload], in creation order, and its [payload] property ([None]
    when it has none, [Some None] when the property holds [null]). *)
Record Options : Type := mkOptions {
  properties : list (jsstring * optionValue);
  payloadProperty : option (option payloadValue)
}.

(** The default [options = {}]. *)
Definition noOptions : Options :=
  {| properties := []; payloadProperty := None |}.

(** [createGET(path, options)] for a string [path]. *)
Definition createGET (c : Client) (random : nat -> Z) (path : jsstring)
           (options : Options) : Created * Client :=
  createMessage c random CON GET
    (CBOR.Object_entries
       (spread [(str "uri-path", OString path)] (properties options)))
    (match payloadProperty options with
     | Some p => p
     | None => None
     end).


(** [createFETCH(path, payload, options)] *)
Definition createFETCH (c : Client) (random : nat -> Z) (path : jsstring)
           (payload : option payloadValue) (options : Options)
  : Created * Client :=
  createMessage c random CON FETCH
    (CBOR.Object_entries
       (spread [(str "uri-path", OString path);
                (str "content-format", ONumber YANG_IDENTIFIERS_CBOR_SEQ)]
               (properties options)))
    (match payloadProperty options with
     | Some p => p
     | None => payload
     end).

(** *** Notions used to state the properties *)

(** The option numbers that [getOptionName] has a name for. *)
Definition namedOption (n : Z) : bool :=
  existsb (Z.eqb n) (map fst reverseMap).

End CoAPRequests.

(* ================================================================== *)
(** ** MUP1: the helper methods of class [MUP1Protocol]
       (the same text in both classes that frame with [>] and [<]) *)
(* ================================================================== *)

Module Mup1Tools.
Import JS.

(** [for (i = 0; i < hex.length; i += 2)
      bytes.push(parseInt(hex.substr(i, 2), 16))] *)
Fixpoint hexToBytes (hex : jsstring) : list num :=
  match hex with
  | [] => []
  | [a] => [parseInt [a] 16]
  | a :: b :: rest => parseInt [a; b] 16 :: hexToBytes rest
  end.

(** [s.toUpperCase()] for a string of ASCII characters (digits of
    [toString(16)], minus signs and spaces here). *)
Definition toUpperCase (s : jsstring) : jsstring :=
  map (fun c => if (97 <=? c) && (c <=? 122) then c - 32 else c) s.

(** [parts.join(' ')] *)
Fixpoint joinSpace (parts : list jsstring) : jsstring :=
  match parts with
  | [] => []
  | [p] => p
  | p :: rest => p ++ 32 :: joinSpace rest
  end.

(** [Array.from(bytes).map(b => b.toString(16).padStart(2, '0'))
      .join(' ').toUpperCase()] for an array of integers. *)
Definition bytesToHex (bytes : list Z) : jsstring :=
  toUpperCase
    (joinSpace (map (fun b => padStart0 2 (toString16 b)) bytes)).

(** [createCoAPFrame(coapData)] of the prefix-escape class: the frame of
    type ['c']. *)
Definition createCoAPFrame (coapData : list Z) : list Z :=
  Mup1.createFrame 99 coapData.

(** [parseCoAPResponse(frame)]: the data of a frame of type ['C']. *)
Definition parseCoAPResponse (frame : Mup1.Frame) : result (list Z) :=
  if negb (Mup1.type frame =? 67) then Throw "Not a CoAP response"
  else Ok (Mup1.data frame).

(** *** Notions used to state the properties *)

(** The sum of the 16-bit words of a byte sequence, most significant
    byte first, a last odd byte standing for the high byte of a word. *)
Fixpoint wordSum (data : list Z) : Z :=
  match data with
  | [] => 0
  | [hi] => hi * 256
  | hi :: lo :: rest => hi * 256 + lo + wordSum rest
  end.

(** A sum reduced to 16 bits with end-around carry: 0 for 0, otherwise
    the residue modulo 65535 taken from 1 to 65535. *)
Definition endAround (s : Z) : Z :=
  if s =? 0 then 0 else (s - 1) mod 65535 + 1.

(** A payload byte that the substitution class sends as it is. *)
Definition unescaped (b : Z) : bool :=
  (0 <=? b) && (b <? 256)
  && negb (existsb (Z.eqb b) [0x00; 0xFF; 0x3E; 0x3C; 0x5C]).

(** Two lower-case hexadecimal digits per byte, nothing in between. *)
Definition compactHex (bytes : list Z) : jsstring :=
  flat_map (fun b => padStart0 2 (toString16 b)) bytes.

End Mup1Tools.

(* ================================================================== *)
(** ** The CoAP message of the stream class (class [CoAPMessage]) *)
(* ================================================================== *)

Module CoAPMessage.
Import JS.

(** The fields of a [CoAPMessage] that [encode] reads.  The token, the
    option values and the payload are arrays of integers ([Uint8Array]s
    as the constructor makes them); the payload is [None] for [null]. *)
Record Fields : Type := mkFields {
  version : Z;
  type : Z;
  code : Z;
  messageId : Z;
  token : list Z;
  options : list (Z * list Z);
  payload : option (list Z)
}.

(** [addOption(number, value)] *)
Definition addOption (m : Fields) (number : Z) (value : list Z) : Fields :=
  {| version := version m; type := type m; code := code m;
     messageId := messageId m; token := token m;
     options := options m ++ [(number, value)];
     payload := payload m |}.

(** [encode()]: the header, the token, one byte and the value for each
    option, and the marker with the payload when there is a payload.
    The array is allocated for exactly these bytes. *)
Definition encode (m : Fields) : list Z :=
  let header :=
    Uint8Array_from
      [bor (bor (shl (version m) 6) (shl (type m) 4)) (len (token m));
       code m;
       band (sar (messageId m) 8) 0xFF;
       band (messageId m) 0xFF] in
  header
    ++ Uint8Array_from (token m)
    ++ flat_map (fun opt => Uint8Array_from (fst opt :: snd opt))
                (options m)
    ++ match payload m with
       | Some p => 0xFF :: Uint8Array_from p
       | None => []
       end.

(** What the static [decode] returns. *)
Record Decoded : Type := mkDecoded {
  decodedVersion : Z;
  decodedType : Z;
  decodedCode : Z;
  decodedMessageId : Z;
  decodedToken : list Z;
  decodedPayload : option (list Z)
}.

(** [for (i = offset; i < data.length; i++)
      if (data[i] === 0xFF && i < data.length - 1)
        { payload = data.slice(i + 1); break; }]
    with [n] iterations left at index [i]. *)
Fixpoint findPayload (data : list Z) (n : nat) (i : Z) : option (list Z) :=
  match n with
  | O => None
  | S n' =>
      if (int_of (get data i) =? 0xFF) && (i <? len data - 1)
      then Some (slice_from data (i + 1))
      else findPayload data n' (i + 1)
  end.

(** [CoAPMessage.decode(data)]: [None] is [null]. *)
Definition decode (data : list Z) : option Decoded :=
  if len data <? 4 then None
  else
    let version := band (sar (int_of (get data 0)) 6) 0x3 in
    let type := band (sar (int_of (get data 0)) 4) 0x3 in
    let tokenLength := band (int_of (get data 0)) 0xF in
    let code := int_of (get data 1) in
    let messageId :=
      bor (shl (int_of (get data 2)) 8) (int_of (get data 3)) in
    let offset := 4 in
    let token := slice data offset (offset + tokenLength) in
    let offset := offset + tokenLength in
    let payload :=
      findPayload data (Z.to_nat (len data - offset)) offset in
    Some {| decodedVersion := version; decodedType := type;
            decodedCode := code; decodedMessageId := messageId;
            decodedToken := token; decodedPayload := payload |}.

(** Notion used in the statements: no option byte, as it is stored, is
    the payload marker. *)
Definition markerFree (m : Fields) : Prop :=
  Forall (fun opt => Forall (fun b => b mod 256 <> 0xFF)
                            (fst opt :: snd opt))
         (options m).

(** What [decode] finds after the options: a payload that is not empty. *)
Definition found (payload : option (list Z)) : option (list Z) :=
  match payload with
  | Some (b :: p) => Some (b :: p)
  | _ => None
  end.

End CoAPMessage.

(* ================================================================== *)
(** ** The read buffer of the serial handler (class [SerialHandler]) *)
(* ================================================================== *)

Module SerialHandler.
Import JS.

Definition SOF : Z := 0x3E.
Definition EOF : Z := 0x3C.

(** [xs.indexOf(x)]: [None] stands for -1. *)
Fixpoint indexOf (x : Z) (xs : list Z) : option Z :=
  match xs with
  | [] => None
  | y :: rest =>
      if y =? x then Some 0
      else match indexOf x rest with
           | Some i => Some (i + 1)
           | None => None
           end
  end.

(** The loop [for (i = startIdx + 2; i < this.readBuffer.length; i++)]
    of [processBuffer], with [n] iterations left at index [i]: the end
    [frameEnd] of the first frame that is followed by its four checksum
    characters, if there is one. *)
Fixpoint findFrameEnd (readBuffer : list Z) (n : nat) (i : Z) : option Z :=
  match n with
  | O => None
  | S n' =>
      if match get readBuffer i with
         | Some b => b =? EOF
         | None => false
         end
      then
        let eofIdx :=
          if (i + 1 <? len readBuffer)
             && match get readBuffer (i + 1) with
                | Some b => b =? EOF
                | None => false
                end
          then i + 1 else i in
        if eofIdx + 4 <? len readBuffer then Some (eofIdx + 5)
        else findFrameEnd readBuffer n' (i + 1)
      else findFrameEnd readBuffer n' (i + 1)
  end.

Section Protocol.

(** [this.mup1Protocol.parseFrame] and the frames it returns. *)
Variable Frame : Type.
Variable parseFrame : list Z -> result Frame.

(** What [processBuffer] takes out of the buffer: the bytes of a frame,
    and what [parseFrame] makes of them (the frame handed to
    [handleFrame], or the error that is caught and emitted). *)
Record Received : Type := mkReceived {
  frameData : list Z;
  frame : result Frame
}.

(** [processBuffer()]: what is taken out, in order, and the buffer that
    is left.  [fuel] bounds the depth of the calls of [processBuffer] by
    itself. *)
Fixpoint processBufferLoop (fuel : nat) (readBuffer : list Z)
  : list Received * list Z :=
  match fuel with
  | O => ([], readBuffer)
  | S fuel' =>
      match indexOf SOF readBuffer with
      | None => ([], readBuffer)
      | Some startIdx =>
          (* remove data before SOF *)
          let readBuffer :=
            if 0 <? startIdx then skipn (Z.to_nat startIdx) readBuffer
            else readBuffer in
          let startIdx := 0 in
          match findFrameEnd readBuffer
                             (Z.to_nat (len readBuffer - (startIdx + 2)))
                             (startIdx + 2) with
          | None => ([], readBuffer)
          | Some frameEnd =>
              let frameData := slice readBuffer 0 frameEnd in
              let readBuffer := skipn (Z.to_nat frameEnd) readBuffer in
              let received :=
                {| frameData := frameData; frame := parseFrame frameData |} in
              if 0 <? len readBuffer then
                let '(more, readBuffer) :=
                  processBufferLoop fuel' readBuffer in
                (received :: more, readBuffer)
              else ([received], readBuffer)
          end
      end
  end.




End Protocol.

End SerialHandler.

(* ================================================================== *)
(** * Properties *)
(* ================================================================== *)

(** ** Bit operators on small integers *)

Module JSFacts.
Import JS.

Lemma toInt32_small (z : Z) : - 2 ^ 31 <= z < 2 ^ 31 -> toInt32 z = z.
Proof.
  intros H. unfold toInt32.
  rewrite Z.mod_small by lia. lia.
Qed.

Lemma sar_small (z n : Z) :
  - 2 ^ 31 <= z < 2 ^ 31 -> 0 <= n -> sar z n = z / 2 ^ n.
Proof.
  intros H Hn. unfold sar. rewrite toInt32_small by assumption.
  apply Z.shiftr_div_pow2; assumption.
Qed.

Lemma band_ones (z n : Z) :
  - 2 ^ 31 <= z < 2 ^ 31 -> 0 <= n < 31 ->
  band z (Z.ones n) = z mod 2 ^ n.
Proof.
  intros H Hn. unfold band.
  assert (Hones : 0 <= Z.ones n < 2 ^ 31).
  { rewrite Z.ones_equiv. split.
    - pose proof (Z.pow_pos_nonneg 2 n). lia.
    - assert (2 ^ n <= 2 ^ 30) by (apply Z.pow_le_mono_r; lia).
      change (2 ^ 31) with (2 * 2 ^ 30). lia. }
  rewrite !toInt32_small by lia.
  apply Z.land_ones. lia.
Qed.

Lemma toInt32_range (z : Z) : - 2 ^ 31 <= toInt32 z < 2 ^ 31.
Proof.
  unfold toInt32.
  pose proof (Z.mod_pos_bound (z + 2 ^ 31) (2 ^ 32) ltac:(lia)).
  change (2 ^ 32) with (2 * 2 ^ 31) in *. lia.
Qed.

Lemma shl_small (a n : Z) :
  0 <= n -> - 2 ^ 31 <= a < 2 ^ 31 -> - 2 ^ 31 <= a * 2 ^ n < 2 ^ 31 ->
  shl a n = a * 2 ^ n.
Proof.
  intros Hn Ha Hm. unfold shl.
  rewrite (toInt32_small a) by assumption.
  rewrite Z.shiftl_mul_pow2 by assumption.
  apply toInt32_small. assumption.
Qed.

Lemma lor_disjoint (h l n : Z) :
  0 <= n -> 0 <= l < 2 ^ n -> Z.lor (h * 2 ^ n) l = h * 2 ^ n + l.
Proof.
  intros Hn Hl.
  assert (H0 : Z.land (h * 2 ^ n) l = 0).
  { apply Z.bits_inj'. intros i Hi.
    rewrite Z.land_spec, Z.bits_0.
    destruct (Z.lt_ge_cases i n) as [Hlt | Hge].
    - rewrite Z.mul_pow2_bits_low by lia. reflexivity.
    - rewrite <- (Z.mod_small l (2 ^ n)) by lia.
      rewrite Z.mod_pow2_bits_high by lia.
      apply andb_false_r. }
  rewrite Z.add_nocarry_lxor by exact H0.
  symmetry. apply Z.lxor_lor. exact H0.
Qed.

(** [(hi << 8) | lo] of two bytes. *)
Lemma bor_shl8 (hi lo : Z) :
  isByte hi -> isByte lo -> bor (shl hi 8) lo = hi * 256 + lo.
Proof.
  unfold isByte. intros Hh Hl.
  rewrite shl_small by (change (2 ^ 8) with 256; lia).
  change (2 ^ 8) with 256.
  unfold bor. rewrite !toInt32_small by lia.
  apply (lor_disjoint hi lo 8); [lia | change (2 ^ 8) with 256; lia].
Qed.

Lemma round53_small (z : Z) : Z.abs z < 2 ^ 53 -> round53 z = z.
Proof.
  intros H. unfold round53.
  destruct (Z.ltb_spec (Z.abs z) (2 ^ 53)); [reflexivity | lia].
Qed.

(** Rounding to a double keeps the sign. *)
Lemma round53_pos (z : Z) : 0 < round53 z <-> 0 < z.
Proof.
  unfold round53.
  destruct (Z.ltb_spec (Z.abs z) (2 ^ 53)) as [Hs | Hb]; [tauto |].
  set (a := Z.abs z) in *.
  set (sh := Z.log2 a - 52).
  assert (Ha : 0 < a) by lia.
  assert (Hsh : 0 <= sh).
  { unfold sh.
    assert (Z.log2 (2 ^ 53) <= Z.log2 a) by (apply Z.log2_le_mono; lia).
    rewrite Z.log2_pow2 in H by lia. lia. }
  assert (Hp : 0 < 2 ^ sh) by (apply Z.pow_pos_nonneg; lia).
  assert (Hq : 0 < a / 2 ^ sh).
  { apply Z.div_str_pos. split; [lia |].
    destruct (Z.log2_spec a Ha) as [Hlo _].
    assert (2 ^ sh <= 2 ^ Z.log2 a)
      by (apply Z.pow_le_mono_r; unfold sh; lia).
    lia. }
  set (q := a / 2 ^ sh) in *.
  match goal with
  | |- context [if ?c then q + 1 else q] =>
      set (q' := if c then q + 1 else q);
      assert (Hq' : 0 < q') by (unfold q'; destruct c; lia)
  end.
  assert (Hm : 0 < q' * 2 ^ sh) by (apply Z.mul_pos_pos; assumption).
  destruct z as [| pz | pz]; cbn [Z.sgn]; lia.
Qed.

Lemma forall_below (P : Z -> bool) (n : nat) :
  forallb P (map Z.of_nat (seq 0 n)) = true ->
  forall z, 0 <= z < Z.of_nat n -> P z = true.
Proof.
  intros H z Hz. rewrite forallb_forall in H. apply H.
  apply in_map_iff. exists (Z.to_nat z). split; [lia |].
  apply in_seq. lia.
Qed.

(** The two extension bytes of a 16-bit value. *)
Lemma two_bytes (x : Z) :
  0 <= x < 65536 ->
  isByte (sar x 8) /\ isByte (band x 0xFF)
  /\ shl (sar x 8) 8 + band x 0xFF = x
  /\ bor (shl (band (sar x 8) 0xFF) 8) (band x 0xFF) = x.
Proof.
  intros Hx.
  assert (Hs : sar x 8 = x / 256) by (apply sar_small; lia).
  assert (Hb : band x 0xFF = x mod 256) by (apply (band_ones x 8); lia).
  assert (Hh : 0 <= x / 256 < 256) by (Z.div_mod_to_equations; lia).
  assert (Hl : 0 <= x mod 256 < 256) by (Z.div_mod_to_equations; lia).
  assert (Hbs : band (x / 256) 0xFF = x / 256).
  { etransitivity; [apply (band_ones (x / 256) 8); lia |].
    apply Z.mod_small. exact Hh. }
  rewrite Hs, Hb, Hbs.
  repeat split; try lia.
  - rewrite shl_small by (change (2 ^ 8) with 256; lia).
    change (2 ^ 8) with 256. Z.div_mod_to_equations. lia.
  - rewrite bor_shl8 by (unfold isByte; lia).
    Z.div_mod_to_equations. lia.
Qed.

Lemma len_app (a b : list Z) : len (a ++ b) = len a + len b.
Proof. unfold len. rewrite length_app. lia. Qed.

Lemma len_cons (x : Z) (a : list Z) : len (x :: a) = 1 + len a.
Proof. unfold len. cbn [length]. lia. Qed.

Lemma len_nonneg (a : list Z) : 0 <= len a.
Proof. unfold len. lia. Qed.

Lemma get_app_at (pre l : list Z) (k : Z) :
  0 <= k -> get (pre ++ l) (len pre + k) = get l k.
Proof.
  intros Hk. unfold get, len.
  destruct (Z.ltb_spec (Z.of_nat (length pre) + k) 0); [lia |].
  destruct (Z.ltb_spec k 0); [lia |].
  rewrite Z2Nat.inj_add, Nat2Z.id by lia.
  rewrite nth_error_app2 by lia.
  f_equal. lia.
Qed.

Lemma get_app_head (pre : list Z) (x : Z) (l : list Z) :
  get (pre ++ x :: l) (len pre) = Some x.
Proof.
  rewrite <- (Z.add_0_r (len pre)).
  rewrite get_app_at by lia. reflexivity.
Qed.

Lemma get_end (l : list Z) : get l (len l) = None.
Proof.
  unfold get, len.
  destruct (Z.ltb_spec (Z.of_nat (length l)) 0); [reflexivity |].
  rewrite Nat2Z.id. apply nth_error_None. lia.
Qed.

Lemma slice_app_mid (a b c : list Z) :
  slice (a ++ b ++ c) (len a) (len a + len b) = b.
Proof.
  unfold slice. rewrite !len_app.
  pose proof (len_nonneg a). pose proof (len_nonneg b).
  pose proof (len_nonneg c).
  destruct (Z.ltb_spec (len a) 0); [lia |].
  destruct (Z.ltb_spec (len a + len b) 0); [lia |].
  rewrite !Z.min_l by lia.
  replace (len a + len b - len a) with (len b) by lia.
  unfold len. rewrite !Nat2Z.id.
  rewrite skipn_app, skipn_all, Nat.sub_diag. cbn [skipn app].
  rewrite firstn_app, firstn_all, Nat.sub_diag. cbn [firstn].
  apply app_nil_r.
Qed.

Lemma slice_from_app (a b : list Z) : slice_from (a ++ b) (len a) = b.
Proof.
  unfold slice_from.
  pose proof (slice_app_mid a b []) as H.
  rewrite app_nil_r in H. rewrite len_app. exact H.
Qed.

Lemma Uint8Array_from_bytes (l : list Z) :
  Forall isByte l -> Uint8Array_from l = l.
Proof.
  unfold Uint8Array_from, isByte.
  induction 1 as [| x l Hx Hl IH]; [reflexivity |].
  cbn [map]. rewrite IH, Z.mod_small by lia. reflexivity.
Qed.

Lemma round53_big (z : Z) : 2 ^ 53 <= z -> 2 ^ 53 <= round53 z.
Proof.
  intros Hz. unfold round53.
  assert (Habs : Z.abs z = z) by lia.
  rewrite Habs.
  destruct (Z.ltb_spec z (2 ^ 53)) as [Hs | _]; [lia |].
  assert (Hpos : 0 < z) by lia.
  set (sh := Z.log2 z - 52).
  assert (Hlog : 53 <= Z.log2 z).
  { rewrite <- (Z.log2_pow2 53) by lia. apply Z.log2_le_mono. exact Hz. }
  assert (Hsh : 1 <= sh) by (unfold sh; lia).
  assert (Hp : 2 <= 2 ^ sh).
  { change 2 with (2 ^ 1) at 1. apply Z.pow_le_mono_r; lia. }
  assert (Hq : 2 ^ 52 <= z / 2 ^ sh).
  { apply Z.div_le_lower_bound; [lia |].
    rewrite Z.mul_comm, <- Z.pow_add_r by lia.
    replace (52 + sh) with (Z.log2 z) by (unfold sh; lia).
    apply Z.log2_spec. exact Hpos. }
  set (q := z / 2 ^ sh) in *.
  match goal with
  | |- context [if ?c then q + 1 else q] =>
      set (q' := if c then q + 1 else q);
      assert (Hq' : q <= q') by (unfold q'; destruct c; lia)
  end.
  replace (Z.sgn z) with 1 by (destruct z; cbn; lia).
  change (2 ^ 53) with (2 ^ 52 * 2).
  rewrite Z.mul_1_l.
  apply Z.mul_le_mono_nonneg; lia.
Qed.

Lemma get_isByte (bytes : list Z) (i b : Z) :
  Forall isByte bytes -> get bytes i = Some b -> isByte b.
Proof.
  intros Hb. unfold get.
  destruct (i <? 0); [discriminate |].
  intros Hn. apply nth_error_In in Hn.
  rewrite Forall_forall in Hb. apply Hb. exact Hn.
Qed.

Lemma get_in_range (bytes : list Z) (i : Z) :
  0 <= i < len bytes -> exists b, get bytes i = Some b.
Proof.
  intros Hi. unfold get, len in *.
  destruct (Z.ltb_spec i 0); [lia |].
  destruct (nth_error bytes (Z.to_nat i)) as [b |] eqn:Hn; [eauto |].
  apply nth_error_None in Hn. lia.
Qed.

Lemma lor_bound (h x k : Z) :
  0 <= k -> 0 <= x < 2 ^ k -> 0 <= h -> (h + 1) * 2 ^ k <= 256 ->
  isByte (Z.lor (h * 2 ^ k) x).
Proof.
  intros Hk Hx Hh Hb. rewrite lor_disjoint by assumption.
  unfold isByte. nia.
Qed.

Lemma Uint8Array_from_isByte (l : list Z) : Forall isByte (Uint8Array_from l).
Proof.
  unfold Uint8Array_from. apply Forall_map, Forall_forall.
  intros x _. unfold isByte. apply Z.mod_pos_bound. lia.
Qed.

Lemma append_if_nonempty (m x : list Z) :
  (if 0 <? len x then m ++ x else m) = m ++ x.
Proof.
  destruct x as [| y x]; [cbn; rewrite app_nil_r; reflexivity |].
  rewrite len_cons. pose proof (len_nonneg x).
  destruct (Z.ltb_spec 0 (1 + len x)); [reflexivity | lia].
Qed.

End JSFacts.

(** ** MUP1 *)

Module Mup1Facts.
Import JS JSFacts.

(** One round of the carry loop, as arithmetic. *)
Lemma carry_round (s : Z) :
  band s 0xFFFF + sar s 16 = toInt32 s mod 65536 + toInt32 s / 65536.
Proof.
  unfold band, sar.
  rewrite (toInt32_small 65535) by lia.
  change 65535 with (Z.ones 16).
  rewrite Z.land_ones by lia.
  rewrite Z.shiftr_div_pow2 by lia.
  reflexivity.
Qed.

(** The [while (sum >> 16)] loop stops within three rounds, whatever the
    sum: the bound of eight rounds in [foldCarries] is never reached. *)
Lemma foldCarries_settles (sum : Z) (k : nat) :
  Mup1.foldCarries (3 + k) sum = Mup1.foldCarries 3 sum
  /\ sar (Mup1.foldCarries 3 sum) 16 = 0.
Proof.
  pose proof (toInt32_range sum) as Hr.
  change (2 ^ 31) with 2147483648 in Hr.
  set (v1 := band sum 0xFFFF + sar sum 16).
  assert (Hv1 : v1 = toInt32 sum mod 65536 + toInt32 sum / 65536)
    by apply carry_round.
  assert (Hb1 : -32768 <= v1 <= 98302).
  { rewrite Hv1. clear Hv1 v1.
    generalize dependent (toInt32 sum). intros t Ht.
    Z.div_mod_to_equations. lia. }
  assert (H1 : toInt32 v1 = v1) by (apply toInt32_small; lia).
  set (v2 := band v1 0xFFFF + sar v1 16).
  assert (Hv2 : v2 = v1 mod 65536 + v1 / 65536).
  { unfold v2. rewrite carry_round, H1. reflexivity. }
  assert (Hs1 : sar v1 16 = v1 / 65536).
  { unfold sar. rewrite H1. apply Z.shiftr_div_pow2. lia. }
  assert (Hb2 : sar v1 16 = 0 \/ 0 <= v2 < 65536).
  { rewrite Hs1, Hv2. Z.div_mod_to_equations. lia. }
  assert (Hs2 : sar v1 16 = 0 \/ sar v2 16 = 0).
  { destruct Hb2 as [Hz | Hb2]; [left; exact Hz | right].
    unfold sar. rewrite toInt32_small by lia.
    rewrite Z.shiftr_div_pow2 by lia.
    apply Z.div_small. lia. }
  cbn [Mup1.foldCarries Nat.add].
  fold v1. fold v2.
  destruct (Z.eqb_spec (sar sum 16) 0) as [E0 | E0]; [tauto |].
  destruct (Z.eqb_spec (sar v1 16) 0) as [E1 | E1]; [tauto |].
  destruct Hs2 as [Hs2 | Hs2]; [contradiction |].
  rewrite Hs2. cbn. tauto.
Qed.

End Mup1Facts.

Module Mup1Parse.
Import JS JSFacts.

(** The checksum is a 16-bit value. *)
Lemma band16_range (x : Z) : 0 <= band x 0xFFFF < 65536.
Proof.
  unfold band. rewrite (toInt32_small 65535) by lia.
  change 65535 with (Z.ones 16). rewrite Z.land_ones by lia.
  apply Z.mod_pos_bound. lia.
Qed.

(** The four checksum characters of a 16-bit value: bytes, none of them an
    end marker, and [parseInt(_, 16)] reads the value back. *)
Lemma checksumStr_parse (c : Z) :
  0 <= c < 65536 ->
  length (Mup1.checksumStr c) = 4%nat
  /\ Forall (fun b => isByte b /\ b <> 0x3C) (Mup1.checksumStr c)
  /\ parseInt (Mup1.checksumStr c) 16 = Int c.
Proof.
  intros Hc.
  pose (P := fun c : Z =>
               let h := Mup1.checksumStr c in
               Nat.eqb (length h) 4
               && forallb (fun b => (0 <=? b) && (b <? 256) && negb (b =? 0x3C)) h
               && num_eqb (parseInt h 16) (Int c)).
  assert (H : P (256 * (c / 256) + c mod 256) = true).
  { assert (Hh : 0 <= c / 256 < Z.of_nat 256)
      by (Z.div_mod_to_equations; lia).
    assert (Hl : 0 <= c mod 256 < Z.of_nat 256)
      by (Z.div_mod_to_equations; lia).
    revert Hl. generalize (c mod 256). revert Hh. generalize (c / 256).
    intros h Hh l Hl. revert l Hl.
    apply (forall_below (fun l => P (256 * h + l)) 256).
    revert h Hh.
    apply (forall_below
             (fun h => forallb (fun l => P (256 * h + l))
                               (map Z.of_nat (seq 0 256))) 256).
    vm_compute. reflexivity. }
  rewrite <- Z.div_mod in H by lia.
  unfold P in H. cbv zeta in H.
  apply andb_prop in H. destruct H as [H H3].
  apply andb_prop in H. destruct H as [H1 H2].
  split; [apply Nat.eqb_eq, H1 |]. split.
  - rewrite forallb_forall in H2. apply Forall_forall. intros b Hb.
    specialize (H2 b Hb).
    apply andb_prop in H2. destruct H2 as [H2 Hne].
    apply andb_prop in H2. destruct H2 as [Hlo Hhi].
    apply negb_true_iff, Z.eqb_neq in Hne.
    unfold isByte. lia.
  - destruct (parseInt (Mup1.checksumStr c) 16) as [z | |];
      cbn in H3; try discriminate H3.
    apply Z.eqb_eq in H3. rewrite H3. reflexivity.
Qed.

Lemma escapeData_plain (d : list Z) :
  Forall (fun b => Mup1.isSpecial b = false) d -> Mup1.escapeData d = d.
Proof.
  induction 1 as [| b d Hb Hd IH]; [reflexivity |].
  cbn [Mup1.escapeData]. rewrite Hb, IH. reflexivity.
Qed.

Lemma unescapeData_plain (d : list Z) :
  Forall (fun b => b <> Mup1.ESCAPE) d -> Mup1.unescapeData d = d.
Proof.
  induction 1 as [| b d Hb Hd IH]; [reflexivity |].
  cbn [Mup1.unescapeData].
  destruct (Z.eqb_spec b Mup1.ESCAPE); [contradiction |].
  rewrite IH. reflexivity.
Qed.

Lemma popEOF_plain (d : list Z) :
  Forall (fun b => b <> Mup1.EOF) d ->
  Mup1.popEOF d = d /\ Mup1.popEOF (d ++ [Mup1.EOF]) = d.
Proof.
  induction 1 as [| b d Hb Hd [IH1 IH2]]; [split; reflexivity |].
  cbn [Mup1.popEOF app]. rewrite IH1, IH2.
  destruct (Z.eqb_spec b Mup1.EOF); [contradiction |].
  destruct d; split; reflexivity.
Qed.

(** The end-marker loop passes over bytes that are not end markers. *)
Lemma findEnd_skip (mid pre post : list Z) :
  forall (n : nat) (ec ei : Z),
    Forall (fun b => b <> Mup1.EOF) mid ->
    (length mid <= n)%nat ->
    Mup1.findEnd (pre ++ mid ++ post) n (len pre) ec ei
    = Mup1.findEnd (pre ++ mid ++ post) (n - length mid)
                   (len pre + len mid) ec ei.
Proof.
  revert pre. induction mid as [| b mid IH]; intros pre n ec ei Hmid Hn.
  - cbn [length]. rewrite Nat.sub_0_r. change (len []) with 0.
    rewrite Z.add_0_r. reflexivity.
  - inversion Hmid as [| ? ? Hb Hmid']; subst.
    destruct n as [| n]; [cbn in Hn; lia |].
    cbn [Mup1.findEnd app].
    rewrite get_app_head. cbn [int_of].
    destruct (Z.eqb_spec b Mup1.EOF); [contradiction |].
    cbn [andb length Nat.sub].
    replace (pre ++ b :: mid ++ post) with ((pre ++ [b]) ++ mid ++ post)
      by (rewrite <- app_assoc; reflexivity).
    replace (len pre + 1) with (len (pre ++ [b]))
      by (rewrite len_app; reflexivity).
    rewrite IH by (try assumption; cbn in Hn; lia).
    rewrite <- app_assoc. cbn [app].
    f_equal. rewrite len_app, (len_cons b mid). change (len [b]) with 1. lia.
Qed.

Section Wire.
Variables (t : Z) (d pad h : list Z).
Hypothesis Ht : isByte t.
Hypothesis HtEOF : t <> Mup1.EOF.
Hypothesis HtESC : t <> Mup1.ESCAPE.
Hypothesis Hd : Forall (fun b => isByte b /\ Mup1.isSpecial b = false) d.
Hypothesis Hpad : pad = [] \/ pad = [Mup1.EOF].
Hypothesis Hh4 : length h = 4%nat.
Hypothesis Hh : Forall (fun b => isByte b /\ b <> 0x3C) h.

Let wire := Mup1.frameBody t d pad ++ h.

Lemma plain_not_special (b : Z) :
  Mup1.isSpecial b = false ->
  b <> Mup1.SOF /\ b <> Mup1.EOF /\ b <> Mup1.ESCAPE.
Proof.
  unfold Mup1.isSpecial. cbn [existsb].
  destruct (Z.eqb_spec b Mup1.SOF); [discriminate |].
  destruct (Z.eqb_spec b Mup1.EOF); [discriminate |].
  destruct (Z.eqb_spec b Mup1.ESCAPE); [discriminate |].
  tauto.
Qed.

Lemma payload_no_EOF : Forall (fun b => b <> Mup1.EOF) d.
Proof.
  eapply Forall_impl; [| exact Hd].
  intros b [_ Hb]. apply plain_not_special in Hb. tauto.
Qed.

Lemma payload_no_ESC : Forall (fun b => b <> Mup1.ESCAPE) d.
Proof.
  eapply Forall_impl; [| exact Hd].
  intros b [_ Hb]. apply plain_not_special in Hb. tauto.
Qed.

Lemma wire_bytes : Forall isByte wire.
Proof.
  unfold wire, Mup1.frameBody.
  rewrite !Forall_app. repeat split.
  - apply Forall_cons; [unfold isByte, Mup1.SOF; lia |].
    apply Forall_cons; [exact Ht | constructor].
  - eapply Forall_impl; [| exact Hd]. intros b [Hb _]. exact Hb.
  - apply Forall_cons; [unfold isByte, Mup1.EOF; lia | constructor].
  - destruct Hpad as [Ep | Ep]; rewrite Ep; [constructor |].
    apply Forall_cons; [unfold isByte, Mup1.EOF; lia | constructor].
  - eapply Forall_impl; [| exact Hh]. intros b [Hb _]. exact Hb.
Qed.

Lemma len_pad : len pad = 0 \/ len pad = 1.
Proof. destruct Hpad as [-> | ->]; [left | right]; reflexivity. Qed.

Lemma len_wire : len wire = 2 + len d + 1 + len pad + 4.
Proof.
  unfold wire, Mup1.frameBody. rewrite !len_app.
  change (len [Mup1.SOF; t]) with 2. change (len [Mup1.EOF]) with 1.
  replace (len h) with 4 by (unfold len; rewrite Hh4; reflexivity). lia.
Qed.

(** The loop ends at the last end marker. *)
Lemma findEnd_wire :
  Mup1.findEnd wire (Z.to_nat (len wire - (0 + 1))) (0 + 1) 0 (-1)
  = 2 + len d + len pad.
Proof.
  pose proof (len_nonneg d) as Hld.
  assert (E1 : wire = [Mup1.SOF] ++ (t :: d) ++ (Mup1.EOF :: pad ++ h)).
  { unfold wire, Mup1.frameBody. cbn [app]. rewrite <- !app_assoc.
    reflexivity. }
  assert (Hmid : Forall (fun b => b <> Mup1.EOF) (t :: d))
    by (constructor; [exact HtEOF | exact payload_no_EOF]).
  change (0 + 1) with (len [Mup1.SOF]).
  rewrite E1 at 1.
  rewrite findEnd_skip.
  2: exact Hmid.
  2: { rewrite len_wire. cbn [length]. change (len [Mup1.SOF]) with 1.
       pose proof (eq_refl : len d = Z.of_nat (length d)) as Hlen.
       destruct len_pad; lia. }
  rewrite <- E1.
  replace (Z.to_nat (len wire - len [Mup1.SOF]) - length (t :: d))%nat
    with (S (Z.to_nat (len pad + 4))).
  2: { rewrite len_wire. cbn [length]. change (len [Mup1.SOF]) with 1.
       pose proof (eq_refl : len d = Z.of_nat (length d)) as Hlen.
       destruct len_pad; lia. }
  set (i := len [Mup1.SOF] + len (t :: d)).
  assert (Hi : i = 2 + len d)
    by (unfold i; rewrite (len_cons t d); change (len [Mup1.SOF]) with 1;
        lia).
  assert (E2 : wire = ([Mup1.SOF] ++ t :: d) ++ Mup1.EOF :: (pad ++ h)).
  { rewrite E1. rewrite <- app_assoc. reflexivity. }
  assert (Li : len ([Mup1.SOF] ++ t :: d) = i)
    by (unfold i; rewrite len_app; reflexivity).
  assert (G0 : get wire i = Some Mup1.EOF)
    by (rewrite E2, <- Li; apply get_app_head).
  assert (Gprev : exists x, get wire (i - 1) = Some x /\ x <> Mup1.ESCAPE).
  { destruct (@exists_last _ (t :: d) ltac:(discriminate)) as (l' & x & El).
    exists x. split.
    - assert (E3 : wire = ([Mup1.SOF] ++ l') ++ x :: Mup1.EOF :: (pad ++ h)).
      { rewrite E1, El. rewrite <- !app_assoc. reflexivity. }
      replace (i - 1) with (len ([Mup1.SOF] ++ l')).
      + rewrite E3. apply get_app_head.
      + unfold i. rewrite El, !len_app. change (len [x]) with 1. lia.
    - assert (Hin : In x (t :: d))
        by (rewrite El; apply in_or_app; right; left; reflexivity).
      destruct Hin as [<- | Hin]; [exact HtESC |].
      pose proof payload_no_ESC as Hesc. rewrite Forall_forall in Hesc.
      apply Hesc, Hin. }
  destruct Gprev as (x & Gx & Hx).
  cbn [Mup1.findEnd].
  rewrite G0, Gx. cbn [int_of].
  rewrite Z.eqb_refl.
  destruct (Z.eqb_spec x Mup1.ESCAPE); [contradiction |].
  rewrite orb_true_r. change (0 + 1 =? 1) with true. cbn [andb].
  destruct (Z.ltb_spec (i + 1) (len wire)) as [_ | Hbad];
    [| rewrite len_wire in Hbad; destruct len_pad; lia].
  cbn [andb].
  replace (i + 1) with (len (([Mup1.SOF] ++ t :: d) ++ [Mup1.EOF]))
    by (rewrite len_app, Li; reflexivity).
  assert (E4 : wire = (([Mup1.SOF] ++ t :: d) ++ [Mup1.EOF]) ++ pad ++ h).
  { rewrite E2. rewrite <- !app_assoc. reflexivity. }
  rewrite E4 at 1.
  destruct Hpad as [Ep | Ep]; rewrite Ep.
  - rewrite app_nil_l.
    destruct h as [| h0 h']; [discriminate Hh4 |].
    rewrite get_app_head.
    inversion Hh as [| ? ? [_ Hh0] _]; subst.
    destruct (Z.eqb_spec h0 Mup1.EOF) as [Eh | _];
      [exfalso; apply Hh0; exact Eh |].
    rewrite Hi. change (len []) with 0. lia.
  - change ([Mup1.EOF] ++ h) with (Mup1.EOF :: h).
    rewrite get_app_head. rewrite Z.eqb_refl.
    rewrite len_app, Li, Hi. reflexivity.
Qed.

(** Parsing a frame whose payload holds no framing byte. *)
Lemma parseFrame_wire :
  Mup1.parseFrame wire
  = Ok {| Mup1.type := t;
          Mup1.data := d;
          Mup1.checksum := parseInt h 16;
          Mup1.checksumValid :=
            num_eqb (Int (Mup1.calculateChecksum (Mup1.frameBody t d pad)))
                    (parseInt h 16) |}.
Proof.
  pose proof (len_nonneg d) as Hld.
  pose proof len_wire as Hlw.
  unfold Mup1.parseFrame.
  rewrite (Uint8Array_from_bytes wire wire_bytes).
  assert (Hsof : Mup1.findSOF wire 0 = Some 0) by reflexivity.
  rewrite Hsof. cbv zeta.
  rewrite findEnd_wire.
  set (e := 2 + len d + len pad).
  destruct (Z.eqb_spec e (-1)) as [Hbad | _];
    [unfold e in Hbad; destruct len_pad; lia |].
  destruct (Z.ltb_spec (len wire) (e + 1 + 4)) as [Hbad | _];
    [unfold e in Hbad; lia |].
  assert (Ebody : len (Mup1.frameBody t d pad) = e + 1).
  { unfold Mup1.frameBody. rewrite !len_app. unfold e.
    change (len [Mup1.SOF; t]) with 2. change (len [Mup1.EOF]) with 1. lia. }
  assert (S1 : slice wire (e + 1) (e + 1 + 4) = h).
  { unfold wire. rewrite <- Ebody.
    pose proof (slice_app_mid (Mup1.frameBody t d pad) h []) as Hs.
    rewrite app_nil_r in Hs.
    replace 4 with (len h) by (unfold len; rewrite Hh4; reflexivity).
    exact Hs. }
  assert (S2 : slice wire 0 (e + 1) = Mup1.frameBody t d pad).
  { unfold wire. rewrite <- Ebody.
    apply (slice_app_mid [] (Mup1.frameBody t d pad) h). }
  assert (G1 : get wire (0 + 1) = Some t) by reflexivity.
  rewrite S1, S2, G1. cbn [int_of].
  f_equal.
  assert (Hpay : (if 0 + 2 <? e
                  then
                    if 0 <? len (Mup1.popEOF (slice wire (0 + 2) e))
                    then Mup1.unescapeData
                           (Mup1.popEOF (slice wire (0 + 2) e))
                    else []
                  else []) = d).
  { destruct (Z.ltb_spec (0 + 2) e) as [Hlt | Hge].
    - assert (S3 : Mup1.popEOF (slice wire (0 + 2) e) = d).
      { destruct (popEOF_plain d payload_no_EOF) as [P1 P2].
        destruct Hpad as [Ep | Ep].
        - assert (Es : slice wire (0 + 2) e = d).
          { unfold wire, Mup1.frameBody, e. rewrite Ep.
            change (len []) with 0. rewrite Z.add_0_r.
            rewrite <- !app_assoc.
            apply (slice_app_mid [Mup1.SOF; t] d). }
          rewrite Es. exact P1.
        - assert (Es : slice wire (0 + 2) e = d ++ [Mup1.EOF]).
          { unfold wire, Mup1.frameBody, e. rewrite Ep.
            replace ([Mup1.SOF; t] ++ d ++ [Mup1.EOF] ++ [Mup1.EOF])
              with ([Mup1.SOF; t] ++ (d ++ [Mup1.EOF]) ++ [Mup1.EOF])
              by (rewrite <- !app_assoc; reflexivity).
            rewrite <- !app_assoc.
            replace (2 + len d + len [Mup1.EOF])
              with (len [Mup1.SOF; t] + len (d ++ [Mup1.EOF]))
              by (rewrite len_app; change (len [Mup1.SOF; t]) with 2; lia).
            rewrite (app_assoc d [Mup1.EOF]).
            apply (slice_app_mid [Mup1.SOF; t] (d ++ [Mup1.EOF])). }
          rewrite Es. exact P2. }
      rewrite S3.
      destruct (Z.ltb_spec 0 (len d)) as [_ | Hz].
      + apply unescapeData_plain, payload_no_ESC.
      + destruct d; [reflexivity |].
        rewrite len_cons in Hz. pose proof (len_nonneg l). lia.
    - destruct d as [| b d']; [reflexivity |].
      unfold e in Hge. rewrite len_cons in Hge.
      pose proof (len_nonneg d'). destruct len_pad; lia. }
  rewrite Hpay.
  rewrite Uint8Array_from_bytes; [reflexivity |].
  eapply Forall_impl; [| exact Hd]. intros b [Hb _]. exact Hb.
Qed.

End Wire.

(** Packing and parsing back a frame whose type is not a framing byte and
    whose payload holds no framing byte: the frame comes back, with a
    valid checksum. *)
Lemma pack_parse_plain (t : Z) (d : list Z) :
  isByte t -> t <> Mup1.EOF -> t <> Mup1.ESCAPE ->
  Forall (fun b => isByte b /\ Mup1.isSpecial b = false) d ->
  exists c,
    Mup1.parseFrame (Mup1.createFrame t d)
    = Ok {| Mup1.type := t; Mup1.data := d;
            Mup1.checksum := Int c; Mup1.checksumValid := true |}.
Proof.
  intros Ht HtEOF HtESC Hd.
  set (pad := if (len ([Mup1.SOF; t] ++ d ++ [Mup1.EOF]) + 4) mod 2 =? 0
              then [Mup1.EOF] else []).
  set (c := Mup1.calculateChecksum (Mup1.frameBody t d pad)).
  assert (Hc : 0 <= c < 65536) by (apply band16_range).
  destruct (checksumStr_parse c Hc) as (H4 & Hh & Hparse).
  assert (Hpad : pad = [] \/ pad = [Mup1.EOF])
    by (unfold pad; destruct (_ =? 0); [right | left]; reflexivity).
  assert (Hesc : Mup1.escapeData d = d).
  { apply escapeData_plain. eapply Forall_impl; [| exact Hd].
    intros b [_ Hb]. exact Hb. }
  assert (Hframe : Mup1.createFrame t d
                   = Mup1.frameBody t d pad ++ Mup1.checksumStr c).
  { unfold Mup1.createFrame. cbv zeta.
    rewrite Hesc, append_if_nonempty.
    assert (Hbody : (if (len (([Mup1.SOF; t] ++ d) ++ [Mup1.EOF]) + 4)
                          mod 2 =? 0
                     then (([Mup1.SOF; t] ++ d) ++ [Mup1.EOF]) ++ [Mup1.EOF]
                     else ([Mup1.SOF; t] ++ d) ++ [Mup1.EOF])
                    = Mup1.frameBody t d pad).
    { unfold Mup1.frameBody, pad. rewrite <- !app_assoc.
      destruct (_ =? 0); [reflexivity |].
      rewrite app_nil_r. reflexivity. }
    rewrite Hbody. fold c.
    apply Uint8Array_from_bytes.
    apply (wire_bytes t d pad (Mup1.checksumStr c)); assumption. }
  exists c. rewrite Hframe.
  rewrite (parseFrame_wire t d pad (Mup1.checksumStr c)) by assumption.
  fold c. rewrite Hparse. cbn [num_eqb]. rewrite Z.eqb_refl. reflexivity.
Qed.

End Mup1Parse.

Module Mup1Props.
Import JS.

(** C10.  Escaping is left-invertible in both variants of the source:
    for every array [d], un-escaping the escaped array gives [d] back,
    with the prefix scheme (SOF, EOF and ESCAPE get an escape byte in
    front) and with the substitution scheme (0x00 and 0xFF are also
    rewritten, to [\0] and [\F]). *)
Theorem unescape_escape (d : list Z) :
  Mup1.unescapeData (Mup1.escapeData d) = d
  /\ Mup1Subst.unescapeData (Mup1Subst.escapeData d) = d.
Proof.
  split.
  - induction d as [| a d IH]; [reflexivity |].
    cbn [Mup1.escapeData].
    destruct (Mup1.isSpecial a) eqn:Hsp.
    + cbn [Mup1.unescapeData]. rewrite Z.eqb_refl, IH. reflexivity.
    + cbn [Mup1.unescapeData].
      destruct (Z.eqb_spec a Mup1.ESCAPE) as [E | E].
      * subst a. discriminate Hsp.
      * rewrite IH. reflexivity.
  - induction d as [| a d IH]; [reflexivity |].
    cbn [Mup1Subst.escapeData].
    destruct (Z.eqb_spec a 0x00) as [E0 | E0];
      [subst a; cbn; rewrite IH; reflexivity |].
    destruct (Z.eqb_spec a 0xFF) as [E1 | E1];
      [subst a; cbn; rewrite IH; reflexivity |].
    destruct (Z.eqb_spec a Mup1Subst.SOF) as [E2 | E2];
      [subst a; cbn; rewrite IH; reflexivity |].
    destruct (Z.eqb_spec a Mup1Subst.EOF) as [E3 | E3];
      [subst a; cbn; rewrite IH; reflexivity |].
    destruct (Z.eqb_spec a Mup1Subst.ESCAPE) as [E4 | E4];
      [subst a; cbn; rewrite IH; reflexivity |].
    cbn [Mup1Subst.unescapeData].
    destruct (Z.eqb_spec a Mup1Subst.ESCAPE) as [E5 | _];
      [contradiction |].
    rewrite IH. reflexivity.
Qed.

(** C9.  The ping frame ([createFrame('p')], empty payload).  In the
    prefix-escape class the parity test [(frame.length + 4) % 2 === 0]
    is taken on the frame built so far (3 bytes), so one end marker is
    written and the frame is [>p<858f]; in the substitution class the
    test is [data.length % 2 === 0], two end markers are written and the
    frame is [>p<<8553], the frame of the device log. *)
Theorem ping_frame :
  Mup1.createFrame 112 [] = str ">p<858f"
  /\ Mup1.calculateChecksum [0x3E; 0x70; 0x3C] = 0x858F
  /\ Mup1.calculateChecksum [0x3E; 0x70; 0x3C; 0x3C] = 0x8553
  /\ Mup1Subst.createFrame 112 [] = str ">p<<8553".
Proof. repeat split; vm_compute; reflexivity. Qed.

(** C3.  Packing and parsing back a text frame ([type] 'T').  A payload
    that ends in the end marker 0x3C comes back as the escape byte 0x5C
    in both classes (the parser strips trailing end markers from the
    still escaped payload); a payload that ends in 0x5C makes the parser
    miss the end marker; and in the substitution class the checksum of a
    frame with an escaped byte never verifies, since it is computed over
    the unescaped bytes and checked over the wire bytes. *)
Theorem pack_parse_special_payload :
  Mup1.parseFrame (Mup1.createFrame 84 [0x3C])
  = Ok {| Mup1.type := 84; Mup1.data := [0x5C];
          Mup1.checksum := Int 0x296F; Mup1.checksumValid := true |}
  /\ Mup1.parseFrame (Mup1.createFrame 84 [0x5C])
     = Throw "No end of frame found"
  /\ Mup1Subst.parseFrame (Mup1Subst.createFrame 84 [0x3C])
     = Ok {| Mup1Subst.type := 84; Mup1Subst.data := [0x5C];
             Mup1Subst.checksum := Int 0x856F;
             Mup1Subst.checksumValid := false |}
  /\ Mup1Subst.parseFrame (Mup1Subst.createFrame 84 [0x00])
     = Ok {| Mup1Subst.type := 84; Mup1Subst.data := [0x00];
             Mup1Subst.checksum := Int 0xC16F;
             Mup1Subst.checksumValid := false |}.
Proof. repeat split; vm_compute; reflexivity. Qed.

(** C4.  Feeding a packed frame to [processData] whole and in two chunks.
    The payload holds the response start bytes 0x60 0x45 and a 0xFF; the
    frame extracted from the whole buffer carries [1; 2; 3], the frame
    extracted after the first 19 bytes carries [1] only, and the second
    chunk gives no frame. *)
Theorem chunked_feed_differs :
  let frame :=
    fst (Mup1Stream.packFrame Mup1Stream.init [0x60; 0x45; 0xFF; 1; 2; 3] 99)
  in
  fst (Mup1Stream.processData Mup1Stream.init frame) = [[1; 2; 3]]
  /\ fst (Mup1Stream.feedChunks Mup1Stream.init
            [firstn 19 frame; skipn 19 frame]) = [[1]]
  /\ firstn 19 frame ++ skipn 19 frame = frame.
Proof. repeat split; vm_compute; reflexivity. Qed.

End Mup1Props.

(** ** CBOR *)

Module CBORFacts.
Import JS JSFacts CBOR.

(** The initial byte [(majorType << 5) | additionalInfo]. *)
Lemma initial_byte (mt ai : Z) :
  0 <= mt < 8 -> 0 <= ai < 32 ->
  let byte := bor (shl mt 5) ai in
  isByte byte
  /\ band (sar byte 5) 0x07 = mt
  /\ band byte 0x1F = ai.
Proof.
  intros Hmt Hai.
  pose (P := fun mt ai : Z =>
               let byte := bor (shl mt 5) ai in
               (0 <=? byte) && (byte <? 256)
               && (band (sar byte 5) 0x07 =? mt) && (band byte 0x1F =? ai)).
  assert (H : P mt ai = true).
  { revert ai Hai.
    apply (forall_below (fun ai => P mt ai) 32).
    revert mt Hmt.
    apply (forall_below
             (fun mt => forallb (fun ai => P mt ai) (map Z.of_nat (seq 0 32)))
             8).
    vm_compute. reflexivity. }
  unfold P in H. cbv zeta in H.
  repeat (apply andb_prop in H; destruct H as [H ?]).
  cbv zeta. unfold isByte. lia.
Qed.

(** The four argument bytes of a value below 2^31, read back with
    [(b3 << 24) | (b2 << 16) | (b1 << 8) | b0]. *)
Lemma four_bytes (v : Z) :
  0 <= v < 2 ^ 31 ->
  let b3 := band (sar v 24) 0xFF in
  let b2 := band (sar v 16) 0xFF in
  let b1 := band (sar v 8) 0xFF in
  let b0 := band v 0xFF in
  Forall isByte [b3; b2; b1; b0]
  /\ bor (bor (bor (shl b3 24) (shl b2 16)) (shl b1 8)) b0 = v.
Proof.
  intros Hv. change (2 ^ 31) with 2147483648 in Hv.
  assert (Hsar : forall k, 0 <= k -> sar v k = v / 2 ^ k)
    by (intros k Hk; apply sar_small; [change (2 ^ 31) with 2147483648; lia
                                      | exact Hk]).
  assert (Hband : forall x, 0 <= x < 2147483648 ->
                            band x 0xFF = x mod 256).
  { intros x Hx. apply (band_ones x 8);
      [change (2 ^ 31) with 2147483648; lia | lia]. }
  cbv zeta. rewrite !Hsar by lia.
  change (2 ^ 24) with 16777216. change (2 ^ 16) with 65536.
  change (2 ^ 8) with 256.
  assert (H24 : 0 <= v / 16777216 < 128) by (Z.div_mod_to_equations; lia).
  assert (H16 : 0 <= v / 65536 < 2147483648)
    by (Z.div_mod_to_equations; lia).
  assert (H8 : 0 <= v / 256 < 2147483648) by (Z.div_mod_to_equations; lia).
  rewrite !Hband by lia.
  set (b3 := (v / 16777216) mod 256).
  set (b2 := (v / 65536) mod 256).
  set (b1 := (v / 256) mod 256).
  set (b0 := v mod 256).
  assert (B3 : 0 <= b3 < 128) by (unfold b3; Z.div_mod_to_equations; lia).
  assert (B2 : 0 <= b2 < 256) by (unfold b2; Z.div_mod_to_equations; lia).
  assert (B1 : 0 <= b1 < 256) by (unfold b1; Z.div_mod_to_equations; lia).
  assert (B0 : 0 <= b0 < 256) by (unfold b0; Z.div_mod_to_equations; lia).
  split.
  { repeat (apply Forall_cons; [unfold isByte; lia |]). constructor. }
  rewrite (shl_small b3 24), (shl_small b2 16), (shl_small b1 8);
    change (2 ^ 31) with 2147483648; change (2 ^ 24) with 16777216;
    change (2 ^ 16) with 65536; change (2 ^ 8) with 256; try lia.
  unfold bor.
  rewrite (toInt32_small (b3 * 16777216)), (toInt32_small (b2 * 65536))
    by (change (2 ^ 31) with 2147483648; lia).
  change 16777216 with (2 ^ 24) at 1.
  rewrite (lor_disjoint b3 (b2 * 65536) 24)
    by (change (2 ^ 24) with 16777216; lia).
  change (2 ^ 24) with 16777216.
  rewrite (toInt32_small (b3 * 16777216 + b2 * 65536)),
          (toInt32_small (b1 * 256))
    by (change (2 ^ 31) with 2147483648; lia).
  replace (b3 * 16777216 + b2 * 65536) with ((b3 * 256 + b2) * 2 ^ 16)
    by (change (2 ^ 16) with 65536; lia).
  rewrite (lor_disjoint _ (b1 * 256) 16)
    by (change (2 ^ 16) with 65536; lia).
  change (2 ^ 16) with 65536.
  rewrite (toInt32_small ((b3 * 256 + b2) * 65536 + b1 * 256)),
          (toInt32_small b0)
    by (change (2 ^ 31) with 2147483648; lia).
  replace ((b3 * 256 + b2) * 65536 + b1 * 256)
    with (((b3 * 256 + b2) * 256 + b1) * 2 ^ 8)
    by (change (2 ^ 8) with 256; lia).
  rewrite (lor_disjoint _ b0 8) by (change (2 ^ 8) with 256; lia).
  change (2 ^ 8) with 256.
  unfold b3, b2, b1, b0. Z.div_mod_to_equations. lia.
Qed.

(** Evaluate the offsets that are closed terms. *)
Ltac closed_offsets :=
  repeat match goal with
         | |- context [round53 ?x] =>
             let y := eval vm_compute in (round53 x) in
             change (round53 x) with y
         end.

(** An argument below 2^31 written by [_encodeTypeAndValue] is read back
    by [_decodeUnsignedInt] and [_decodeLength] alike, under any major
    type. *)
Lemma decodeArgument_encode (mt v : Z) (rest : list Z)
      (other : Z -> result (value * num)) :
  0 <= mt < 8 -> 0 <= v < 2 ^ 31 ->
  let enc := encodeTypeAndValue mt v in
  Forall isByte enc
  /\ 0 < len enc
  /\ band (sar (int_of (get (enc ++ rest) 0)) 5) 0x07 = mt
  /\ decodeArgument (enc ++ rest) (Int 0) other
     = Ok (VNum (Int v), Int (len enc)).
Proof.
  intros Hmt Hv. change (2 ^ 31) with 2147483648 in Hv.
  cbv zeta. unfold encodeTypeAndValue, decodeArgument.
  destruct (Z.ltb_spec v 24) as [H24 | H24].
  { destruct (initial_byte mt v Hmt ltac:(lia)) as (Hb & Hm & Ha).
    cbv zeta in Hb, Hm, Ha.
    cbn [app get_num get Z.ltb Z.compare Z.to_nat nth_error int_of].
    rewrite Hm, Ha.
    destruct (Z.ltb_spec v 24); [| lia].
    repeat split; try reflexivity.
    apply Forall_cons; [exact Hb | constructor]. }
  assert (Hhdr : forall ai, 24 <= ai < 28 ->
            let byte := bor (shl mt 5) ai in
            isByte byte /\ band (sar byte 5) 0x07 = mt
            /\ band byte 0x1F = ai)
    by (intros ai Hai; apply initial_byte; lia).
  destruct (Z.ltb_spec v 256) as [H256 | H256].
  { destruct (Hhdr 24 ltac:(lia)) as (Hb & Hm & Ha).
    cbv zeta in Hb, Hm, Ha.
    cbn [app get_num get Z.ltb Z.compare Z.to_nat nth_error int_of].
    rewrite Hm, Ha. cbn.
    repeat split; try reflexivity.
    apply Forall_cons; [exact Hb |].
    apply Forall_cons; [unfold isByte; lia | constructor]. }
  destruct (Z.ltb_spec v 65536) as [H65536 | H65536].
  { destruct (Hhdr 25 ltac:(lia)) as (Hb & Hm & Ha).
    cbv zeta in Hb, Hm, Ha.
    destruct (two_bytes v ltac:(lia)) as (T1 & T2 & _ & T4).
    assert (T1' : isByte (band (sar v 8) 0xFF)).
    { unfold isByte in *.
      pose proof (band_ones (sar v 8) 8 ltac:(lia) ltac:(lia)) as Hbo.
      change (Z.ones 8) with 255 in Hbo. rewrite Hbo.
      apply Z.mod_pos_bound. lia. }
    cbn [app get_num get Z.ltb Z.compare Z.to_nat nth_error int_of].
    rewrite Hm, Ha. cbn [Z.ltb Z.eqb Z.compare Pos.compare Pos.eqb
                         Pos.compare_cont].
    unfold byteAt. cbn [num_add]. closed_offsets.
    cbn [get_num].
    change (get (?a :: ?b :: ?c :: rest) 1) with (Some b).
    change (get (?a :: ?b :: ?c :: rest) 2) with (Some c).
    cbn [int_of]. rewrite T4.
    repeat split; try reflexivity.
    apply Forall_cons; [exact Hb |].
    apply Forall_cons; [exact T1' |].
    apply Forall_cons; [exact T2 | constructor]. }
  destruct (Z.ltb_spec v 4294967296) as [H32 | H32]; [| lia].
  destruct (Hhdr 26 ltac:(lia)) as (Hb & Hm & Ha).
  cbv zeta in Hb, Hm, Ha.
  destruct (four_bytes v ltac:(change (2 ^ 31) with 2147483648; lia))
    as (F1 & F2).
  cbv zeta in F1, F2.
  cbn [app get_num get Z.ltb Z.compare Z.to_nat nth_error int_of].
  rewrite Hm, Ha. cbn [Z.ltb Z.eqb Z.compare Pos.compare Pos.eqb
                       Pos.compare_cont].
  unfold read32, byteAt. cbn [num_add]. closed_offsets.
  cbn [get_num].
  change (get (?a :: ?b :: ?c :: ?d :: ?e :: rest) 1) with (Some b).
  change (get (?a :: ?b :: ?c :: ?d :: ?e :: rest) 2) with (Some c).
  change (get (?a :: ?b :: ?c :: ?d :: ?e :: rest) 3) with (Some d).
  change (get (?a :: ?b :: ?c :: ?d :: ?e :: rest) 4) with (Some e).
  cbn [int_of]. rewrite F2.
  repeat split; try reflexivity.
  apply Forall_cons; [exact Hb | exact F1].
Qed.

End CBORFacts.

Module CBORProps.
Import JS JSFacts CBOR CBORFacts.

Section Platform.
Variable TextDecoder_decode : list Z -> jsstring.
Variable fracToString : Z -> jsstring.

(** Integers from -2^31 up to 2^31 - 1 do survive encoding and decoding;
    the round trip breaks where the 32-bit words of the argument get their
    top bit set. *)
Lemma small_int_round_trip (z : Z) (n : nat) :
  - 2 ^ 31 <= z < 2 ^ 31 ->
  CBOR.decode TextDecoder_decode fracToString (1 + n) (encode (VNum (Int z)))
  = Some (Ok (VNum (Int z))).
Proof.
  intros Hz. change (2 ^ 31) with 2147483648 in Hz.
  unfold encode. cbn [encodeValue encodeNumber].
  destruct (Z.leb_spec 0 z) as [Hpos | Hneg].
  - unfold encodeUnsignedInt.
    destruct (decodeArgument_encode 0 z []
                (fun ai => Throw ("Invalid additional info: " ++ dec_string ai))
                ltac:(lia) ltac:(change (2 ^ 31) with 2147483648; lia))
      as (Hb & Hl & Hm & Hd).
    cbv zeta in Hb, Hl, Hm, Hd. rewrite app_nil_r in Hm, Hd.
    rewrite (Uint8Array_from_bytes _ Hb).
    unfold CBOR.decode. cbn [Nat.add decodeValue num_geb get_num].
    destruct (Z.leb_spec (len (encodeTypeAndValue 0 z)) 0); [lia |].
    rewrite Hm. cbn [Z.eqb].
    unfold decodeUnsignedInt. rewrite Hd. reflexivity.
  - assert (Hv : round53 (- z - 1) = - z - 1)
      by (apply round53_small; change (2 ^ 53) with 9007199254740992; lia).
    rewrite Hv. unfold encodeNegativeInt.
    destruct (decodeArgument_encode 1 (- z - 1) []
                (fun ai => Throw ("Invalid additional info: " ++ dec_string ai))
                ltac:(lia) ltac:(change (2 ^ 31) with 2147483648; lia))
      as (Hb & Hl & Hm & Hd).
    cbv zeta in Hb, Hl, Hm, Hd. rewrite app_nil_r in Hm, Hd.
    rewrite (Uint8Array_from_bytes _ Hb).
    unfold CBOR.decode. cbn [Nat.add decodeValue num_geb get_num].
    destruct (Z.leb_spec (len (encodeTypeAndValue 1 (- z - 1))) 0); [lia |].
    rewrite Hm. cbn [Z.eqb Pos.eqb].
    unfold decodeNegativeInt, decodeUnsignedInt. rewrite Hd.
    replace (- (- z - 1) - 1) with z by lia.
    rewrite round53_small
      by (change (2 ^ 53) with 9007199254740992; lia).
    reflexivity.
Qed.

(** C1.  The integer 2^31 is encoded with a four-byte argument and
    decoded through [(data[offset] << 24) | ...], a signed 32-bit value:
    it comes back as -2^31.  In the same way -2^31 - 1 comes back as
    2^31 - 1. *)
Theorem int32_round_trip (n : nat) :
  encode (VNum (Int 2147483648)) = [0x1A; 0x80; 0; 0; 0]
  /\ CBOR.decode TextDecoder_decode fracToString (1 + n)
                 (encode (VNum (Int 2147483648)))
     = Some (Ok (VNum (Int (-2147483648))))
  /\ CBOR.decode TextDecoder_decode fracToString (1 + n)
                 (encode (VNum (Int (-2147483649))))
     = Some (Ok (VNum (Int 2147483647))).
Proof. repeat split. Qed.

(** C5.  Items whose initial byte has additional info 31: an array, a
    byte string and a map are decoded, as empty values, and an
    indefinite-length array loses its items; only major types 0, 1 and 7
    throw. *)
Theorem indefinite_length_decodes (n : nat) :
  CBOR.decode TextDecoder_decode fracToString (2 + n) [0x9F]
  = Some (Ok (VArray []))
  /\ CBOR.decode TextDecoder_decode fracToString (2 + n) [0x9F; 0x01; 0xFF]
     = Some (Ok (VArray []))
  /\ CBOR.decode TextDecoder_decode fracToString (2 + n) [0x5F]
     = Some (Ok (VBytes []))
  /\ CBOR.decode TextDecoder_decode fracToString (2 + n) [0xBF]
     = Some (Ok (VObject []))
  /\ CBOR.decode TextDecoder_decode fracToString (2 + n) [0x1F]
     = Some (Throw "Invalid additional info: 31")
  /\ CBOR.decode TextDecoder_decode fracToString (2 + n) [0xFF]
     = Some (Throw "Unsupported float/simple value: 31").
Proof. repeat split. Qed.

(** C6.  Buffers that end inside the argument or inside a float: the
    missing bytes are read as [undefined] and coerced to 0 (or returned
    as [undefined]), and a value is produced. *)
Theorem truncated_argument_decodes (n : nat) :
  CBOR.decode TextDecoder_decode fracToString (1 + n) [0x19; 0x01]
  = Some (Ok (VNum (Int 256)))
  /\ CBOR.decode TextDecoder_decode fracToString (1 + n) [0x18]
     = Some (Ok VUndefined)
  /\ CBOR.decode TextDecoder_decode fracToString (1 + n) [0x1A; 0x01]
     = Some (Ok (VNum (Int 16777216)))
  /\ CBOR.decode TextDecoder_decode fracToString (1 + n)
                 [0x1B; 0x00; 0x00; 0x00; 0x01]
     = Some (Ok (VNum (Int 4294967296)))
  /\ CBOR.decode TextDecoder_decode fracToString (1 + n) [0xFB]
     = Some (Ok (VNum (Int 0)))
  /\ CBOR.decode TextDecoder_decode fracToString (1 + n) [0xFB; 0x3F; 0xF0]
     = Some (Ok (VNum (Int 1))).
Proof. repeat split. Qed.

End Platform.

End CBORProps.

(** ** CoAP *)

Module CoAPFacts.
Import JS JSFacts CoAP.

Lemma gt_test (x y : Z) :
  num_ltb (Int 0) (num_sub (Int y) (Int x)) = (x <? y).
Proof.
  cbn. destruct (Z.ltb_spec x y) as [H | H].
  - apply Z.ltb_lt. apply round53_pos. lia.
  - apply Z.ltb_ge.
    destruct (Z_lt_le_dec 0 (round53 (y + - x))) as [Hp | Hn];
      [apply (proj1 (round53_pos _)) in Hp; lia | assumption].
Qed.

Lemma insertSorted_perm (x : num * optionValue) (l : list (num * optionValue)) :
  Permutation (insertSorted x l) (x :: l).
Proof.
  induction l as [| y l IH]; cbn [insertSorted]; [reflexivity |].
  destruct (num_ltb _ _); [reflexivity |].
  rewrite IH. apply perm_swap.
Qed.

Lemma sortByNumber_perm (l : list (num * optionValue)) :
  Permutation (sortByNumber l) l.
Proof.
  unfold sortByNumber.
  enough (H : forall acc, Permutation (fold_left (fun a x => insertSorted x a) l acc)
                                      (acc ++ l)) by apply (H []).
  induction l as [| x l IH]; intros acc; cbn [fold_left].
  - rewrite app_nil_r. reflexivity.
  - rewrite IH. rewrite insertSorted_perm.
    apply Permutation_cons_app. reflexivity.
Qed.

Lemma insertSorted_sorted (x : num * optionValue) (l : list (num * optionValue)) :
  resolves x -> Forall resolves l ->
  StronglySorted numberLe l -> StronglySorted numberLe (insertSorted x l).
Proof.
  intros [nx Hx] Hl Hs.
  induction l as [| y l IH]; cbn [insertSorted].
  - constructor; constructor.
  - inversion Hl as [| ? ? [ny Hy] Hl']; subst.
    inversion Hs as [| ? ? Hs' Hall]; subst.
    rewrite Hx, Hy, gt_test.
    destruct (Z.ltb_spec nx ny) as [Hlt | Hge].
    + constructor; [assumption |].
      constructor.
      * unfold numberLe. rewrite Hx, Hy. cbn. lia.
      * eapply Forall_impl; [| exact Hall].
        intros b Hb. unfold numberLe in *. rewrite Hx, Hy in *. cbn in *. lia.
    + constructor; [apply IH; assumption |].
      eapply Permutation_Forall;
        [symmetry; apply insertSorted_perm |].
      constructor; [| assumption].
      unfold numberLe. rewrite Hx, Hy. cbn. lia.
Qed.

Lemma sortByNumber_sorted (l : list (num * optionValue)) :
  Forall resolves l -> StronglySorted numberLe (sortByNumber l).
Proof.
  unfold sortByNumber. intros Hl.
  enough (H : forall acc, Forall resolves acc -> StronglySorted numberLe acc ->
              StronglySorted numberLe (fold_left (fun a x => insertSorted x a) l acc)
              /\ Forall resolves (fold_left (fun a x => insertSorted x a) l acc))
    by (apply H; constructor).
  induction Hl as [| x l Hx Hl IH]; intros acc Hacc Hs; cbn [fold_left].
  - split; assumption.
  - apply IH.
    + eapply Permutation_Forall; [symmetry; apply insertSorted_perm |].
      constructor; assumption.
    + apply insertSorted_sorted; assumption.
Qed.

Lemma numbered_resolves (entries : list (jsstring * optionValue)) :
  Forall (fun e => exists n, getOptionNumber (fst e) = Int n) entries ->
  Forall resolves (numbered entries).
Proof.
  intros H. unfold numbered. apply Forall_map.
  eapply Forall_impl; [| exact H].
  intros [k v] [n Hn]. exists n. exact Hn.
Qed.

(** *** Facts about bytes, proved by enumeration *)

(** The header byte [(delta << 4) | length] of two nibbles below 15 is a
    byte other than 0xFF, and the decoder reads the nibbles back. *)
Lemma header_nibbles (d l : Z) :
  0 <= d < 15 -> 0 <= l < 15 ->
  let byte := bor (shl d 4) l in
  0 <= byte < 255
  /\ band (sar byte 4) 0x0F = d
  /\ band byte 0x0F = l.
Proof.
  intros Hd Hl.
  pose (P := fun d l : Z =>
               let byte := bor (shl d 4) l in
               (0 <=? byte) && (byte <? 255)
               && (band (sar byte 4) 0x0F =? d) && (band byte 0x0F =? l)).
  assert (H : P d l = true).
  { revert l Hl.
    apply (forall_below (fun l => P d l) 15).
    revert d Hd.
    apply (forall_below
             (fun d => forallb (fun l => P d l) (map Z.of_nat (seq 0 15))) 15).
    vm_compute. reflexivity. }
  unfold P in H. cbv zeta in H.
  repeat (apply andb_prop in H; destruct H as [H ?]).
  cbv zeta. lia.
Qed.

(** Byte 0 of a message and its three fields. *)
Lemma byte0_fields (type tokenLength : Z) :
  0 <= type < 4 -> 0 <= tokenLength < 16 ->
  let byte0 := bor (bor (shl 1 6) (shl type 4)) tokenLength in
  isByte byte0
  /\ band (sar byte0 6) 0x03 = 1
  /\ band (sar byte0 4) 0x03 = type
  /\ band byte0 0x0F = tokenLength.
Proof.
  intros Ht Hl.
  pose (P := fun t l : Z =>
               let byte0 := bor (bor (shl 1 6) (shl t 4)) l in
               (0 <=? byte0) && (byte0 <? 256)
               && (band (sar byte0 6) 0x03 =? 1)
               && (band (sar byte0 4) 0x03 =? t)
               && (band byte0 0x0F =? l)).
  assert (H : P type tokenLength = true).
  { revert tokenLength Hl.
    apply (forall_below (fun l => P type l) 16).
    revert type Ht.
    apply (forall_below
             (fun t => forallb (fun l => P t l) (map Z.of_nat (seq 0 16))) 4).
    vm_compute. reflexivity. }
  unfold P in H. cbv zeta in H.
  repeat (apply andb_prop in H; destruct H as [H ?]).
  cbv zeta. unfold isByte. lia.
Qed.

(** The class and detail of a code byte. *)
Lemma code_fields (code : Z) :
  0 <= code < 256 ->
  band (sar code 5) 0x07 = code / 32 /\ band code 0x1F = code mod 32.
Proof.
  intros Hc.
  pose (P := fun c : Z =>
               (band (sar c 5) 0x07 =? c / 32) && (band c 0x1F =? c mod 32)).
  assert (H : P code = true).
  { apply (forall_below P 256); [vm_compute; reflexivity | lia]. }
  unfold P in H. apply andb_prop in H. lia.
Qed.

(** *** Arrays *)

(** *** One option on the wire *)

Lemma lengthNibble_range (x : Z) : 0 <= x -> 0 <= lengthNibble x < 15.
Proof.
  intros Hx. unfold lengthNibble.
  destruct (Z.ltb_spec x 13); [lia |].
  destruct (Z.ltb_spec x 269); lia.
Qed.

Lemma num_sub_small (a b : Z) :
  Z.abs (a - b) < 2 ^ 53 -> num_sub (Int a) (Int b) = Int (a - b).
Proof.
  intros H. unfold num_sub, num_add.
  replace (a + - b) with (a - b) by lia.
  rewrite round53_small by exact H. reflexivity.
Qed.

Lemma num_add_small (a b : Z) :
  Z.abs (a + b) < 2 ^ 53 -> num_add (Int a) (Int b) = Int (a + b).
Proof.
  intros H. unfold num_add. rewrite round53_small by exact H. reflexivity.
Qed.

(** The bytes that [encodeOption] pushes: one header byte with the two
    nibbles, the extension of the delta, the extension of the length,
    the value. *)
Lemma encodeOption_shape (d : Z) (vb : list Z) :
  0 <= d <= 65804 ->
  encodeOption (Int d) vb
  = bor (shl (lengthNibble d) 4) (lengthNibble (len vb))
      :: extension d ++ extension (len vb) ++ vb.
Proof.
  intros Hd. unfold encodeOption, lengthNibble, extension.
  cbn [num_ltb intOf].
  rewrite !num_sub_small by (change (2 ^ 53) with 9007199254740992; lia).
  cbn [intOf].
  destruct (Z.ltb_spec d 13) as [Hd13 | Hd13];
    [| destruct (Z.ltb_spec d 269) as [Hd269 | Hd269]];
    (destruct (Z.ltb_spec (len vb) 13) as [Hl13 | Hl13];
     [| destruct (Z.ltb_spec (len vb) 269) as [Hl269 | Hl269]]);
    cbn [andb app];
    repeat match goal with
           | |- context [?a <=? ?b] => destruct (Z.leb_spec a b); try lia
           end;
    reflexivity.
Qed.

Lemma extension_bytes (x : Z) :
  0 <= x <= 65804 -> Forall isByte (extension x).
Proof.
  intros Hx. unfold extension.
  destruct (Z.ltb_spec x 13); [constructor |].
  destruct (Z.ltb_spec x 269).
  - constructor; [unfold isByte; lia | constructor].
  - destruct (two_bytes (x - 269)) as (H1 & H2 & _); [lia |].
    constructor; [assumption |].
    constructor; [assumption | constructor].
Qed.

Lemma encodeOption_bytes (d : Z) (vb : list Z) :
  0 <= d <= 65804 -> len vb <= 65804 -> Forall isByte vb ->
  Forall isByte (encodeOption (Int d) vb).
Proof.
  intros Hd Hl Hvb. rewrite encodeOption_shape by assumption.
  pose proof (len_nonneg vb).
  constructor.
  - destruct (header_nibbles (lengthNibble d) (lengthNibble (len vb)))
      as (Hb & _); try (apply lengthNibble_range; lia).
    unfold isByte. lia.
  - rewrite !Forall_app. repeat split;
      [apply extension_bytes; lia | apply extension_bytes; lia | assumption].
Qed.

(** Reading a nibble and its extension back. *)
Lemma extended_extension (bytes pre post : list Z) (x : Z) :
  0 <= x <= 65804 ->
  bytes = pre ++ extension x ++ post ->
  extended bytes (lengthNibble x) (len pre)
  = (Int x, len pre + len (extension x)).
Proof.
  intros Hx ->. unfold extended, lengthNibble, extension.
  destruct (Z.ltb_spec x 13) as [H13 | H13].
  - destruct (Z.eqb_spec x 13); [lia |].
    destruct (Z.eqb_spec x 14); [lia |].
    cbn. rewrite Z.add_0_r. reflexivity.
  - destruct (Z.ltb_spec x 269) as [H269 | H269].
    + cbn [Z.eqb Pos.eqb]. unfold ext1. cbn [app].
      rewrite get_app_head. f_equal. f_equal. lia.
    + cbn [Z.eqb Pos.eqb]. unfold ext2. cbn [app].
      rewrite get_app_head.
      rewrite (get_app_at pre _ 1) by lia.
      replace (get (sar (x - 269) 8 :: band (x - 269) 255 :: post) 1)
        with (Some (band (x - 269) 255)) by reflexivity.
      cbn [int_of].
      destruct (two_bytes (x - 269)) as (_ & _ & H & _); [lia |].
      rewrite <- Z.add_assoc, H. f_equal. f_equal. lia.
Qed.

(** The loop test succeeds at the header byte of an encoded option. *)
Lemma loopTest_encoded (pre post vb : list Z) (d : Z) :
  0 <= d <= 65804 ->
  loopTest (pre ++ encodeOption (Int d) vb ++ post) (Int (len pre)) = true.
Proof.
  intros Hd. rewrite encodeOption_shape by assumption.
  pose proof (len_nonneg vb) as Hvb.
  destruct (header_nibbles (lengthNibble d) (lengthNibble (len vb)))
    as (Hb & _); try (apply lengthNibble_range; lia).
  cbv zeta in Hb.
  unfold loopTest. cbn [app].
  set (r := (extension d ++ extension (len vb) ++ vb) ++ post).
  rewrite get_app_head, len_app, len_cons.
  pose proof (len_nonneg r).
  destruct (Z.ltb_spec (len pre) (len pre + (1 + len r))); [| lia].
  destruct (Z.eqb_spec
              (bor (shl (lengthNibble d) 4) (lengthNibble (len vb))) 255);
    [lia | reflexivity].
Qed.

(** One iteration of the decoder loop on one encoded option. *)
Lemma loopBody_encoded (pre post vb : list Z) (d cur : Z) :
  0 <= d <= 65804 -> len vb <= 65804 ->
  0 <= cur -> cur + d < 2 ^ 53 ->
  arrayLength (pre ++ encodeOption (Int d) vb ++ post) ->
  loopBody (pre ++ encodeOption (Int d) vb ++ post) (len pre) (Int cur)
  = Continue (Int (cur + d)) vb
             (Int (len pre + len (encodeOption (Int d) vb))).
Proof.
  intros Hd Hl Hcur Hsum Hlen.
  pose proof (len_nonneg vb) as Hvb.
  pose proof (len_nonneg pre) as Hpre.
  rewrite encodeOption_shape in * by assumption.
  set (h0 := bor (shl (lengthNibble d) 4) (lengthNibble (len vb))) in *.
  set (ed := extension d) in *.
  set (el := extension (len vb)) in *.
  set (bytes := pre ++ (h0 :: ed ++ el ++ vb) ++ post) in *.
  destruct (header_nibbles (lengthNibble d) (lengthNibble (len vb)))
    as (Hb & Hdn & Hln); try (apply lengthNibble_range; lia).
  cbv zeta in Hb, Hdn, Hln. fold h0 in Hb, Hdn, Hln.
  pose proof (lengthNibble_range d ltac:(lia)) as Hnd.
  pose proof (lengthNibble_range (len vb) Hvb) as Hnl.
  assert (Hget : get bytes (len pre) = Some h0)
    by (unfold bytes; cbn [app]; apply get_app_head).
  assert (E1 : bytes = (pre ++ [h0]) ++ ed ++ (el ++ vb ++ post)).
  { unfold bytes. cbn [app]. rewrite <- !app_assoc. reflexivity. }
  assert (E2 : bytes = ((pre ++ [h0]) ++ ed) ++ el ++ (vb ++ post)).
  { rewrite E1. rewrite <- !app_assoc. reflexivity. }
  assert (E3 : bytes = (((pre ++ [h0]) ++ ed) ++ el) ++ vb ++ post).
  { rewrite E2. rewrite <- !app_assoc. reflexivity. }
  assert (L1 : len (pre ++ [h0]) = len pre + 1)
    by (rewrite len_app; reflexivity).
  unfold loopBody.
  rewrite Hget. cbn [int_of]. rewrite Hdn, Hln.
  destruct (Z.eqb_spec (lengthNibble d) 15) as [E | _]; [lia |].
  rewrite <- L1.
  rewrite (extended_extension bytes (pre ++ [h0]) (el ++ vb ++ post) d Hd E1).
  cbv beta iota. fold ed.
  destruct (Z.eqb_spec (lengthNibble (len vb)) 15) as [E | _]; [lia |].
  rewrite <- (len_app (pre ++ [h0]) ed).
  rewrite (extended_extension bytes ((pre ++ [h0]) ++ ed) (vb ++ post)
                              (len vb) ltac:(lia) E2).
  cbv beta iota. fold el.
  rewrite <- (len_app ((pre ++ [h0]) ++ ed) el).
  set (a := ((pre ++ [h0]) ++ ed) ++ el) in *.
  assert (Hbound : len a + len vb < 2 ^ 53).
  { unfold arrayLength in Hlen. rewrite E3, !len_app in Hlen.
    pose proof (len_nonneg post). lia. }
  pose proof (len_nonneg a) as Ha.
  rewrite !num_add_small by lia.
  unfold slice_num. rewrite E3, slice_app_mid.
  f_equal. f_equal.
  unfold a. rewrite !len_app, !len_cons, !len_app.
  fold ed el. change (len []) with 0. lia.
Qed.

Lemma encodeOption_nonempty (d : num) (vb : list Z) :
  (1 <= length (encodeOption d vb))%nat.
Proof.
  unfold encodeOption.
  repeat match goal with
         | |- context [if ?c then _ else _] => destruct c
         end;
    cbn [length app]; lia.
Qed.

Lemma encodeSorted_length (l : list (num * optionValue)) (cur : num) :
  (length l <= length (encodeSorted cur l))%nat.
Proof.
  revert cur. induction l as [| [n v] l IH]; intros cur; cbn; [lia |].
  rewrite length_app.
  pose proof (encodeOption_nonempty (num_sub n cur) (valueBytes v)).
  specialize (IH n). lia.
Qed.

(** The decoder loop on a sorted sequence of encoded options: it stores
    every option, in order, and stops behind the last one, at the end
    of the buffer or at the payload marker. *)
Lemma parse_encoded (l : list (num * optionValue)) :
  forall (fuel : nat) (pre post : list Z) (cur : Z)
         (opts : list (jsstring * list (list Z))),
    (length l <= fuel)%nat ->
    Forall wireOption l ->
    StronglySorted numberLe l ->
    0 <= cur <= 65535 ->
    Forall (fun p => cur <= intOf (fst p)) l ->
    post = [] \/ (exists p, post = 0xFF :: p) ->
    arrayLength (pre ++ encodeSorted (Int cur) l ++ post) ->
    parseOptionsLoop fuel (pre ++ encodeSorted (Int cur) l ++ post)
                     (Int (len pre)) (Int cur) opts
    = (storeAll l opts, Int (len pre + len (encodeSorted (Int cur) l))).
Proof.
  induction l as [| [num v] l IH];
    intros fuel pre post cur opts Hfuel Hwf Hsorted Hcur Hge Hpost Hlen.
  - cbn [encodeSorted app storeAll fold_left].
    change (len []) with 0. rewrite Z.add_0_r.
    destruct fuel as [| fuel]; [reflexivity |].
    cbn [parseOptionsLoop].
    replace (loopTest (pre ++ post) (Int (len pre))) with false;
      [reflexivity |].
    unfold loopTest.
    destruct Hpost as [-> | [p ->]].
    + rewrite app_nil_r.
      destruct (Z.ltb_spec (len pre) (len pre)); [lia | reflexivity].
    + rewrite get_app_head. cbn. symmetry. apply andb_false_r.
  - inversion Hwf as [| ? ? Hw Hwf']; subst.
    destruct Hw as ((n & Hn & Hrange) & Hvlen & Hvbytes).
    cbn [fst snd] in Hn, Hvlen, Hvbytes. subst num.
    inversion Hsorted as [| ? ? Hsorted' Hall]; subst.
    inversion Hge as [| ? ? Hge1 Hge']; subst.
    cbn [fst intOf] in Hge1.
    destruct fuel as [| fuel]; [cbn in Hfuel; lia |].
    cbn [length] in Hfuel.
    cbn [encodeSorted] in *.
    rewrite num_sub_small in *
      by (change (2 ^ 53) with 9007199254740992; lia).
    set (vb := valueBytes v) in *.
    set (enc1 := encodeOption (Int (n - cur)) vb) in *.
    set (rest := encodeSorted (Int n) l) in *.
    assert (E : pre ++ (enc1 ++ rest) ++ post
                = pre ++ enc1 ++ (rest ++ post))
      by (rewrite <- !app_assoc; reflexivity).
    assert (E' : pre ++ (enc1 ++ rest) ++ post
                 = (pre ++ enc1) ++ rest ++ post)
      by (rewrite <- !app_assoc; reflexivity).
    cbn [parseOptionsLoop].
    rewrite E.
    pose proof (loopTest_encoded pre (rest ++ post) vb (n - cur)
                  ltac:(lia)) as Htest.
    fold enc1 in Htest. rewrite Htest.
    cbn [intOf].
    assert (H53 : cur + (n - cur) < 2 ^ 53)
      by (change (2 ^ 53) with 9007199254740992; lia).
    assert (Hlen1 : arrayLength (pre ++ enc1 ++ rest ++ post))
      by (rewrite <- E; exact Hlen).
    pose proof (loopBody_encoded pre (rest ++ post) vb (n - cur) cur
                  ltac:(lia) Hvlen ltac:(lia) H53 Hlen1) as Hbody.
    fold enc1 in Hbody. rewrite Hbody.
    replace (cur + (n - cur)) with n by lia.
    rewrite <- len_app.
    rewrite <- E, E'.
    assert (Hge2 : Forall (fun p => n <= intOf (fst p)) l).
    { eapply Forall_impl; [| exact Hall].
      intros p Hp. unfold numberLe in Hp. cbn [fst intOf] in Hp. exact Hp. }
    assert (Hlen2 : arrayLength ((pre ++ enc1) ++ rest ++ post))
      by (rewrite <- E'; exact Hlen).
    rewrite (IH fuel (pre ++ enc1) post n _ ltac:(lia) Hwf' Hsorted'
                Hrange Hge2 Hpost Hlen2).
    cbn [storeAll fold_left fst snd]. fold vb.
    f_equal. f_equal. rewrite !len_app. fold rest. lia.
Qed.

(** *** Sorting a sorted sequence *)

Lemma numberLe_trans : Relations_1.Transitive numberLe.
Proof. intros a b c. unfold numberLe. lia. Qed.

Lemma insertSorted_last (x : num * optionValue)
      (acc : list (num * optionValue)) :
  resolves x -> Forall resolves acc ->
  Forall (fun y => numberLe y x) acc ->
  insertSorted x acc = acc ++ [x].
Proof.
  intros [nx Hx] Hacc Hle.
  induction acc as [| y acc IH]; [reflexivity |].
  inversion Hacc as [| ? ? [ny Hy] Hacc']; subst.
  inversion Hle as [| ? ? Hyx Hle']; subst.
  cbn [insertSorted app]. rewrite Hx, Hy, gt_test.
  unfold numberLe in Hyx. rewrite Hx, Hy in Hyx. cbn [intOf] in Hyx.
  destruct (Z.ltb_spec nx ny); [lia |].
  rewrite IH by assumption. reflexivity.
Qed.

Lemma sortByNumber_sorted_id (l : list (num * optionValue)) :
  Forall resolves l -> StronglySorted numberLe l -> sortByNumber l = l.
Proof.
  unfold sortByNumber. intros Hres Hs.
  enough (H : forall acc,
             Forall resolves (acc ++ l) ->
             StronglySorted numberLe (acc ++ l) ->
             fold_left (fun a x => insertSorted x a) l acc = acc ++ l)
    by (apply (H []); assumption).
  clear Hres Hs.
  induction l as [| x l IH]; intros acc Hres Hs; cbn [fold_left].
  - rewrite app_nil_r. reflexivity.
  - assert (Hx : resolves x) by (eapply Forall_elt; exact Hres).
    assert (Hacc : Forall resolves acc)
      by (apply Forall_app in Hres; tauto).
    assert (Hle : Forall (fun y => numberLe y x) acc).
    { clear IH Hres Hacc Hx.
      induction acc as [| y acc IHacc]; [constructor |].
      cbn [app] in Hs.
      inversion Hs as [| ? ? Hs' Hall]; subst.
      constructor; [eapply Forall_elt; exact Hall | apply IHacc; exact Hs']. }
    rewrite insertSorted_last by assumption.
    rewrite IH; rewrite <- app_assoc; [reflexivity | exact Hres | exact Hs].
Qed.

Lemma wireOption_resolves (l : list (num * optionValue)) :
  Forall wireOption l -> Forall resolves l.
Proof.
  intros H. eapply Forall_impl; [| exact H].
  intros p ((n & Hn & _) & _). exists n. exact Hn.
Qed.

(** *** A whole message *)

Lemma encodeSorted_bytes (l : list (num * optionValue)) :
  forall cur,
    Forall wireOption l -> StronglySorted numberLe l ->
    0 <= cur <= 65535 -> Forall (fun p => cur <= intOf (fst p)) l ->
    Forall isByte (encodeSorted (Int cur) l).
Proof.
  induction l as [| [num v] l IH]; intros cur Hwf Hs Hcur Hge;
    [constructor |].
  inversion Hwf as [| ? ? Hw Hwf']; subst.
  destruct Hw as ((n & Hn & Hrange) & Hvlen & Hvbytes).
  cbn [fst snd] in Hn, Hvlen, Hvbytes. subst num.
  inversion Hs as [| ? ? Hs' Hall]; subst.
  inversion Hge as [| ? ? Hge1 Hge']; subst.
  cbn [fst intOf] in Hge1.
  cbn [encodeSorted].
  rewrite num_sub_small by (change (2 ^ 53) with 9007199254740992; lia).
  apply Forall_app. split.
  - apply encodeOption_bytes; [lia | assumption | assumption].
  - apply IH; [exact Hwf' | exact Hs' | exact Hrange | exact Hall].
Qed.


Section Message.
Variables (messageId : Z) (token : list Z) (type code : Z).
Variable entries : list (jsstring * optionValue).
Variable payload : option payloadValue.

Hypothesis Htype : 0 <= type < 4.
Hypothesis Hcode : 0 <= code < 256.
Hypothesis Hid : 0 <= messageId < 65536.
Hypothesis Htoken : len token <= 8.
Hypothesis Htokenbytes : Forall isByte token.
Hypothesis Hwire : Forall wireOption (numbered entries).
Hypothesis Hsorted : Sorted numberLe (numbered entries).
Hypothesis Hpayload :
  forall p, payload = Some p -> Forall isByte (payloadBytes p).

Lemma sortedOptions_sorted_id : sortedOptions entries = numbered entries.
Proof.
  unfold sortedOptions. apply sortByNumber_sorted_id.
  - apply wireOption_resolves, Hwire.
  - apply Sorted_StronglySorted; [exact numberLe_trans | exact Hsorted].
Qed.

Lemma payloadPart_bytes : Forall isByte (payloadPart payload).
Proof.
  unfold payloadPart. destruct payload as [p |]; [| constructor].
  destruct (truthy (Some p)); [| constructor].
  constructor; [unfold isByte; lia | apply Hpayload; reflexivity].
Qed.

(** The bytes of the message: header, token, options, payload part. *)
Lemma buildMessage_shape :
  buildMessage messageId token type code entries payload
  = [bor (bor (shl 1 6) (shl type 4)) (len token); code;
     band (sar messageId 8) 0xFF; band messageId 0xFF]
      ++ token ++ encodeSorted (Int 0) (numbered entries)
      ++ payloadPart payload.
Proof.
  pose proof (len_nonneg token) as Hlt.
  assert (Hss : StronglySorted numberLe (numbered entries))
    by (apply Sorted_StronglySorted;
        [exact numberLe_trans | exact Hsorted]).
  assert (Hge : Forall (fun p => 0 <= intOf (fst p)) (numbered entries)).
  { eapply Forall_impl; [| exact Hwire].
    intros p ((n & Hn & Hr) & _). rewrite Hn. cbn. lia. }
  unfold buildMessage. cbv zeta.
  rewrite !append_if_nonempty.
  unfold encodeOptions. rewrite sortedOptions_sorted_id.
  set (enc := encodeSorted (Int 0) (numbered entries)).
  set (hdr := [_; _; _; _]).
  assert (Hmsg : match payload with
                 | Some p =>
                     if truthy payload
                     then ((hdr ++ token) ++ enc) ++ [255] ++ payloadBytes p
                     else (hdr ++ token) ++ enc
                 | None => (hdr ++ token) ++ enc
                 end = hdr ++ token ++ enc ++ payloadPart payload).
  { unfold payloadPart. destruct payload as [p |].
    - destruct (truthy (Some p)); rewrite <- !app_assoc;
        [reflexivity | rewrite app_nil_r; reflexivity].
    - rewrite <- !app_assoc, app_nil_r. reflexivity. }
  rewrite Hmsg.
  apply Uint8Array_from_bytes.
  destruct (byte0_fields type (len token)) as (Hb0 & _); [lia | lia |].
  destruct (two_bytes messageId Hid) as (_ & Hm2 & _).
  assert (Hm1 : isByte (band (sar messageId 8) 0xFF)).
  { destruct (two_bytes messageId Hid) as (H1 & _).
    unfold isByte in *.
    pose proof (band_ones (sar messageId 8) 8 ltac:(lia) ltac:(lia))
      as Hb.
    change (Z.ones 8) with 255 in Hb. rewrite Hb.
    apply Z.mod_pos_bound. lia. }
  unfold hdr.
  repeat (apply Forall_cons; [assumption || (unfold isByte; lia) |]).
  cbn [app].
  rewrite !Forall_app. repeat split.
  - exact Htokenbytes.
  - apply encodeSorted_bytes; try assumption; lia.
  - exact payloadPart_bytes.
Qed.

(** Decoding the encoded message gives the message back. *)
Lemma parse_build :
  arrayLength (buildMessage messageId token type code entries payload) ->
  parseMessage (buildMessage messageId token type code entries payload)
  = messageOf messageId token type code entries payload.
Proof.
  intros Hlen.
  assert (Hbytes : Forall isByte
            (buildMessage messageId token type code entries payload)).
  { unfold buildMessage, Uint8Array_from. apply Forall_map.
    apply Forall_forall. intros x _. unfold isByte.
    apply Z.mod_pos_bound. lia. }
  rewrite buildMessage_shape in *.
  pose proof (len_nonneg token) as Hlt.
  destruct (byte0_fields type (len token)) as (_ & Hv & Ht & Hl);
    [lia | lia |].
  cbv zeta in Hv, Ht, Hl.
  destruct (code_fields code Hcode) as (Hcc & Hcd).
  destruct (two_bytes messageId Hid) as (_ & _ & _ & Hmid).
  set (b0 := bor (bor (shl 1 6) (shl type 4)) (len token)) in *.
  set (m1 := band (sar messageId 8) 0xFF) in *.
  set (m2 := band messageId 0xFF) in *.
  set (l := numbered entries) in *.
  set (enc := encodeSorted (Int 0) l) in *.
  set (pl := payloadPart payload) in *.
  set (hdr := [b0; code; m1; m2]) in *.
  set (bytes := hdr ++ token ++ enc ++ pl) in *.
  assert (Ehdr : bytes = hdr ++ token ++ (enc ++ pl)) by reflexivity.
  assert (Epre : bytes = (hdr ++ token) ++ enc ++ pl)
    by (unfold bytes; rewrite <- !app_assoc; reflexivity).
  assert (Lpre : len (hdr ++ token) = 4 + len token)
    by (rewrite len_app; reflexivity).
  assert (G0 : get bytes 0 = Some b0) by reflexivity.
  assert (G1 : get bytes 1 = Some code) by reflexivity.
  assert (G2 : get bytes 2 = Some m1) by reflexivity.
  assert (G3 : get bytes 3 = Some m2) by reflexivity.
  (* the token *)
  assert (Htok : (if 0 <? len token
                  then slice bytes 4 (4 + len token) else []) = token).
  { destruct (Z.ltb_spec 0 (len token)) as [Hpos | Hzero].
    - rewrite Ehdr. apply (slice_app_mid hdr token (enc ++ pl)).
    - destruct token; [reflexivity |].
      rewrite len_cons in Hzero. pose proof (len_nonneg l0). lia. }
  (* the options *)
  assert (Hopts : parseOptions bytes (4 + len token)
                  = (storeAll l [], Int (len (hdr ++ token) + len enc))).
  { unfold parseOptions. rewrite <- Lpre.
    rewrite Epre at 2.
    apply parse_encoded.
    - rewrite Epre, !length_app.
      pose proof (encodeSorted_length l (Int 0)). fold enc in H. lia.
    - exact Hwire.
    - apply Sorted_StronglySorted; [exact numberLe_trans | exact Hsorted].
    - lia.
    - eapply Forall_impl; [| exact Hwire].
      intros p ((n & Hn & Hr) & _). rewrite Hn. cbn. lia.
    - unfold pl, payloadPart. destruct payload as [p |]; [| left; reflexivity].
      destruct (truthy (Some p)); [right; eexists | left]; reflexivity.
    - rewrite Epre in Hlen. exact Hlen. }
  (* the payload *)
  set (off := len (hdr ++ token) + len enc) in *.
  assert (Hpl : (if (off <? len bytes)
                    && match get bytes off with
                       | Some b => b =? 255
                       | None => false
                       end
                 then Some (slice_from bytes (off + 1)) else None)
                = (if truthy payload
                   then option_map payloadBytes payload else None)).
  { assert (Eoff : off = len ((hdr ++ token) ++ enc))
      by (unfold off; rewrite (len_app (hdr ++ token) enc); reflexivity).
    assert (Ebytes : bytes = ((hdr ++ token) ++ enc) ++ pl)
      by (rewrite Epre, <- !app_assoc; reflexivity).
    unfold pl, payloadPart in Ebytes.
    destruct payload as [p |] eqn:Ep.
    - destruct (truthy (Some p)) eqn:Etr.
      + rewrite Ebytes, Eoff, get_app_head, Z.eqb_refl.
        rewrite (len_app ((hdr ++ token) ++ enc) (255 :: payloadBytes p)).
        rewrite len_cons.
        pose proof (len_nonneg (payloadBytes p)).
        match goal with
        | |- context [?a <? ?b] => destruct (Z.ltb_spec a b); [| lia]
        end.
        cbn [andb option_map]. f_equal.
        replace (len ((hdr ++ token) ++ enc) + 1)
          with (len (((hdr ++ token) ++ enc) ++ [255]))
          by (rewrite (len_app _ [255]); reflexivity).
        replace (((hdr ++ token) ++ enc) ++ 255 :: payloadBytes p)
          with ((((hdr ++ token) ++ enc) ++ [255]) ++ payloadBytes p)
          by (rewrite <- (app_assoc _ [255]); reflexivity).
        apply slice_from_app.
      + rewrite app_nil_r in Ebytes. rewrite Ebytes, Eoff.
        destruct (Z.ltb_spec (len ((hdr ++ token) ++ enc))
                             (len ((hdr ++ token) ++ enc))); [lia |].
        reflexivity.
    - rewrite app_nil_r in Ebytes. rewrite Ebytes, Eoff.
      destruct (Z.ltb_spec (len ((hdr ++ token) ++ enc))
                           (len ((hdr ++ token) ++ enc))); [lia |].
      reflexivity. }
  unfold parseMessage, messageOf.
  rewrite (Uint8Array_from_bytes bytes Hbytes).
  cbv zeta.
  rewrite G0, G1, G2, G3. cbn [int_of].
  rewrite Hv, Ht, Hl, Hcc, Hcd.
  replace (bor (shl m1 8) m2) with messageId by (symmetry; exact Hmid).
  rewrite Htok, Hopts. cbv beta iota.
  rewrite Hpl. reflexivity.
Qed.

End Message.

(** *** The bound on the iterations of the decoder loop *)

(** The value read for a nibble is NaN or a non-negative integer, and the
    offset moves by at most two. *)
Lemma extended_progress (bytes : list Z) (nibble off : Z) :
  Forall isByte bytes -> 0 <= nibble ->
  off <= snd (extended bytes nibble off) <= off + 2
  /\ (fst (extended bytes nibble off) = NaN
      \/ exists l, fst (extended bytes nibble off) = Int l /\ 0 <= l).
Proof.
  intros Hb Hn. unfold extended.
  destruct (nibble =? 13); [| destruct (nibble =? 14)]; cbn [fst snd].
  - split; [lia |]. unfold ext1.
    destruct (get bytes off) as [b |] eqn:Hg; [| left; reflexivity].
    right. exists (13 + b). split; [reflexivity |].
    apply (get_isByte _ _ _ Hb) in Hg. unfold isByte in Hg. lia.
  - split; [lia |]. unfold ext2.
    destruct (get bytes (off + 1)) as [b |] eqn:Hg; [| left; reflexivity].
    right. eexists. split; [reflexivity |].
    apply (get_isByte _ _ _ Hb) in Hg. unfold isByte in Hg.
    assert (Hx : isByte (int_of (get bytes off))).
    { destruct (get bytes off) as [x |] eqn:Hgx; cbn [int_of].
      - apply (get_isByte _ _ _ Hb Hgx).
      - unfold isByte. lia. }
    unfold isByte in Hx.
    rewrite shl_small by (change (2 ^ 8) with 256; lia).
    change (2 ^ 8) with 256. lia.
  - split; [lia |]. right. exists nibble. split; [reflexivity | exact Hn].
Qed.

Lemma band_nonneg (a : Z) : 0 <= band a 0x0F.
Proof. unfold band. apply Z.land_nonneg. right. cbn. lia. Qed.

(** An iteration that continues moves the offset forward, or beyond the
    buffer, or to NaN. *)
Lemma loopBody_progress (bytes : list Z) (off : Z) (cur c : num)
      (v : list Z) (o : num) :
  Forall isByte bytes -> arrayLength bytes -> 0 <= off < len bytes ->
  loopBody bytes off cur = Continue c v o ->
  match o with
  | Int o' => off + 1 <= o' \/ len bytes <= o'
  | _ => True
  end.
Proof.
  intros Hb Hlen Hoff. unfold loopBody.
  set (byte := int_of (get bytes off)).
  destruct (band (sar byte 4) 15 =? 15); [discriminate |].
  pose proof (extended_progress bytes (band (sar byte 4) 15) (off + 1) Hb
                (band_nonneg _)) as (Hd1 & _).
  destruct (extended bytes (band (sar byte 4) 15) (off + 1)) as [delta off1].
  cbn [fst snd] in Hd1.
  destruct (band byte 15 =? 15); [discriminate |].
  pose proof (extended_progress bytes (band byte 15) off1 Hb (band_nonneg _))
    as (Hl1 & Hl2).
  destruct (extended bytes (band byte 15) off1) as [length off2].
  cbn [fst snd] in Hl1, Hl2.
  intros H. injection H as _ _ <-.
  destruct Hl2 as [-> | (l & -> & Hl)]; [exact I |].
  cbn [num_add]. unfold arrayLength in Hlen.
  destruct (Z_lt_le_dec (off2 + l) (2 ^ 53)) as [Hsmall | Hbig].
  - rewrite round53_small by lia. left. lia.
  - right. pose proof (round53_big _ Hbig). lia.
Qed.

Lemma loop_stops (fuel : nat) (bytes : list Z) (offset cur : num)
      (opts : list (jsstring * list (list Z))) :
  loopTest bytes offset = false ->
  parseOptionsLoop fuel bytes offset cur opts = (opts, offset).
Proof.
  intros H. destruct fuel; cbn [parseOptionsLoop]; [| rewrite H]; reflexivity.
Qed.

(** The loop of [parseOptions] ends by its own test: fuel beyond the length
    of the buffer is never used. *)
Lemma parseOptionsLoop_fuel (bytes : list Z) :
  Forall isByte bytes -> arrayLength bytes ->
  forall (fuel : nat) (off : Z) (cur : num)
         (opts : list (jsstring * list (list Z))) (k : nat),
    0 <= off -> len bytes - off <= Z.of_nat fuel ->
    parseOptionsLoop (fuel + k) bytes (Int off) cur opts
    = parseOptionsLoop fuel bytes (Int off) cur opts.
Proof.
  intros Hb Hlen.
  induction fuel as [| fuel IH]; intros off cur opts k Hoff Hfuel.
  - rewrite !loop_stops; [reflexivity | |];
      (unfold loopTest;
       destruct (Z.ltb_spec off (len bytes)); [lia | reflexivity]).
  - cbn [Nat.add parseOptionsLoop].
    destruct (loopTest bytes (Int off)) eqn:Htest; [| reflexivity].
    cbn [intOf].
    assert (Hin : 0 <= off < len bytes).
    { unfold loopTest in Htest. apply andb_prop in Htest.
      destruct Htest as [Hlt _]. apply Z.ltb_lt in Hlt. lia. }
    destruct (loopBody bytes off cur) as [off' | c v o] eqn:Hbody;
      [reflexivity |].
    pose proof (loopBody_progress bytes off cur c v o Hb Hlen Hin Hbody)
      as Hprog.
    destruct o as [o' | |];
      try (rewrite !loop_stops; reflexivity).
    destruct (Z_lt_le_dec o' (len bytes)) as [Hlt | Hge].
    + apply IH; lia.
    + rewrite !loop_stops; [reflexivity | |];
        (unfold loopTest;
         destruct (Z.ltb_spec o' (len bytes)); [lia | reflexivity]).
Qed.

(** *** Option names *)

Lemma jsstring_eqb_eq (a b : jsstring) : jsstring_eqb a b = true <-> a = b.
Proof.
  revert b. induction a as [| x a IH]; intros [| y b]; cbn;
    try (split; [discriminate | discriminate]); [tauto |].
  rewrite andb_true_iff, Z.eqb_eq, IH.
  split; [intros [-> ->]; reflexivity | intros H; injection H; tauto].
Qed.

Lemma dec_chars_inj (a b : Decimal.uint) : dec_chars a = dec_chars b -> a = b.
Proof.
  revert b.
  induction a as [| a IH | a IH | a IH | a IH | a IH | a IH | a IH | a IH
                  | a IH | a IH];
    intros [| b | b | b | b | b | b | b | b | b | b] H;
    cbn in H; try discriminate H; try reflexivity;
    injection H as H; f_equal; apply IH; exact H.
Qed.

Lemma decimal_inj (n m : Z) :
  0 <= n -> 0 <= m -> decimal n = decimal m -> n = m.
Proof.
  intros Hn Hm. unfold decimal.
  destruct (Z.ltb_spec n 0); [lia |].
  destruct (Z.ltb_spec m 0); [lia |].
  intros Hd. apply dec_chars_inj, Unsigned.to_uint_inj in Hd.
  apply (f_equal Z.of_N) in Hd. rewrite !Z2N.id in Hd by assumption. exact Hd.
Qed.

(** Different option numbers have different names. *)
Lemma getOptionName_inj (n m : Z) :
  0 <= n -> 0 <= m ->
  getOptionName (Int n) = getOptionName (Int m) -> n = m.
Proof.
  intros Hn Hm. unfold getOptionName, reverseMap, lookupZ.
  repeat match goal with
         | |- context [?a =? ?b] => destruct (Z.eqb_spec a b); try subst
         end;
    intros Hname; try reflexivity; try lia;
    try (apply jsstring_eqb_eq in Hname; cbv in Hname; discriminate Hname);
    try (apply (f_equal (fun s => hd 0 s)) in Hname; cbn in Hname;
         discriminate Hname).
  apply app_inv_head in Hname. apply decimal_inj; assumption.
Qed.

Lemma storeOption_fresh (opts : list (jsstring * list (list Z)))
      (name : jsstring) (v : list Z) :
  ~ In name (map fst opts) -> storeOption opts name v = opts ++ [(name, [v])].
Proof.
  induction opts as [| [k vs] opts IH]; intros Hnot; [reflexivity |].
  cbn [storeOption app].
  destruct (jsstring_eqb k name) eqn:E.
  - apply jsstring_eqb_eq in E. exfalso. apply Hnot. left. exact E.
  - rewrite IH; [reflexivity |]. intros Hin. apply Hnot. right. exact Hin.
Qed.

Lemma storeAll_distinct (l : list (num * optionValue)) :
  forall acc,
    NoDup (map fst acc ++ map (fun p => getOptionName (fst p)) l) ->
    storeAll l acc = acc ++ singleOptions l.
Proof.
  induction l as [| p l IH]; intros acc Hnd; cbn [storeAll fold_left].
  - cbn. rewrite app_nil_r. reflexivity.
  - cbn [map] in Hnd.
    rewrite storeOption_fresh.
    + fold (storeAll l (acc ++ [(getOptionName (fst p), [valueBytes (snd p)])])).
      rewrite IH.
      * rewrite <- app_assoc. reflexivity.
      * rewrite map_app. cbn [map fst]. rewrite <- app_assoc. exact Hnd.
    + apply NoDup_remove_2 in Hnd. intros Hin. apply Hnd.
      apply in_or_app. left. exact Hin.
Qed.

(** With strictly ascending numbers every option is stored on its own. *)
Lemma storeAll_single (l : list (num * optionValue)) :
  Forall wireOption l -> StronglySorted numberLt l ->
  storeAll l [] = singleOptions l.
Proof.
  intros Hw Hs. rewrite storeAll_distinct; [reflexivity |].
  cbn [map app].
  induction Hs as [| p l Hs IH Hall]; cbn [map]; [constructor |].
  inversion Hw as [| ? ? Hp Hw']; subst.
  constructor; [| apply IH; exact Hw'].
  intros Hin. apply in_map_iff in Hin. destruct Hin as (q & Hq & Hin).
  rewrite Forall_forall in Hall, Hw'.
  specialize (Hall q Hin). specialize (Hw' q Hin).
  destruct Hp as ((n & Hn & Hnr) & _).
  destruct Hw' as ((m & Hm & Hmr) & _).
  unfold numberLt in Hall. rewrite Hn, Hm in *. cbn [intOf] in Hall.
  apply getOptionName_inj in Hq; lia.
Qed.

(** *** Bytes of an encoded string *)

Lemma low6 (y : Z) : isByte (Z.lor 0x80 (Z.land y 0x3F)).
Proof.
  change 0x3F with (Z.ones 6). rewrite Z.land_ones by lia.
  apply (lor_bound 2 _ 6); try lia.
  apply Z.mod_pos_bound. lia.
Qed.

Lemma TextEncoder_encode_bytes (s : jsstring) :
  Forall (fun c => 0 <= c < 65536) s -> Forall isByte (TextEncoder_encode s).
Proof.
  remember (length s) as n eqn:Hn.
  assert (Hle : (length s <= n)%nat) by lia. clear Hn.
  revert s Hle.
  induction n as [| n IH]; intros s Hle Hs.
  - destruct s; [constructor | cbn in Hle; lia].
  - destruct s as [| c rest]; [constructor |].
    inversion Hs as [| ? ? Hc Hrest]; subst.
    cbn [length] in Hle.
    assert (IHrest : Forall isByte (TextEncoder_encode rest))
      by (apply IH; [lia | exact Hrest]).
    assert (Hthree : Forall isByte (0xEF :: 0xBF :: 0xBD
                                      :: TextEncoder_encode rest)).
    { repeat (apply Forall_cons; [unfold isByte; lia |]). exact IHrest. }
    cbn [TextEncoder_encode].
    destruct (Z.ltb_spec c 0x80); [constructor; [unfold isByte; lia | exact IHrest] |].
    destruct (Z.ltb_spec c 0x800).
    { apply Forall_cons; [| apply Forall_cons; [apply low6 | exact IHrest]].
      apply (lor_bound 3 _ 6); try lia.
      rewrite Z.shiftr_div_pow2 by lia. change (2 ^ 6) with 64.
      Z.div_mod_to_equations. lia. }
    destruct ((0xD800 <=? c) && (c <=? 0xDBFF)) eqn:Hhigh.
    { apply andb_prop in Hhigh. destruct Hhigh as [H1 H2].
      apply Z.leb_le in H1, H2.
      destruct rest as [| d rest'];
        [repeat (apply Forall_cons; [unfold isByte; lia |]); constructor |].
      destruct ((0xDC00 <=? d) && (d <=? 0xDFFF)) eqn:Hlow; [| exact Hthree].
      apply andb_prop in Hlow. destruct Hlow as [H3 H4].
      apply Z.leb_le in H3, H4.
      inversion Hrest as [| ? ? Hd Hrest']; subst.
      cbn [length] in Hle.
      apply Forall_cons;
        [| apply Forall_cons; [apply low6 |];
           apply Forall_cons; [apply low6 |];
           apply Forall_cons; [apply low6 |];
           apply IH; [lia | exact Hrest']].
      apply (lor_bound 15 _ 4); try lia.
      rewrite Z.shiftr_div_pow2 by lia. change (2 ^ 18) with 262144.
      change (2 ^ 4) with 16. Z.div_mod_to_equations. lia. }
    destruct ((0xDC00 <=? c) && (c <=? 0xDFFF)); [exact Hthree |].
    apply Forall_cons;
      [| apply Forall_cons; [apply low6 |];
         apply Forall_cons; [apply low6 | exact IHrest]].
    apply (lor_bound 7 _ 5); try lia.
    rewrite Z.shiftr_div_pow2 by lia. change (2 ^ 12) with 4096.
    change (2 ^ 5) with 32. Z.div_mod_to_equations. lia.
Qed.

(** The value bytes of an option are bytes, whatever the value given. *)
Lemma valueBytes_bytes (v : optionValue) :
  (forall s, v = OString s -> Forall (fun c => 0 <= c < 65536) s) ->
  Forall isByte (valueBytes v).
Proof.
  intros Hs. destruct v as [s | n | bs]; cbn [valueBytes].
  - apply TextEncoder_encode_bytes, Hs. reflexivity.
  - unfold encodeNumber.
    destruct (n =? 0); [constructor |].
    destruct (n <? 256); [apply Uint8Array_from_isByte |].
    destruct (n <? 65536); apply Uint8Array_from_isByte.
  - apply Uint8Array_from_isByte.
Qed.

End CoAPFacts.

(** ** CoAP messages as data *)

Module CoAPDataFacts.
Import JS JSFacts CoAP CoAPFacts CoAPData.

(** *** Numbers as bytes *)

(** [x & (2^k - 1)] is the residue of the 32-bit value of [x]. *)
Lemma band_low (x k : Z) :
  0 <= k < 31 -> band x (Z.ones k) = toInt32 x mod 2 ^ k.
Proof.
  intros Hk. unfold band.
  assert (Hones : 0 <= Z.ones k < 2 ^ 31).
  { rewrite Z.ones_equiv.
    assert (0 < 2 ^ k) by (apply Z.pow_pos_nonneg; lia).
    assert (2 ^ k <= 2 ^ 30) by (apply Z.pow_le_mono_r; lia).
    change (2 ^ 30) with 1073741824 in *.
    change (2 ^ 31) with 2147483648. lia. }
  rewrite (toInt32_small (Z.ones k)) by lia.
  apply Z.land_ones. lia.
Qed.

(** The bytes of the 32-bit value of a number, most significant first. *)
Lemma word_bytes (m : Z) :
  bigEndian [(m / 2 ^ 24) mod 256; (m / 2 ^ 16) mod 256;
             (m / 2 ^ 8) mod 256; m mod 256]
  = m mod 2 ^ 32.
Proof.
  unfold bigEndian. cbn [fold_left].
  change (2 ^ 24) with 16777216. change (2 ^ 16) with 65536.
  change (2 ^ 8) with 256. change (2 ^ 32) with 4294967296.
  Z.div_mod_to_equations. lia.
Qed.

Lemma toInt32_mod (n : Z) : toInt32 n mod 2 ^ 32 = n mod 2 ^ 32.
Proof.
  unfold toInt32.
  change (2 ^ 31) with 2147483648. change (2 ^ 32) with 4294967296.
  Z.div_mod_to_equations. lia.
Qed.

Lemma band_byte (x : Z) : band x 0xFF = toInt32 x mod 256.
Proof. apply (band_low x 8). lia. Qed.

Lemma sar_range (n k : Z) :
  0 <= k -> - 2 ^ 31 <= sar n k < 2 ^ 31.
Proof.
  intros Hk. unfold sar. rewrite Z.shiftr_div_pow2 by lia.
  pose proof (toInt32_range n) as Hr.
  assert (Hp : 0 < 2 ^ k) by (apply Z.pow_pos_nonneg; lia).
  change (2 ^ 31) with 2147483648 in *.
  split.
  - apply Z.div_le_lower_bound; [lia |]. nia.
  - apply Z.div_lt_upper_bound; [lia |]. nia.
Qed.

Lemma bigEndian_snoc (bs : list Z) (b : Z) :
  bigEndian (bs ++ [b]) = bigEndian bs * 256 + b.
Proof. unfold bigEndian. rewrite fold_left_app. reflexivity. Qed.

(** Byte sequences of one length that denote one number are equal. *)
Lemma bigEndian_inj (a : list Z) :
  forall b, length a = length b -> Forall isByte a -> Forall isByte b ->
            bigEndian a = bigEndian b -> a = b.
Proof.
  induction a as [| x a IH] using rev_ind; intros b Hlen Ha Hb Heq.
  - destruct b; [reflexivity | discriminate Hlen].
  - destruct (exists_last (l := b)) as (b' & y & ->).
    { intros ->. rewrite length_app in Hlen. cbn in Hlen. lia. }
    rewrite !length_app in Hlen. cbn [length] in Hlen.
    apply Forall_app in Ha. destruct Ha as [Ha Hx].
    apply Forall_app in Hb. destruct Hb as [Hb Hy].
    apply Forall_inv in Hx. apply Forall_inv in Hy.
    rewrite !bigEndian_snoc in Heq. unfold isByte in Hx, Hy.
    assert (bigEndian a = bigEndian b' /\ x = y) as [E ->] by lia.
    f_equal. apply IH; [lia | exact Ha | exact Hb | exact E].
Qed.

(** [encodeNumber] writes the 32-bit value of a number, most significant
    byte first. *)
Lemma encodeNumber_value (n : Z) :
  0 <= n ->
  Forall isByte (encodeNumber n)
  /\ bigEndian (encodeNumber n) = n mod 2 ^ 32.
Proof.
  intros Hn. unfold encodeNumber.
  split; [destruct (n =? 0); [constructor | ];
          repeat match goal with
                 | |- context [if ?c then _ else _] => destruct c
                 end; apply Uint8Array_from_isByte |].
  destruct (Z.eqb_spec n 0) as [-> | Hn0]; [reflexivity |].
  destruct (Z.ltb_spec n 256) as [H256 | H256].
  { cbn [Uint8Array_from map]. rewrite (Z.mod_small n 256) by lia.
    unfold bigEndian; cbn [fold_left]. change (2 ^ 32) with 4294967296.
    rewrite Z.mod_small by lia. lia. }
  destruct (Z.ltb_spec n 65536) as [H65536 | H65536].
  { destruct (two_bytes n ltac:(lia)) as (T1 & T2 & T3 & _).
    cbn [Uint8Array_from map].
    rewrite (Z.mod_small _ 256 T1), (Z.mod_small _ 256 T2).
    assert (Hshl : shl (sar n 8) 8 = sar n 8 * 256).
    { unfold isByte in T1. apply (shl_small (sar n 8) 8);
        change (2 ^ 31) with 2147483648; change (2 ^ 8) with 256; lia. }
    unfold bigEndian; cbn [fold_left]. change (2 ^ 32) with 4294967296.
    rewrite (Z.mod_small n) by lia. lia. }
  cbn [Uint8Array_from map].
  rewrite !band_byte.
  rewrite !(toInt32_small (sar n _)) by (apply sar_range; lia).
  unfold sar. rewrite !Z.shiftr_div_pow2 by lia.
  rewrite !Z.mod_mod by lia.
  rewrite word_bytes. apply toInt32_mod.
Qed.

Lemma encodeNumber_length (n : Z) : len (encodeNumber n) = uintLength n.
Proof.
  unfold encodeNumber, uintLength.
  destruct (n =? 0); [reflexivity |].
  destruct (n <? 256); [reflexivity |].
  destruct (n <? 65536); reflexivity.
Qed.

(** *** The arguments of [createMessage] and the data they stand for *)

Lemma carries_valueBytes (v : optionValue) (bs : list Z) :
  carries v bs -> Forall isByte bs -> valueBytes v = bs.
Proof.
  destruct v as [s | n | b]; cbn [carries valueBytes].
  - intros H _. exact H.
  - intros (Hn & Hval & Hlen) Hbs.
    destruct (encodeNumber_value n (proj1 Hn)) as [Hb Hv].
    apply bigEndian_inj.
    + pose proof (encodeNumber_length n) as Hl. unfold len in *. lia.
    + exact Hb.
    + exact Hbs.
    + rewrite Hv, Hval. apply Z.mod_small. exact Hn.
  - intros -> Hbs. apply Uint8Array_from_bytes. exact Hbs.
Qed.

Lemma numbered_data (entries : list (jsstring * optionValue))
      (opts : list (Z * list Z)) :
  Forall2 optionOf entries opts -> Forall validOption opts ->
  Forall2 (fun p o => fst p = Int (fst o) /\ valueBytes (snd p) = snd o)
          (numbered entries) opts.
Proof.
  unfold numbered.
  induction 1 as [| [k v] o es os [Hn Hc] _ IH]; intros Hv;
    [constructor |].
  apply Forall_cons_iff in Hv. destruct Hv as [(_ & _ & Hb) Hv].
  cbn [map]. constructor; [| apply IH; exact Hv].
  cbn [fst snd] in *. split; [exact Hn |].
  apply carries_valueBytes; assumption.
Qed.

Lemma numbered_wire (entries : list (jsstring * optionValue))
      (opts : list (Z * list Z)) :
  Forall2 optionOf entries opts -> Forall validOption opts ->
  Forall wireOption (numbered entries).
Proof.
  intros Ho Hv. pose proof (numbered_data entries opts Ho Hv) as H.
  clear Ho. revert Hv.
  induction H as [| p o ps os [Hn Hb] _ IH]; intros Hv; [constructor |].
  apply Forall_cons_iff in Hv. destruct Hv as [(Hr & Hl & Hbytes) Hv].
  constructor; [| apply IH; exact Hv].
  unfold wireOption. rewrite Hb.
  split; [exists (fst o); split; assumption | split; assumption].
Qed.

Lemma numbered_sorted (entries : list (jsstring * optionValue))
      (opts : list (Z * list Z)) :
  Forall2 optionOf entries opts -> Forall validOption opts ->
  Sorted ascending opts -> Sorted numberLe (numbered entries).
Proof.
  intros Ho Hv. pose proof (numbered_data entries opts Ho Hv) as H.
  clear Ho Hv.
  induction H as [| p o ps os [Hn _] Hrest IH]; intros Hs; [constructor |].
  apply Sorted_inv in Hs. destruct Hs as [Hs Hhd].
  constructor; [apply IH; exact Hs |].
  destruct Hrest as [| p' o' ps' os' [Hn' _] _]; [constructor |].
  apply HdRel_inv in Hhd. constructor.
  unfold numberLe, ascending in *. rewrite Hn, Hn'. exact Hhd.
Qed.

Lemma storeAll_data (entries : list (jsstring * optionValue))
      (opts : list (Z * list Z)) :
  Forall2 optionOf entries opts -> Forall validOption opts ->
  forall acc,
    storeAll (numbered entries) acc
    = fold_left (fun acc o => storeOption acc (getOptionName (Int (fst o)))
                                          (snd o))
                opts acc.
Proof.
  intros Ho Hv. pose proof (numbered_data entries opts Ho Hv) as H.
  clear Ho Hv.
  induction H as [| p o ps os [Hn Hb] _ IH]; intros acc; [reflexivity |].
  unfold storeAll in *. cbn [fold_left]. rewrite Hn, Hb. apply IH.
Qed.

(** *** Grouping *)

Lemma storeOption_last (acc : list (jsstring * list (list Z)))
      (name : jsstring) (vs : list (list Z)) (v : list Z) :
  ~ In name (map fst acc) ->
  storeOption (acc ++ [(name, vs)]) name v = acc ++ [(name, vs ++ [v])].
Proof.
  induction acc as [| [k ws] acc IH]; intros Hnot.
  - cbn [app storeOption].
    destruct (jsstring_eqb name name) eqn:E; [reflexivity |].
    assert (Ht : jsstring_eqb name name = true)
      by (apply jsstring_eqb_eq; reflexivity).
    rewrite Ht in E. discriminate E.
  - cbn [app storeOption].
    destruct (jsstring_eqb k name) eqn:E.
    + apply jsstring_eqb_eq in E. exfalso. apply Hnot. left. exact E.
    + rewrite IH; [reflexivity |].
      intros Hin. apply Hnot. right. exact Hin.
Qed.

Lemma grouped_head (n : Z) (v : list Z) (rest : list (Z * list Z)) :
  exists ws gs, grouped ((n, v) :: rest) = (n, ws) :: gs.
Proof.
  cbn [grouped]. unfold absorb.
  destruct (grouped rest) as [| [m ws] gs]; [eauto |].
  cbn [fst snd]. destruct (n =? m); eauto.
Qed.

Lemma absorb_twice (n : Z) (vs : list (list Z)) (w : list Z)
      (gs : list (Z * list (list Z))) :
  absorb (n, vs) (absorb (n, [w]) gs) = absorb (n, vs ++ [w]) gs.
Proof.
  unfold absorb. destruct gs as [| [m ws] gs]; cbn [fst snd].
  - rewrite Z.eqb_refl. reflexivity.
  - destruct (Z.eqb_spec n m) as [-> | Hne]; cbn [fst snd].
    + rewrite Z.eqb_refl, <- app_assoc. reflexivity.
    + rewrite Z.eqb_refl. reflexivity.
Qed.

Lemma storeFold_cons (o : Z * list Z) (rest : list (Z * list Z))
      (acc : list (jsstring * list (list Z))) :
  storeFold (o :: rest) acc
  = storeFold rest (storeOption acc (getOptionName (Int (fst o))) (snd o)).
Proof. reflexivity. Qed.

(** Stored one after the other, ascending options end up grouped. *)
Lemma storeFold_grouped (l : list (Z * list Z)) :
  forall (acc : list (jsstring * list (list Z))) (n : Z)
         (vs : list (list Z)),
    0 <= n ->
    StronglySorted ascending l ->
    Forall (fun o => n <= fst o) l ->
    Forall (fun k => forall m, n <= m -> k <> getOptionName (Int m))
           (map fst acc) ->
    storeFold l (acc ++ [(getOptionName (Int n), vs)])
    = acc ++ named (absorb (n, vs) (grouped l)).
Proof.
  induction l as [| [m w] rest IH]; intros acc n vs Hn Hs Hge Hacc.
  - reflexivity.
  - apply StronglySorted_inv in Hs. destruct Hs as [Hs Hall].
    apply Forall_cons_iff in Hge. destruct Hge as [Hnm Hge].
    cbn [fst] in Hnm.
    assert (Hrest : Forall (fun o => m <= fst o) rest).
    { eapply Forall_impl; [| exact Hall]. intros o Ho. exact Ho. }
    rewrite storeFold_cons. cbn [fst snd].
    destruct (Z.eq_dec m n) as [-> | Hne].
    + rewrite storeOption_last.
      * rewrite (IH acc n (vs ++ [w]) Hn Hs Hrest Hacc).
        cbn [grouped]. rewrite absorb_twice. reflexivity.
      * intros Hin. rewrite Forall_forall in Hacc.
        apply (Hacc _ Hin n); [lia | reflexivity].
    + rewrite storeOption_fresh.
      * rewrite (IH (acc ++ [(getOptionName (Int n), vs)]) m [w]
                   ltac:(lia) Hs Hrest).
        -- rewrite <- app_assoc. f_equal.
           destruct (grouped_head m w rest) as (ws & gs & Hg).
           change (absorb (m, [w]) (grouped rest))
             with (grouped ((m, w) :: rest)).
           rewrite Hg. unfold absorb. cbn [fst snd].
           destruct (Z.eqb_spec n m) as [E | _]; [lia |].
           reflexivity.
        -- rewrite map_app. apply Forall_app. split.
           ++ eapply Forall_impl; [| exact Hacc].
              intros k Hk m' Hm'. apply Hk. lia.
           ++ constructor; [| constructor]. cbn [fst].
              intros m' Hm' Heq.
              apply getOptionName_inj in Heq; lia.
      * rewrite map_app. intros Hin. apply in_app_or in Hin.
        destruct Hin as [Hin | Hin].
        -- rewrite Forall_forall in Hacc.
           apply (Hacc _ Hin m); [lia | reflexivity].
        -- cbn in Hin. destruct Hin as [Heq | []].
           apply getOptionName_inj in Heq; lia.
Qed.

Lemma storeFold_optionsObject (opts : list (Z * list Z)) :
  Forall validOption opts -> Sorted ascending opts ->
  storeFold opts [] = optionsObject opts.
Proof.
  intros Hv Hs.
  apply Sorted_StronglySorted in Hs;
    [| intros a b c; unfold ascending; lia].
  destruct opts as [| [n v] rest]; [reflexivity |].
  apply Forall_cons_iff in Hv. destruct Hv as [(Hn & _) _].
  apply StronglySorted_inv in Hs. destruct Hs as [Hs Hall].
  cbn [fst] in Hn.
  rewrite storeFold_cons. cbn [storeOption fst snd].
  apply (storeFold_grouped rest [] n [v]); [lia | exact Hs | | constructor].
  eapply Forall_impl; [| exact Hall]. intros o Ho. exact Ho.
Qed.

(** With strictly ascending numbers every option is a group. *)
Lemma grouped_single (opts : list (Z * list Z)) :
  StronglySorted strictlyAscending opts ->
  grouped opts = map (fun o => (fst o, [snd o])) opts.
Proof.
  induction 1 as [| [n v] rest Hs IH Hall]; [reflexivity |].
  cbn [grouped map fst snd]. rewrite IH.
  destruct rest as [| [m w] rest']; [reflexivity |].
  cbn [map absorb fst snd].
  apply Forall_inv in Hall. unfold strictlyAscending in Hall.
  cbn [fst] in Hall.
  destruct (Z.eqb_spec n m); [lia | reflexivity].
Qed.

(** *** Looking an option up by its number *)

Lemma lookup_storeOption (acc : list (jsstring * list (list Z)))
      (name k : jsstring) (v : list Z) :
  lookup k (storeOption acc name v)
  = if jsstring_eqb name k
    then Some (match lookup k acc with
               | Some vs => vs ++ [v]
               | None => [v]
               end)
    else lookup k acc.
Proof.
  induction acc as [| [k' vs] acc IH]; cbn [storeOption lookup].
  - reflexivity.
  - destruct (jsstring_eqb k' name) eqn:E1.
    + apply jsstring_eqb_eq in E1. subst k'. cbn [lookup].
      destruct (jsstring_eqb name k); reflexivity.
    + cbn [lookup]. destruct (jsstring_eqb k' k) eqn:E2.
      * apply jsstring_eqb_eq in E2. subst k'.
        destruct (jsstring_eqb name k) eqn:E3; [| reflexivity].
        apply jsstring_eqb_eq in E3. subst name.
        assert (Ht : jsstring_eqb k k = true)
          by (apply jsstring_eqb_eq; reflexivity).
        rewrite Ht in E1. discriminate E1.
      * exact IH.
Qed.

Lemma lookup_storeFold (opts : list (Z * list Z)) (n : Z) :
  0 <= n -> Forall (fun o => 0 <= fst o) opts ->
  forall acc,
    lookup (getOptionName (Int n)) (storeFold opts acc)
    = addValues (lookup (getOptionName (Int n)) acc)
                (map snd (filter (fun o => fst o =? n) opts)).
Proof.
  intros Hn. induction 1 as [| [m w] rest Hm _ IH]; intros acc.
  - reflexivity.
  - rewrite storeFold_cons. cbn [fst snd].
    rewrite IH, lookup_storeOption. cbn [filter fst].
    cbn [fst] in Hm.
    destruct (Z.eqb_spec m n) as [-> | Hne].
    + assert (Ht : jsstring_eqb (getOptionName (Int n))
                                (getOptionName (Int n)) = true)
        by (apply jsstring_eqb_eq; reflexivity).
      rewrite Ht. cbn [map snd].
      destruct (map snd (filter (fun o => fst o =? n) rest)) as [| x xs];
        destruct (lookup (getOptionName (Int n)) acc) as [c |];
        cbn [addValues app]; try reflexivity.
      rewrite <- app_assoc. reflexivity.
    + destruct (jsstring_eqb (getOptionName (Int m))
                             (getOptionName (Int n))) eqn:E;
        [| reflexivity].
      apply jsstring_eqb_eq, getOptionName_inj in E; lia.
Qed.

(** *** The message ID on the wire *)

Lemma id_bytes_mod (m : Z) :
  band (sar m 8) 0xFF = band (sar (m mod 65536) 8) 0xFF
  /\ band m 0xFF = band (m mod 65536) 0xFF.
Proof.
  rewrite !band_byte.
  rewrite !(toInt32_small (sar _ 8)) by (apply sar_range; lia).
  unfold sar. rewrite !Z.shiftr_div_pow2 by lia.
  unfold toInt32.
  change (2 ^ 31) with 2147483648. change (2 ^ 32) with 4294967296.
  change (2 ^ 8) with 256.
  split; Z.div_mod_to_equations; lia.
Qed.

Lemma buildMessage_id_mod (m : Z) (token : list Z) (type code : Z)
      (entries : list (jsstring * optionValue))
      (payload : option payloadValue) :
  buildMessage m token type code entries payload
  = buildMessage (m mod 65536) token type code entries payload.
Proof.
  unfold buildMessage. cbv zeta.
  destruct (id_bytes_mod m) as [-> ->]. reflexivity.
Qed.

End CoAPDataFacts.

Module CoAPProps.
Import JS JSFacts CoAP CoAPFacts CoAPData CoAPDataFacts.

(** C8.  [encodeOptions] sorts before it delta-encodes: whatever the
    order of the entries (keys that resolve to numbers), the options are
    encoded in the order of [sortedOptions], which holds the same
    options as the input, in ascending order of option number.  Options
    [{15: "b", 11: "a"}], in either order of the keys and also under the
    names [uri-query] / [uri-path], are encoded with Uri-Path (delta 11)
    first and Uri-Query (delta 4) second. *)
Theorem options_sorted_before_encoding
        (entries : list (jsstring * optionValue)) :
  Forall (fun e => exists n, getOptionNumber (fst e) = Int n) entries ->
  encodeOptions entries = encodeSorted (Int 0) (sortedOptions entries)
  /\ Permutation (sortedOptions entries) (numbered entries)
  /\ StronglySorted numberLe (sortedOptions entries)
  /\ encodeOptions [(str "15", OString (str "b")); (str "11", OString (str "a"))]
     = [0xB1; 0x61; 0x41; 0x62]
  /\ encodeOptions [(str "11", OString (str "a")); (str "15", OString (str "b"))]
     = [0xB1; 0x61; 0x41; 0x62]
  /\ encodeOptions [(str "uri-query", OString (str "b"));
                    (str "uri-path", OString (str "a"))]
     = [0xB1; 0x61; 0x41; 0x62].
Proof.
  intros H. split; [reflexivity |].
  split; [apply sortByNumber_perm |].
  split; [apply sortByNumber_sorted, numbered_resolves, H |].
  repeat split; vm_compute; reflexivity.
Qed.

Lemma options_sorted_before_encoding_witness :
  Forall (fun e => exists n, getOptionNumber (fst e) = Int n)
         [(str "uri-query", OString (str "b")); (str "11", OString (str "a"))]
  /\ StronglySorted numberLe
       (sortedOptions [(str "uri-query", OString (str "b"));
                       (str "11", OString (str "a"))]).
Proof.
  assert (H : Forall (fun e => exists n, getOptionNumber (fst e) = Int n)
                [(str "uri-query", OString (str "b"));
                 (str "11", OString (str "a"))]).
  { constructor; [exists 15; reflexivity |].
    constructor; [exists 11; reflexivity | constructor]. }
  split; [exact H |].
  exact (proj1 (proj2 (proj2 (options_sorted_before_encoding _ H)))).
Defined.

(** C2.  Decoding an encoded message gives the message back: version
    1, the type, the code (with its class and detail), the message ID,
    the token, the options in order and the payload.  The message is
    valid: a type of two bits, a code of one byte, a message ID of 16
    bits, a token of at most 8 bytes, options in ascending order of their
    numbers (16-bit numbers, values of at most 65804 bytes) and a payload
    of bytes.  It is given to the encoder in the forms that the encoder
    takes: an option under a key that stands for its number, its value as
    a byte array, as the string of which it is the UTF-8 encoding, or as
    the unsigned 32-bit number of which it is the big-endian form; the
    payload as a byte array or as a string that is not empty.  The
    decoder keeps the values of one option number in one array under the
    name of the number: looking a number up gives its values in order,
    and when no number is repeated the decoded options are the given
    options one by one.  [createMessage] lays out such a message with
    the token it generates and, whatever the value of the client's
    counter, with the counter reduced to 16 bits as message ID; the
    message ID it returns is the counter itself, which moves on by
    one. *)
Theorem decode_encode_message
        (messageId : Z) (token : list Z) (type code : Z)
        (entries : list (jsstring * optionValue))
        (payload : option payloadValue)
        (opts : list (Z * list Z)) (body : option (list Z)) :
  0 <= type < 4 -> 0 <= code < 256 ->
  0 <= messageId < 65536 ->
  len token <= 8 -> Forall isByte token ->
  Forall validOption opts -> Sorted ascending opts ->
  (forall b, body = Some b -> Forall isByte b) ->
  Forall2 optionOf entries opts ->
  carriesPayload payload body ->
  arrayLength (buildMessage messageId token type code entries payload) ->
  let decoded :=
    parseMessage (buildMessage messageId token type code entries payload) in
  decoded = message messageId token type code opts body
  /\ (forall n, 0 <= n ->
        lookup (getOptionName (Int n)) (options decoded) = valuesOf n opts)
  /\ (StronglySorted strictlyAscending opts ->
      options decoded
      = map (fun o => (getOptionName (Int (fst o)), [snd o])) opts)
  /\ (forall (c : Client) (random : nat -> Z),
        let r := createMessage c random type code entries payload in
        arrayLength (bytes (fst r)) ->
        parseMessage (bytes (fst r))
        = message (clientMessageId c mod 65536) (createdToken (fst r))
                  type code opts body
        /\ createdMessageId (fst r) = clientMessageId c
        /\ createdToken (fst r) = generateToken random
        /\ clientMessageId (snd r) = clientMessageId c + 1).
Proof.
  intros Htype Hcode Hid Htoken Htokenbytes Hvalid Hsorted Hbody Hopts
         Hpay Hlen.
  assert (Hpayload : forall p, payload = Some p ->
                               Forall isByte (payloadBytes p)).
  { intros p ->. destruct p as [bs | [| ch s]]; cbn [carriesPayload] in Hpay;
      cbn [payloadBytes].
    - apply Hbody. exact Hpay.
    - constructor.
    - apply Hbody. exact Hpay. }
  assert (Hstore : storeAll (numbered entries) [] = storeFold opts [])
    by (apply (storeAll_data entries opts); assumption).
  assert (Hgiven : (if truthy payload then option_map payloadBytes payload
                    else None) = body).
  { destruct payload as [[bs | [| ch s]] |]; cbn [carriesPayload] in Hpay;
      cbn [truthy option_map payloadBytes]; symmetry; exact Hpay. }
  assert (Hany : forall id tok,
             0 <= id < 65536 -> len tok <= 8 -> Forall isByte tok ->
             arrayLength (buildMessage id tok type code entries payload) ->
             parseMessage (buildMessage id tok type code entries payload)
             = message id tok type code opts body
             /\ options (parseMessage
                           (buildMessage id tok type code entries payload))
                = storeFold opts []).
  { intros id tok Hi Ht Htb Hl.
    assert (Hparse :
              parseMessage (buildMessage id tok type code entries payload)
              = messageOf id tok type code entries payload).
    { apply parse_build; try assumption.
      - apply (numbered_wire entries opts); assumption.
      - apply (numbered_sorted entries opts); assumption. }
    rewrite Hparse. split.
    - unfold messageOf, message.
      rewrite Hstore, Hgiven.
      rewrite storeFold_optionsObject by assumption. reflexivity.
    - cbn [options messageOf]. exact Hstore. }
  destruct (Hany messageId token Hid Htoken Htokenbytes Hlen)
    as [Hmessage Hoptions].
  cbv zeta.
  split; [exact Hmessage |]. split; [| split].
  - intros n Hn. rewrite Hoptions.
    rewrite lookup_storeFold.
    + cbn [lookup]. unfold valuesOf.
      destruct (map snd (filter (fun o => fst o =? n) opts)); reflexivity.
    + exact Hn.
    + eapply Forall_impl; [| exact Hvalid].
      intros o (Ho & _). lia.
  - intros Hstrict. rewrite Hmessage. cbn [options message].
    unfold optionsObject, named. rewrite grouped_single by exact Hstrict.
    rewrite map_map. reflexivity.
  - intros c random.
    cbn [createMessage fst snd bytes createdMessageId createdToken
         clientMessageId].
    rewrite buildMessage_id_mod. intros Hl.
    split; [| repeat split].
    apply (Hany (clientMessageId c mod 65536) (generateToken random)).
    + apply Z.mod_pos_bound. lia.
    + cbn. lia.
    + apply Uint8Array_from_isByte.
    + exact Hl.
Qed.

Lemma decode_encode_message_witness :
  let entries := [(str "uri-path", OString (str "a"));
                  (str "content-format", ONumber 61441);
                  (str "15", OBytes [98]);
                  (str "URI-QUERY", OString (str "c"))] in
  let payload := Some (PBytes [0xA1; 0x01; 0x02]) in
  parseMessage (buildMessage 1 [7; 8; 9; 255] 0 2 entries payload)
  = {| version := 1; type := 0; code := Some 2;
       codeClass := 0; codeDetail := 2;
       messageId := 1; token := [7; 8; 9; 255];
       options := [(str "uri-path", [[97]]);
                   (str "content-format", [[0xF0; 0x01]]);
                   (str "uri-query", [[98]; [99]])];
       payload := Some [0xA1; 0x01; 0x02] |}
  /\ (let r := createMessage {| clientMessageId := 65537 |} (fun _ => 7)
                             0 2 entries payload in
      messageId (parseMessage (bytes (fst r))) = 1
      /\ createdMessageId (fst r) = 65537).
Proof.
  intros entries payload.
  pose proof (decode_encode_message
                1 [7; 8; 9; 255] 0 2 entries payload
                [(11, [97]); (12, [0xF0; 0x01]); (15, [98]); (15, [99])]
                (Some [0xA1; 0x01; 0x02])) as H.
  destruct H as (H1 & _ & _ & H4).
  - lia.
  - lia.
  - lia.
  - cbn. lia.
  - repeat constructor; unfold isByte; lia.
  - repeat constructor; cbn; unfold isByte; lia.
  - repeat constructor; unfold ascending; cbn; lia.
  - intros b Hb. injection Hb as <-.
    repeat constructor; unfold isByte; lia.
  - repeat constructor; cbn; lia.
  - reflexivity.
  - vm_compute. reflexivity.
  - split; [exact H1 |].
    destruct (H4 {| clientMessageId := 65537 |} (fun _ => 7))
      as (Hm & Hc & _).
    + vm_compute. reflexivity.
    + cbv zeta. rewrite Hm. split; [reflexivity | exact Hc].
Defined.

(** C7, as stated: an input that ends exactly at the 0xFF marker.  The
    decoder returns an ordinary message with an empty, non-null payload;
    nothing in the result marks it as invalid. *)
Lemma empty_payload_accepted :
  parseMessage [0x40; 0x01; 0x00; 0x01; 0xFF]
  = {| version := 1; type := 0; code := Some 1;
       codeClass := 0; codeDetail := 1; messageId := 1;
       token := []; options := []; payload := Some [] |}.
Proof. vm_compute. reflexivity. Qed.

(** C7, amended.  Absent and empty payloads are told apart.  For every
    input: without a payload marker the payload is absent; with the marker
    the payload is not absent, it is the bytes behind the marker; an input
    without any 0xFF byte has no marker; and a payload that is not absent
    is the bytes that follow a 0xFF byte of the input.  For every encoded
    message: the payload is absent when none was given (or a falsy one),
    and the given bytes otherwise; when these are empty the input ends at
    the marker and the payload is empty, not absent. *)
Theorem payload_absent_or_present (data : list Z) :
  (payloadMarker data = None -> payload (parseMessage data) = None)
  /\ (forall off, payloadMarker data = Some off ->
      get (Uint8Array_from data) off = Some 0xFF
      /\ payload (parseMessage data)
         = Some (slice_from (Uint8Array_from data) (off + 1)))
  /\ (~ In 0xFF (Uint8Array_from data) -> payloadMarker data = None)
  /\ (forall p, payload (parseMessage data) = Some p ->
      exists pre, Uint8Array_from data = pre ++ 0xFF :: p)
  /\ (forall messageId token type code entries given,
        0 <= type < 4 -> 0 <= code < 256 -> 0 <= messageId < 65536 ->
        len token <= 8 -> Forall isByte token ->
        Forall wireOption (numbered entries) ->
        Sorted numberLe (numbered entries) ->
        (forall p, given = Some p -> Forall isByte (payloadBytes p)) ->
        data = buildMessage messageId token type code entries given ->
        arrayLength data ->
        payload (parseMessage data)
        = (if truthy given then option_map payloadBytes given else None)
        /\ (given = Some (PBytes []) ->
            payload (parseMessage data) = Some []
            /\ exists pre, data = pre ++ [0xFF])).
Proof.
  assert (Hmarker : payload (parseMessage data)
                    = match payloadMarker data with
                      | Some off =>
                          Some (slice_from (Uint8Array_from data) (off + 1))
                      | None => None
                      end).
  { unfold parseMessage, payloadMarker. cbv zeta.
    set (bytes := Uint8Array_from data).
    destruct (parseOptions bytes _) as [opts newOffset].
    cbn [payload snd].
    destruct newOffset as [off | |]; try reflexivity.
    destruct (_ && _); reflexivity. }
  assert (Hget : forall off, payloadMarker data = Some off ->
                   get (Uint8Array_from data) off = Some 0xFF).
  { intros off. unfold payloadMarker. cbv zeta.
    set (bytes := Uint8Array_from data).
    destruct (snd (parseOptions bytes _)) as [o | |]; try discriminate.
    destruct (o <? len bytes); cbn [andb]; try discriminate.
    destruct (get bytes o) as [b |] eqn:Hb; try discriminate.
    destruct (Z.eqb_spec b 255) as [-> | _]; try discriminate.
    intros Ho. injection Ho as <-. exact Hb. }
  assert (Hsplit : forall off, get (Uint8Array_from data) off = Some 0xFF ->
                     exists pre,
                       Uint8Array_from data
                       = pre ++ 0xFF :: slice_from (Uint8Array_from data)
                                                   (off + 1)).
  { intros off. set (bytes := Uint8Array_from data). unfold get.
    destruct (Z.ltb_spec off 0) as [Hneg | Hpos]; try discriminate.
    intros Hnth.
    destruct (nth_error_split bytes (Z.to_nat off) Hnth)
      as (l1 & l2 & Hl & Hl1).
    exists l1. rewrite Hl at 1. f_equal. f_equal.
    rewrite Hl.
    replace (off + 1) with (len (l1 ++ [255]))
      by (rewrite len_app; unfold len; cbn [length]; lia).
    replace (l1 ++ 255 :: l2) with ((l1 ++ [255]) ++ l2)
      by (rewrite <- app_assoc; reflexivity).
    symmetry. apply slice_from_app. }
  assert (Hsome : forall p, payload (parseMessage data) = Some p ->
                    exists pre, Uint8Array_from data = pre ++ 0xFF :: p).
  { intros p. rewrite Hmarker.
    destruct (payloadMarker data) as [off |] eqn:Hm; try discriminate.
    intros Hp. injection Hp as <-. apply Hsplit, Hget. reflexivity. }
  split; [intros Hm; rewrite Hmarker, Hm; reflexivity |].
  split; [intros off Hm; split;
          [apply Hget, Hm | rewrite Hmarker, Hm; reflexivity] |].
  split; [| split; [exact Hsome |]].
  - intros Hnot.
    destruct (payloadMarker data) as [off |] eqn:Hm; [| reflexivity].
    exfalso. apply Hnot.
    destruct (Hsplit off (Hget off eq_refl)) as (pre & Hpre).
    rewrite Hpre. apply in_elt.
  - intros messageId token type code entries given
           Htype Hcode Hid Htoken Htokenbytes Hwire Hsorted Hgiven -> Hlen.
    rewrite parse_build by assumption.
    cbn [payload messageOf].
    split; [reflexivity |].
    intros ->. split; [reflexivity |].
    rewrite buildMessage_shape by assumption.
    cbn [payloadPart truthy payloadBytes].
    eexists. rewrite !app_assoc. reflexivity.
Qed.

Lemma payload_absent_or_present_witness :
  ~ In 0xFF (Uint8Array_from [0x40; 0x01; 0x00; 0x01; 0xB1; 0x61])
  /\ payloadMarker [0x40; 0x01; 0x00; 0x01; 0xB1; 0x61] = None
  /\ payload (parseMessage [0x40; 0x01; 0x00; 0x01; 0xB1; 0x61]) = None
  /\ payloadMarker [0x40; 0x01; 0x00; 0x01; 0xFF; 0x61] = Some 4
  /\ payload (parseMessage [0x40; 0x01; 0x00; 0x01; 0xFF; 0x61]) = Some [0x61]
  /\ payload (parseMessage (buildMessage 1 [] 0 1 [] (Some (PBytes []))))
     = Some [].
Proof.
  assert (Hnot : ~ In 0xFF
                   (Uint8Array_from [0x40; 0x01; 0x00; 0x01; 0xB1; 0x61])).
  { cbn. intros H. repeat (destruct H as [H | H]; [discriminate H |]).
    exact H. }
  pose proof (payload_absent_or_present [0x40; 0x01; 0x00; 0x01; 0xB1; 0x61])
    as (H1 & _ & H3 & _).
  pose proof (payload_absent_or_present [0x40; 0x01; 0x00; 0x01; 0xFF; 0x61])
    as (_ & H2 & _).
  assert (Hm : payloadMarker [0x40; 0x01; 0x00; 0x01; 0xFF; 0x61] = Some 4)
    by reflexivity.
  split; [exact Hnot |].
  split; [exact (H3 Hnot) |].
  split; [exact (H1 (H3 Hnot)) |].
  split; [exact Hm |].
  split; [exact (proj2 (H2 4 Hm)) |].
  refine (proj1 (proj2 (proj2 (proj2 (proj2 (proj2
            (payload_absent_or_present
               (buildMessage 1 [] 0 1 [] (Some (PBytes [])))))))
            1 [] 0 1 [] (Some (PBytes [])) _ _ _ _ _ _ _ _ eq_refl _)
            eq_refl)).
  - lia.
  - lia.
  - lia.
  - cbn. lia.
  - constructor.
  - constructor.
  - constructor.
  - intros p Hp. injection Hp as <-. constructor.
  - vm_compute. reflexivity.
Defined.

End CoAPProps.

(** ** CBOR: decoding what the encoder wrote *)

Module CBORDecode.
Import JS JSFacts CBOR CBORFacts CBORValues.

(** Induction on values, through the items of arrays and objects. *)
Section ValueInduction.
Variable P : value -> Prop.
Hypothesis HUndefined : P VUndefined.
Hypothesis HNull : P VNull.
Hypothesis HBool : forall b, P (VBool b).
Hypothesis HNum : forall n, P (VNum n).
Hypothesis HString : forall s, P (VString s).
Hypothesis HBytes : forall bs, P (VBytes bs).
Hypothesis HArray : forall items, Forall P items -> P (VArray items).
Hypothesis HObject :
  forall props, Forall (fun p => P (snd p)) props -> P (VObject props).

Lemma value_induction : forall v, P v.
Proof.
  fix IH 1. intros [| | b | n | s | bs | items | props].
  - exact HUndefined.
  - exact HNull.
  - apply HBool.
  - apply HNum.
  - apply HString.
  - apply HBytes.
  - apply HArray. induction items as [| x r IHr]; constructor.
    + apply IH.
    + exact IHr.
  - apply HObject. induction props as [| [k x] r IHr]; constructor.
    + apply IH.
    + exact IHr.
Qed.

End ValueInduction.

(** Reading inside a buffer, behind a prefix. *)
Lemma get_num_shift (pre l : list Z) (j : Z) :
  0 <= j -> get_num (pre ++ l) (Int (len pre + j)) = get l j.
Proof. intros Hj. cbn [get_num]. apply get_app_at. exact Hj. Qed.

Lemma offset_add (a j : Z) :
  0 <= a -> 0 <= j -> a + j < 2 ^ 53 ->
  num_add (Int a) (Int j) = Int (a + j).
Proof.
  intros Ha Hj Hlt. unfold num_add. rewrite round53_small by lia.
  reflexivity.
Qed.

Lemma ok_pair (X x : value) (a o : Z) :
  @Ok (value * num) (X, Int a) = Ok (x, Int o) -> X = x /\ a = o.
Proof. intros H. injection H. auto. Qed.

(** The argument reader gives the same value behind a prefix. *)
Lemma decodeArgument_shift (pre l : list Z)
      (other other' : Z -> result (value * num)) (x : value) (o : Z) :
  len pre + 9 < 2 ^ 53 ->
  band (int_of (get l 0)) 0x1F < 28 ->
  decodeArgument l (Int 0) other' = Ok (x, Int o) ->
  decodeArgument (pre ++ l) (Int (len pre)) other
  = Ok (x, Int (len pre + o)).
Proof.
  intros Hlen Hai.
  pose proof (len_nonneg pre) as Hpre.
  assert (Hp : forall k, 0 <= k <= 8 ->
             get_num (pre ++ l)
                     (num_add (num_add (Int (len pre)) (Int 1)) (Int k))
             = get l (1 + k)).
  { intros k Hk. rewrite !offset_add by lia.
    rewrite <- Z.add_assoc. apply get_num_shift. lia. }
  assert (Hl : forall k, 0 <= k <= 8 ->
             get_num l (num_add (num_add (Int 0) (Int 1)) (Int k))
             = get l (1 + k)).
  { intros k Hk. rewrite !offset_add by (change (2 ^ 53) with 9007199254740992; lia).
    reflexivity. }
  assert (Hp1 : get_num (pre ++ l) (num_add (Int (len pre)) (Int 1))
                = get l 1).
  { rewrite offset_add by lia. apply get_num_shift. lia. }
  assert (Hl1 : get_num l (num_add (Int 0) (Int 1)) = get l 1)
    by reflexivity.
  assert (Hp0 : get_num (pre ++ l) (Int (len pre)) = get l 0).
  { rewrite <- (Z.add_0_r (len pre)). apply get_num_shift. lia. }
  assert (Ho : forall j, 0 <= j <= 8 ->
             num_add (num_add (Int (len pre)) (Int 1)) (Int j)
             = Int (len pre + (1 + j))).
  { intros j Hj. rewrite !offset_add by lia. f_equal. lia. }
  assert (Hol : forall j, 0 <= j <= 8 ->
             num_add (num_add (Int 0) (Int 1)) (Int j) = Int (1 + j)).
  { intros j Hj. rewrite !offset_add by (change (2 ^ 53) with 9007199254740992; lia).
    reflexivity. }
  assert (Ho1 : num_add (Int (len pre)) (Int 1) = Int (len pre + 1))
    by (apply offset_add; lia).
  unfold decodeArgument, read32, byteAt.
  rewrite !Hp, !Hl by lia. rewrite Hp1, Hl1, Hp0. rewrite !Ho, !Hol by lia.
  rewrite Ho1.
  change (get_num l (Int 0)) with (get l 0).
  set (ai := band (int_of (get l 0)) 31) in *.
  destruct (Z.ltb_spec ai 24).
  { intros Heq. apply ok_pair in Heq. destruct Heq as [<- <-].
    reflexivity. }
  destruct (Z.eqb_spec ai 24).
  { intros Heq. apply ok_pair in Heq. destruct Heq as [<- <-].
    reflexivity. }
  destruct (Z.eqb_spec ai 25).
  { intros Heq. apply ok_pair in Heq. destruct Heq as [<- <-].
    reflexivity. }
  destruct (Z.eqb_spec ai 26).
  { intros Heq. apply ok_pair in Heq. destruct Heq as [<- <-].
    reflexivity. }
  destruct (Z.eqb_spec ai 27).
  { intros Heq. apply ok_pair in Heq. destruct Heq as [<- <-].
    reflexivity. }
  lia.
Qed.

(** An argument below 2^31 is read back at any position of a buffer. *)
Lemma argument_at (mt v : Z) (pre rest : list Z)
      (other : Z -> result (value * num)) :
  0 <= mt < 8 -> 0 <= v < 2 ^ 31 -> len pre + 9 < 2 ^ 53 ->
  let enc := encodeTypeAndValue mt v in
  Forall isByte enc
  /\ 0 < len enc <= 5
  /\ band (sar (int_of (get (pre ++ enc ++ rest) (len pre))) 5) 0x07 = mt
  /\ decodeArgument (pre ++ enc ++ rest) (Int (len pre)) other
     = Ok (VNum (Int v), Int (len pre + len enc)).
Proof.
  intros Hmt Hv Hpre. cbv zeta.
  destruct (decodeArgument_encode mt v rest other Hmt Hv)
    as (Hb & Hl & Hm & Hd).
  cbv zeta in Hb, Hl, Hm, Hd.
  assert (Hhead : exists ai tl,
             encodeTypeAndValue mt v = bor (shl mt 5) ai :: tl
             /\ 0 <= ai < 27 /\ len tl <= 4).
  { unfold encodeTypeAndValue.
    change (2 ^ 31) with 2147483648 in Hv.
    destruct (Z.ltb_spec v 24);
      [exists v, []; repeat split; try reflexivity; cbn; lia |].
    destruct (Z.ltb_spec v 256);
      [exists 24, [v]; repeat split; try reflexivity; cbn; lia |].
    destruct (Z.ltb_spec v 65536);
      [eexists 25, _; repeat split; try reflexivity; cbn; lia |].
    destruct (Z.ltb_spec v 4294967296); [| lia].
    eexists 26, _; repeat split; try reflexivity; cbn; lia. }
  destruct Hhead as (ai & tl & Henc & Hai & Htl).
  destruct (initial_byte mt ai Hmt ltac:(lia)) as (_ & _ & Hlow).
  cbv zeta in Hlow.
  assert (Hget : get (pre ++ encodeTypeAndValue mt v ++ rest) (len pre)
                 = get (encodeTypeAndValue mt v ++ rest) 0).
  { rewrite <- (Z.add_0_r (len pre)). apply get_app_at. lia. }
  split; [exact Hb |].
  split; [split; [exact Hl | rewrite Henc, len_cons; lia] |].
  split; [rewrite Hget; exact Hm |].
  apply (decodeArgument_shift pre _ other other); [exact Hpre | | exact Hd].
  rewrite Henc. cbn [app]. change (get (?a :: ?r) 0) with (Some a).
  cbn [int_of]. rewrite Hlow. lia.
Qed.

(** The encoded head of a list is never empty. *)
Lemma encodeTypeAndValue_nonempty (mt v : Z) :
  0 < len (encodeTypeAndValue mt v).
Proof.
  unfold encodeTypeAndValue.
  repeat match goal with
         | |- context [if ?c then _ else _] => destruct c
         end; cbn; lia.
Qed.

Lemma encodeValue_nonempty (v : value) : 0 < len (encodeValue v).
Proof.
  destruct v as [| | [|] | [z | b |] | s | bs | items | props];
    cbn [encodeValue encodeNumber];
    try (cbn; lia).
  - unfold encodeUnsignedInt, encodeNegativeInt.
    destruct (0 <=? z); apply encodeTypeAndValue_nonempty.
  - unfold encodeString. rewrite len_app.
    pose proof (encodeTypeAndValue_nonempty 3 (len (TextEncoder_encode s))).
    pose proof (len_nonneg (TextEncoder_encode s)). lia.
  - unfold encodeByteString. rewrite len_app.
    pose proof (encodeTypeAndValue_nonempty 2 (len bs)).
    pose proof (len_nonneg bs). lia.
  - rewrite len_app.
    pose proof (encodeTypeAndValue_nonempty 4 (Z.of_nat (length items))).
    pose proof (len_nonneg (flat_map encodeValue items)). lia.
  - cbv zeta. rewrite len_app.
    match goal with
    | |- 0 < len (encodeTypeAndValue 5 ?n) + len ?r =>
        pose proof (encodeTypeAndValue_nonempty 5 n);
        pose proof (len_nonneg r)
    end. lia.
Qed.

(** Sizes of concatenated encodings. *)
Lemma part_size {A : Type} (g : A -> list Z) (l : list A) (x : A) :
  In x l -> len (g x) <= len (flat_map g l).
Proof.
  induction l as [| y l IH]; intros Hin; [contradiction |].
  cbn [flat_map]. rewrite len_app.
  pose proof (len_nonneg (g y)). pose proof (len_nonneg (flat_map g l)).
  destruct Hin as [-> | Hin]; [lia | specialize (IH Hin); lia].
Qed.

Lemma count_size {A : Type} (g : A -> list Z) (l : list A) :
  (forall x, 0 < len (g x)) ->
  Z.of_nat (length l) <= len (flat_map g l).
Proof.
  intros Hg. induction l as [| y l IH]; [cbn; lia |].
  cbn [flat_map length]. rewrite len_app. specialize (Hg y). lia.
Qed.

(** An object without array-index keys lists its properties in creation
    order. *)
Lemma Object_entries_plain {A : Type} (l : list (jsstring * A)) :
  Forall (fun p => arrayIndex (fst p) = None) l -> Object_entries l = l.
Proof.
  intros Hl. unfold Object_entries.
  assert (Hidx : forall acc,
             fold_left
               (fun acc p =>
                  match arrayIndex (fst p) with
                  | Some i => insertIndexed (i, p) acc
                  | None => acc
                  end) l acc = acc).
  { induction Hl as [| p l Hp Hl IH]; intros acc; [reflexivity |].
    cbn [fold_left]. rewrite Hp. apply IH. }
  rewrite Hidx. cbn [map app].
  induction Hl as [| p l Hp Hl IH]; [reflexivity |].
  cbn [filter]. rewrite Hp. f_equal. apply IH.
  intros acc. specialize (Hidx acc). cbn [fold_left] in Hidx.
  rewrite Hp in Hidx. exact Hidx.
Qed.

Section Platform.
Variable TextDecoder_decode : list Z -> jsstring.
Variable fracToString : Z -> jsstring.

(** The equations of the decoder. *)
Lemma decodeValue_S (f : nat) (data : list Z) (offset : num) :
  decodeValue TextDecoder_decode fracToString (S f) data offset
  = if num_geb offset (Int (len data))
    then Some (Throw "Unexpected end of CBOR data")
    else
      let initialByte := int_of (get_num data offset) in
      let majorType := band (sar initialByte 5) 0x07 in
      if majorType =? 0 then Some (decodeUnsignedInt data offset)
      else if majorType =? 1 then Some (decodeNegativeInt data offset)
      else if majorType =? 2 then Some (decodeByteString data offset)
      else if majorType =? 3
      then Some (decodeTextString TextDecoder_decode data offset)
      else if majorType =? 4 then
        match decodeLength data offset with
        | Ok (lengthValue, offset) =>
            match decodeItems TextDecoder_decode fracToString f data 0
                              lengthValue offset [] with
            | Some (Ok (array, offset)) => Some (Ok (VArray array, offset))
            | Some (Throw m) => Some (Throw m)
            | None => None
            end
        | Throw m => Some (Throw m)
        end
      else if majorType =? 5 then
        match decodeLength data offset with
        | Ok (lengthValue, offset) =>
            match decodeEntries TextDecoder_decode fracToString f data 0
                                lengthValue offset [] with
            | Some (Ok (map, offset)) => Some (Ok (VObject map, offset))
            | Some (Throw m) => Some (Throw m)
            | None => None
            end
        | Throw m => Some (Throw m)
        end
      else if majorType =? 6 then
        match decodeLength data offset with
        | Ok (tagValue, tagOffset) =>
            match decodeValue TextDecoder_decode fracToString f data
                              tagOffset with
            | Some (Ok (v, offset)) =>
                Some (Ok (VObject [(str "tag", tagValue);
                                   (str "value", v)], offset))
            | Some (Throw m) => Some (Throw m)
            | None => None
            end
        | Throw m => Some (Throw m)
        end
      else Some (decodeFloatSimple data offset).
Proof. reflexivity. Qed.

Lemma decodeItems_S (f : nat) (data : list Z) (i : Z) (lengthValue : value)
      (offset : num) (array : list value) :
  decodeItems TextDecoder_decode fracToString (S f) data i lengthValue
              offset array
  = if indexBelow i lengthValue then
      match decodeValue TextDecoder_decode fracToString f data offset with
      | Some (Ok (v, offset)) =>
          decodeItems TextDecoder_decode fracToString f data (i + 1)
                      lengthValue offset (array ++ [v])
      | Some (Throw m) => Some (Throw m)
      | None => None
      end
    else Some (Ok (array, offset)).
Proof. reflexivity. Qed.

Lemma decodeEntries_S (f : nat) (data : list Z) (i : Z)
      (lengthValue : value) (offset : num)
      (map : list (jsstring * value)) :
  decodeEntries TextDecoder_decode fracToString (S f) data i lengthValue
                offset map
  = if indexBelow i lengthValue then
      match decodeValue TextDecoder_decode fracToString f data offset with
      | Some (Ok (key, offset)) =>
          match decodeValue TextDecoder_decode fracToString f data offset
          with
          | Some (Ok (v, offset)) =>
              decodeEntries TextDecoder_decode fracToString f data (i + 1)
                            lengthValue offset
                            (assign map (toPropertyKey fracToString key) v)
          | Some (Throw m) => Some (Throw m)
          | None => None
          end
      | Some (Throw m) => Some (Throw m)
      | None => None
      end
    else Some (Ok (map, offset)).
Proof. reflexivity. Qed.

(** A result reached with some fuel is reached with more. *)
Lemma fuel_step (f : nat) :
  (forall data offset r,
      decodeValue TextDecoder_decode fracToString f data offset = Some r ->
      decodeValue TextDecoder_decode fracToString (S f) data offset = Some r)
  /\ (forall data i lv offset array r,
         decodeItems TextDecoder_decode fracToString f data i lv offset array
         = Some r ->
         decodeItems TextDecoder_decode fracToString (S f) data i lv offset
                     array = Some r)
  /\ (forall data i lv offset map r,
         decodeEntries TextDecoder_decode fracToString f data i lv offset map
         = Some r ->
         decodeEntries TextDecoder_decode fracToString (S f) data i lv offset
                       map = Some r).
Proof.
  induction f as [| f (IHv & IHi & IHe)].
  - repeat split; intros; discriminate.
  - split; [| split].
    + intros data offset r.
      rewrite (decodeValue_S (S f)), (decodeValue_S f). cbv zeta.
      destruct (num_geb offset (Int (len data))); [trivial |].
      repeat match goal with
             | |- context [if ?c =? ?k then _ else _] =>
                 destruct (c =? k); [trivial |]
             end.
      * destruct (decodeLength data offset) as [[lv off] | m]; [| trivial].
        destruct (decodeItems _ _ f data 0 lv off []) as [r0 |] eqn:E;
          [| discriminate].
        rewrite (IHi _ _ _ _ _ _ E). trivial.
      * destruct (decodeLength data offset) as [[lv off] | m]; [| trivial].
        destruct (decodeEntries _ _ f data 0 lv off []) as [r0 |] eqn:E;
          [| discriminate].
        rewrite (IHe _ _ _ _ _ _ E). trivial.
      * destruct (decodeLength data offset) as [[lv off] | m]; [| trivial].
        destruct (decodeValue _ _ f data off) as [r0 |] eqn:E;
          [| discriminate].
        rewrite (IHv _ _ _ E). trivial.
      * trivial.
    + intros data i lv offset array r.
      rewrite (decodeItems_S (S f)), (decodeItems_S f).
      destruct (indexBelow i lv); [| trivial].
      destruct (decodeValue _ _ f data offset) as [r0 |] eqn:E;
        [| discriminate].
      rewrite (IHv _ _ _ E).
      destruct r0 as [[v off] | m]; [| trivial].
      apply IHi.
    + intros data i lv offset map r.
      rewrite (decodeEntries_S (S f)), (decodeEntries_S f).
      destruct (indexBelow i lv); [| trivial].
      destruct (decodeValue _ _ f data offset) as [r0 |] eqn:E;
        [| discriminate].
      rewrite (IHv _ _ _ E).
      destruct r0 as [[key off] | m]; [| trivial].
      destruct (decodeValue _ _ f data off) as [r1 |] eqn:E1;
        [| discriminate].
      rewrite (IHv _ _ _ E1).
      destruct r1 as [[v off1] | m]; [| trivial].
      apply IHe.
Qed.

Lemma decodeValue_more (f k : nat) (data : list Z) (offset : num)
      (r : result (value * num)) :
  decodeValue TextDecoder_decode fracToString f data offset = Some r ->
  decodeValue TextDecoder_decode fracToString (f + k) data offset = Some r.
Proof.
  intros H. induction k as [| k IH].
  - rewrite Nat.add_0_r. exact H.
  - rewrite Nat.add_succ_r. apply (proj1 (fuel_step (f + k))). exact IH.
Qed.

Lemma decodeItems_more (f k : nat) (data : list Z) (i : Z) (lv : value)
      (offset : num) (array : list value)
      (r : result (list value * num)) :
  decodeItems TextDecoder_decode fracToString f data i lv offset array
  = Some r ->
  decodeItems TextDecoder_decode fracToString (f + k) data i lv offset array
  = Some r.
Proof.
  intros H. induction k as [| k IH].
  - rewrite Nat.add_0_r. exact H.
  - rewrite Nat.add_succ_r.
    apply (proj1 (proj2 (fuel_step (f + k)))). exact IH.
Qed.

Lemma decodeEntries_more (f k : nat) (data : list Z) (i : Z) (lv : value)
      (offset : num) (map : list (jsstring * value))
      (r : result (list (jsstring * value) * num)) :
  decodeEntries TextDecoder_decode fracToString f data i lv offset map
  = Some r ->
  decodeEntries TextDecoder_decode fracToString (f + k) data i lv offset map
  = Some r.
Proof.
  intros H. induction k as [| k IH].
  - rewrite Nat.add_0_r. exact H.
  - rewrite Nat.add_succ_r.
    apply (proj2 (proj2 (fuel_step (f + k)))). exact IH.
Qed.

(** The first step of [_decodeValue] at an offset inside the data, for
    the major type [mt] found there. *)
Lemma decodeValue_dispatch (f : nat) (data : list Z) (off mt : Z) :
  off < len data ->
  band (sar (int_of (get data off)) 5) 0x07 = mt ->
  decodeValue TextDecoder_decode fracToString (S f) data (Int off)
  = if mt =? 0 then Some (decodeUnsignedInt data (Int off))
    else if mt =? 1 then Some (decodeNegativeInt data (Int off))
    else if mt =? 2 then Some (decodeByteString data (Int off))
    else if mt =? 3
    then Some (decodeTextString TextDecoder_decode data (Int off))
    else if mt =? 4 then
      match decodeLength data (Int off) with
      | Ok (lengthValue, offset) =>
          match decodeItems TextDecoder_decode fracToString f data 0
                            lengthValue offset [] with
          | Some (Ok (array, offset)) => Some (Ok (VArray array, offset))
          | Some (Throw m) => Some (Throw m)
          | None => None
          end
      | Throw m => Some (Throw m)
      end
    else if mt =? 5 then
      match decodeLength data (Int off) with
      | Ok (lengthValue, offset) =>
          match decodeEntries TextDecoder_decode fracToString f data 0
                              lengthValue offset [] with
          | Some (Ok (map, offset)) => Some (Ok (VObject map, offset))
          | Some (Throw m) => Some (Throw m)
          | None => None
          end
      | Throw m => Some (Throw m)
      end
    else if mt =? 6 then
      match decodeLength data (Int off) with
      | Ok (tagValue, tagOffset) =>
          match decodeValue TextDecoder_decode fracToString f data
                            tagOffset with
          | Some (Ok (v, offset)) =>
              Some (Ok (VObject [(str "tag", tagValue);
                                 (str "value", v)], offset))
          | Some (Throw m) => Some (Throw m)
          | None => None
          end
      | Throw m => Some (Throw m)
      end
    else Some (decodeFloatSimple data (Int off)).
Proof.
  intros Hlt Hm. rewrite decodeValue_S. cbn [num_geb get_num].
  destruct (Z.leb_spec (len data) off); [lia |].
  cbv zeta. rewrite Hm. reflexivity.
Qed.

(** Integers of 32 signed bits. *)
Lemma int_at (z : Z) (pre post : list Z) (f : nat) :
  - 2 ^ 31 <= z < 2 ^ 31 -> len pre <= 2 ^ 31 ->
  Forall isByte (encodeNumber (Int z))
  /\ decodeValue TextDecoder_decode fracToString (S f)
                 (pre ++ encodeNumber (Int z) ++ post) (Int (len pre))
     = Some (Ok (VNum (Int z),
                 Int (len pre + len (encodeNumber (Int z))))).
Proof.
  intros Hz Hpre. change (2 ^ 31) with 2147483648 in Hz, Hpre.
  pose proof (len_nonneg pre) as Hp0.
  assert (Hpre9 : len pre + 9 < 2 ^ 53)
    by (change (2 ^ 53) with 9007199254740992; lia).
  cbn [encodeNumber].
  destruct (Z.leb_spec 0 z) as [Hpos | Hneg].
  - unfold encodeUnsignedInt.
    destruct (argument_at 0 z pre post
                (fun ai => Throw ("Invalid additional info: " ++ dec_string ai))
                ltac:(lia) ltac:(change (2 ^ 31) with 2147483648; lia) Hpre9)
      as (Hb & Hl & Hm & Hd).
    cbv zeta in Hb, Hl, Hm, Hd.
    split; [exact Hb |].
    rewrite (decodeValue_dispatch f _ (len pre) 0);
      [| rewrite !len_app; pose proof (len_nonneg post); lia | exact Hm].
    cbn [Z.eqb]. unfold decodeUnsignedInt. rewrite Hd. reflexivity.
  - assert (Hv : round53 (- z - 1) = - z - 1)
      by (apply round53_small; change (2 ^ 53) with 9007199254740992; lia).
    rewrite Hv. unfold encodeNegativeInt.
    destruct (argument_at 1 (- z - 1) pre post
                (fun ai => Throw ("Invalid additional info: " ++ dec_string ai))
                ltac:(lia) ltac:(change (2 ^ 31) with 2147483648; lia) Hpre9)
      as (Hb & Hl & Hm & Hd).
    cbv zeta in Hb, Hl, Hm, Hd.
    split; [exact Hb |].
    rewrite (decodeValue_dispatch f _ (len pre) 1);
      [| rewrite !len_app; pose proof (len_nonneg post); lia | exact Hm].
    cbn [Z.eqb Pos.eqb]. unfold decodeNegativeInt, decodeUnsignedInt.
    rewrite Hd.
    replace (- (- z - 1) - 1) with z by lia.
    rewrite round53_small
      by (change (2 ^ 53) with 9007199254740992; lia).
    reflexivity.
Qed.

(** Items of major type 7. *)
Lemma simple_head (ai : Z) (pre rest : list Z) (f : nat) :
  0 <= ai < 32 ->
  let data := pre ++ bor (shl 7 5) ai :: rest in
  isByte (bor (shl 7 5) ai)
  /\ band (int_of (get_num data (Int (len pre)))) 0x1F = ai
  /\ decodeValue TextDecoder_decode fracToString (S f) data (Int (len pre))
     = Some (decodeFloatSimple data (Int (len pre))).
Proof.
  intros Hai. cbv zeta.
  destruct (initial_byte 7 ai ltac:(lia) Hai) as (Hb & Hm & Hl).
  cbv zeta in Hb, Hm, Hl.
  assert (Hget : get (pre ++ bor (shl 7 5) ai :: rest) (len pre)
                 = Some (bor (shl 7 5) ai)) by apply get_app_head.
  split; [exact Hb |].
  split; [cbn [get_num]; rewrite Hget; exact Hl |].
  rewrite (decodeValue_dispatch f _ (len pre) 7).
  - reflexivity.
  - rewrite len_app, len_cons. pose proof (len_nonneg rest). lia.
  - rewrite Hget. exact Hm.
Qed.

Lemma simple_at (v : value) (pre post : list Z) (f : nat) :
  match v with
  | VUndefined | VNull | VBool _ => True
  | _ => False
  end ->
  len pre <= 2 ^ 31 ->
  Forall isByte (encodeValue v)
  /\ decodeValue TextDecoder_decode fracToString (S f)
                 (pre ++ encodeValue v ++ post) (Int (len pre))
     = Some (Ok (v, Int (len pre + len (encodeValue v)))).
Proof.
  intros Hv Hpre. change (2 ^ 31) with 2147483648 in Hpre.
  pose proof (len_nonneg pre) as Hp0.
  assert (Hoff : num_add (Int (len pre)) (Int 1) = Int (len pre + 1))
    by (apply offset_add; change (2 ^ 53) with 9007199254740992; lia).
  destruct v as [| | [|] | | | | |]; try contradiction;
    cbn [encodeValue app];
    match goal with
    | |- _ /\ decodeValue _ _ _ (pre ++ bor (shl 7 5) ?ai :: _) _ = _ =>
        destruct (simple_head ai pre post f ltac:(lia)) as (Hb & Ha & Hd)
    end;
    cbv zeta in Hb, Ha, Hd;
    (split; [apply Forall_cons; [exact Hb | constructor] |]);
    rewrite Hd; unfold decodeFloatSimple; rewrite Ha, Hoff;
    reflexivity.
Qed.

(** The eight bytes of a 64-bit pattern, most significant first, put
    together again. *)
Lemma horner_step (x k k' : Z) :
  0 <= x -> 0 <= k -> k' = k + 1 ->
  x / 256 ^ k' * 256 + (x / 256 ^ k) mod 256 = x / 256 ^ k.
Proof.
  intros Hx Hk ->.
  rewrite Z.pow_add_r by lia. change (256 ^ 1) with 256.
  rewrite <- Z.div_div by lia.
  pose proof (Z.div_mod (x / 256 ^ k) 256 ltac:(lia)). lia.
Qed.

Lemma float_bytes (bits : Z) :
  0 <= bits < 2 ^ 64 ->
  fold_left (fun acc b => acc * 256 + b mod 256)
            (map (fun i => (bits / 256 ^ (7 - i)) mod 256)
                 [0; 1; 2; 3; 4; 5; 6; 7]) 0
  = bits.
Proof.
  intros Hb. cbn [map fold_left Z.sub Z.opp Z.add Z.pos_sub Pos.pred_double
                  Z.succ_double Z.pred_double Z.double].
  rewrite !Z.mod_mod by lia.
  assert (H7 : (bits / 256 ^ 7) mod 256 = bits / 256 ^ 7).
  { apply Z.mod_small. split; [apply Z.div_pos; lia |].
    apply Z.div_lt_upper_bound; [lia |].
    change (256 ^ 7 * 256) with (2 ^ 64). lia. }
  rewrite Z.mul_0_l, Z.add_0_l, H7.
  rewrite (horner_step bits 6 7), (horner_step bits 5 6),
          (horner_step bits 4 5), (horner_step bits 3 4),
          (horner_step bits 2 3), (horner_step bits 1 2),
          (horner_step bits 0 1) by lia.
  change (256 ^ 0) with 1. apply Z.div_1_r.
Qed.

Lemma encodeFloat_bytes (bits : Z) : Forall isByte (encodeFloat bits).
Proof.
  unfold encodeFloat. apply Forall_cons; [unfold isByte; cbn; lia |].
  apply Forall_forall. intros b Hb. apply in_map_iff in Hb.
  destruct Hb as (i & <- & _). unfold isByte.
  apply Z.mod_pos_bound. lia.
Qed.

Lemma float_at (bits : Z) (pre post : list Z) (f : nat) :
  0 <= bits < 2 ^ 64 -> len pre <= 2 ^ 31 ->
  decodeValue TextDecoder_decode fracToString (S f)
              (pre ++ encodeFloat bits ++ post) (Int (len pre))
  = Some (Ok (VNum (float64_of_bits bits),
              Int (len pre + len (encodeFloat bits)))).
Proof.
  intros Hbits Hpre. change (2 ^ 31) with 2147483648 in Hpre.
  pose proof (len_nonneg pre) as Hp0.
  assert (Hoff : num_add (Int (len pre)) (Int 1) = Int (len pre + 1))
    by (apply offset_add; change (2 ^ 53) with 9007199254740992; lia).
  assert (Hoff8 : num_add (Int (len pre + 1)) (Int 8) = Int (len pre + 9)).
  { rewrite offset_add by (change (2 ^ 53) with 9007199254740992; lia).
    f_equal. lia. }
  set (l8 := map (fun i => (bits / 256 ^ (7 - i)) mod 256)
                 [0; 1; 2; 3; 4; 5; 6; 7]).
  assert (Henc : encodeFloat bits = bor (shl 7 5) 27 :: l8) by reflexivity.
  rewrite Henc. cbn [app].
  destruct (simple_head 27 pre (l8 ++ post) f ltac:(lia)) as (_ & Ha & Hd).
  cbv zeta in Ha, Hd. rewrite Hd.
  unfold decodeFloatSimple. rewrite Ha, Hoff, Hoff8.
  cbn [Z.ltb Z.eqb Z.compare Pos.compare Pos.eqb Pos.compare_cont].
  assert (Hbyte : forall i, 0 <= i < 8 ->
             byteAt (pre ++ bor (shl 7 5) 27 :: l8 ++ post)
                    (Int (len pre + 1)) i
             = (bits / 256 ^ (7 - i)) mod 256).
  { intros i Hi. unfold byteAt.
    rewrite offset_add by (change (2 ^ 53) with 9007199254740992; lia).
    cbn [get_num].
    replace (pre ++ bor (shl 7 5) 27 :: l8 ++ post)
      with ((pre ++ [bor (shl 7 5) 27]) ++ l8 ++ post)
      by (rewrite <- app_assoc; reflexivity).
    replace (len pre + 1 + i) with (len (pre ++ [bor (shl 7 5) 27]) + i)
      by (rewrite len_app; reflexivity).
    rewrite get_app_at by lia.
    assert (Hcases : i = 0 \/ i = 1 \/ i = 2 \/ i = 3 \/ i = 4 \/ i = 5
                     \/ i = 6 \/ i = 7) by lia.
    repeat (destruct Hcases as [-> | Hcases]; [reflexivity |]).
    subst i. reflexivity. }
  cbv zeta. cbn [fold_left].
  rewrite !Hbyte by lia.
  pose proof (float_bytes bits Hbits) as HF.
  cbn [map fold_left] in HF. rewrite HF.
  replace (len (bor (shl 7 5) 27 :: l8)) with 9 by reflexivity.
  reflexivity.
Qed.

(** Byte strings and text strings. *)
Lemma bytes_at (mt : Z) (bs pre post : list Z) :
  0 <= mt < 8 -> len pre + len (encodeTypeAndValue mt (len bs) ++ bs) <= 2 ^ 31 ->
  let enc := encodeTypeAndValue mt (len bs) ++ bs in
  let data := pre ++ enc ++ post in
  Forall isByte (encodeTypeAndValue mt (len bs))
  /\ len pre < len data
  /\ band (sar (int_of (get data (len pre))) 5) 0x07 = mt
  /\ decodeLength data (Int (len pre))
     = Ok (VNum (Int (len bs)),
           Int (len pre + len (encodeTypeAndValue mt (len bs))))
  /\ num_gtb (Int (len pre + len enc)) (Int (len data)) = false
  /\ slice_num data
               (Int (len pre + len (encodeTypeAndValue mt (len bs))))
               (Int (len pre + len enc)) = bs.
Proof.
  intros Hmt Hsize. cbv zeta.
  change (2 ^ 31) with 2147483648 in Hsize.
  pose proof (len_nonneg pre) as Hp0.
  pose proof (len_nonneg bs) as Hb0.
  pose proof (len_nonneg post) as Hq0.
  pose proof (encodeTypeAndValue_nonempty mt (len bs)) as Hh0.
  rewrite len_app in Hsize.
  destruct (argument_at mt (len bs) pre (bs ++ post)
              (fun ai =>
                 if ai =? 31
                 then Ok (VNum (Int (-1)), num_add (Int (len pre)) (Int 1))
                 else Throw ("Invalid length encoding: " ++ dec_string ai))
              Hmt ltac:(change (2 ^ 31) with 2147483648; lia)
              ltac:(change (2 ^ 53) with 9007199254740992; lia))
    as (Hb & Hl & Hm & Hd).
  cbv zeta in Hb, Hl, Hm, Hd.
  rewrite <- !app_assoc.
  split; [exact Hb |].
  split; [rewrite !len_app; lia |].
  split; [exact Hm |].
  split; [exact Hd |].
  split.
  - unfold num_gtb, num_ltb. rewrite !len_app. apply Z.ltb_ge. lia.
  - cbn [slice_num]. rewrite len_app, Z.add_assoc.
    rewrite (app_assoc pre).
    rewrite <- (len_app pre).
    apply slice_app_mid.
Qed.

Lemma bytestring_at (bs pre post : list Z) (f : nat) :
  Forall isByte bs ->
  len pre + len (encodeByteString bs) <= 2 ^ 31 ->
  Forall isByte (encodeByteString bs)
  /\ decodeValue TextDecoder_decode fracToString (S f)
                 (pre ++ encodeByteString bs ++ post) (Int (len pre))
     = Some (Ok (VBytes bs, Int (len pre + len (encodeByteString bs)))).
Proof.
  intros Hbs Hsize. unfold encodeByteString in *.
  destruct (bytes_at 2 bs pre post ltac:(lia) Hsize)
    as (Hb & Hlt & Hm & Hd & Hgt & Hsl).
  cbv zeta in Hlt, Hm, Hd, Hgt, Hsl.
  split; [apply Forall_app; split; assumption |].
  rewrite (decodeValue_dispatch f _ (len pre) 2 Hlt Hm).
  cbn [Z.eqb Pos.eqb]. unfold decodeByteString. rewrite Hd.
  cbn [asNum].
  assert (Hend : num_add (Int (len pre + len (encodeTypeAndValue 2 (len bs))))
                         (Int (len bs))
                 = Int (len pre + len (encodeTypeAndValue 2 (len bs) ++ bs))).
  { pose proof (len_nonneg pre). pose proof (len_nonneg bs).
    pose proof (encodeTypeAndValue_nonempty 2 (len bs)).
    rewrite len_app in *.
    rewrite offset_add
      by (change (2 ^ 31) with 2147483648 in Hsize;
          change (2 ^ 53) with 9007199254740992; lia).
    f_equal. lia. }
  rewrite Hend. cbv zeta. rewrite Hgt, Hsl. reflexivity.
Qed.

Lemma string_at (s : jsstring) (pre post : list Z) (f : nat) :
  Forall (fun c => 0 <= c < 65536) s ->
  TextDecoder_decode (TextEncoder_encode s) = s ->
  len pre + len (encodeString s) <= 2 ^ 31 ->
  Forall isByte (encodeString s)
  /\ decodeValue TextDecoder_decode fracToString (S f)
                 (pre ++ encodeString s ++ post) (Int (len pre))
     = Some (Ok (VString s, Int (len pre + len (encodeString s)))).
Proof.
  intros Hs Htext Hsize. unfold encodeString in *. cbv zeta in *.
  set (bs := TextEncoder_encode s) in *.
  destruct (bytes_at 3 bs pre post ltac:(lia) Hsize)
    as (Hb & Hlt & Hm & Hd & Hgt & Hsl).
  cbv zeta in Hlt, Hm, Hd, Hgt, Hsl.
  split.
  { apply Forall_app; split; [exact Hb |].
    apply CoAPFacts.TextEncoder_encode_bytes. exact Hs. }
  rewrite (decodeValue_dispatch f _ (len pre) 3 Hlt Hm).
  cbn [Z.eqb Pos.eqb]. unfold decodeTextString. rewrite Hd.
  cbn [asNum].
  assert (Hend : num_add (Int (len pre + len (encodeTypeAndValue 3 (len bs))))
                         (Int (len bs))
                 = Int (len pre + len (encodeTypeAndValue 3 (len bs) ++ bs))).
  { pose proof (len_nonneg pre). pose proof (len_nonneg bs).
    pose proof (encodeTypeAndValue_nonempty 3 (len bs)).
    rewrite len_app in *.
    rewrite offset_add
      by (change (2 ^ 31) with 2147483648 in Hsize;
          change (2 ^ 53) with 9007199254740992; lia).
    f_equal. lia. }
  rewrite Hend. cbv zeta. rewrite Hgt, Hsl, Htext. reflexivity.
Qed.

(** The loop of [_decodeArray] over the encoded items. *)
Lemma items_at (items : list value) :
  Forall (fun v =>
            forall pre post,
              len pre + len (encodeValue v) <= 2 ^ 31 ->
              exists f,
                decodeValue TextDecoder_decode fracToString f
                            (pre ++ encodeValue v ++ post) (Int (len pre))
                = Some (Ok (v, Int (len pre + len (encodeValue v)))))
         items ->
  forall (pre post : list Z) (acc : list value) (i n : Z),
    i + Z.of_nat (length items) = n ->
    len pre + len (flat_map encodeValue items) <= 2 ^ 31 ->
    exists f,
      decodeItems TextDecoder_decode fracToString f
                  (pre ++ flat_map encodeValue items ++ post) i
                  (VNum (Int n)) (Int (len pre)) acc
      = Some (Ok (acc ++ items,
                  Int (len pre + len (flat_map encodeValue items)))).
Proof.
  induction 1 as [| x r Hx Hr IH]; intros pre post acc i n Hn Hsize.
  - exists 1%nat. rewrite decodeItems_S.
    unfold indexBelow. cbn [asNum num_ltb length Z.of_nat] in *.
    destruct (Z.ltb_spec i n); [lia |].
    cbn [flat_map app]. rewrite app_nil_r.
    change (len []) with 0. rewrite Z.add_0_r. reflexivity.
  - cbn [flat_map] in *. rewrite len_app in Hsize.
    pose proof (len_nonneg (flat_map encodeValue r)) as Hr0.
    pose proof (len_nonneg (encodeValue x)) as Hx0.
    destruct (Hx pre (flat_map encodeValue r ++ post) ltac:(lia))
      as (f1 & H1).
    destruct (IH (pre ++ encodeValue x) post (acc ++ [x]) (i + 1) n
                 ltac:(cbn [length] in Hn; lia)
                 ltac:(rewrite len_app; lia))
      as (f2 & H2).
    exists (S (f1 + f2)). rewrite decodeItems_S.
    unfold indexBelow. cbn [asNum num_ltb].
    destruct (Z.ltb_spec i n); [| cbn [length] in Hn; lia].
    rewrite <- app_assoc.
    rewrite (decodeValue_more f1 f2 _ _ _ H1).
    rewrite <- !app_assoc in H2. cbn [app] in H2.
    rewrite len_app in H2.
    rewrite Nat.add_comm.
    rewrite (decodeItems_more f2 f1 _ _ _ _ _ _ H2).
    rewrite len_app. do 4 f_equal. lia.
Qed.

Lemma obj_set_fresh (acc : list (jsstring * value)) (k : jsstring)
      (v : value) :
  (forall p, In p acc -> jsstring_eqb (fst p) k = false) ->
  obj_set acc k v = acc ++ [(k, v)].
Proof.
  induction acc as [| [k' v'] acc IH]; intros Hfresh; [reflexivity |].
  cbn [obj_set app].
  pose proof (Hfresh (k', v') (or_introl eq_refl)) as Hf.
  cbn [fst] in Hf. rewrite Hf.
  rewrite IH; [reflexivity |].
  intros p Hp. apply Hfresh. right. exact Hp.
Qed.

(** The loop of [_decodeMap] over the encoded entries. *)
Lemma entries_at (props : list (jsstring * value)) :
  Forall (fun p =>
            forall pre post,
              len pre + len (encodeValue (snd p)) <= 2 ^ 31 ->
              exists f,
                decodeValue TextDecoder_decode fracToString f
                            (pre ++ encodeValue (snd p) ++ post)
                            (Int (len pre))
                = Some (Ok (snd p,
                            Int (len pre + len (encodeValue (snd p))))))
         props ->
  Forall (fun p =>
            Forall (fun c => 0 <= c < 65536) (fst p)
            /\ TextDecoder_decode (TextEncoder_encode (fst p)) = fst p
            /\ jsstring_eqb (fst p) (str "__proto__") = false)
         props ->
  distinct (map fst props) = true ->
  forall (pre post : list Z) (acc : list (jsstring * value)) (i n : Z),
    (forall p, In p acc ->
               existsb (jsstring_eqb (fst p)) (map fst props) = false) ->
    i + Z.of_nat (length props) = n ->
    len pre
    + len (flat_map (fun p => encodeString (fst p) ++ encodeValue (snd p))
                    props) <= 2 ^ 31 ->
    exists f,
      decodeEntries TextDecoder_decode fracToString f
                    (pre ++ flat_map (fun p => encodeString (fst p)
                                               ++ encodeValue (snd p)) props
                         ++ post)
                    i (VNum (Int n)) (Int (len pre)) acc
      = Some (Ok (acc ++ props,
                  Int (len pre
                       + len (flat_map
                                (fun p => encodeString (fst p)
                                          ++ encodeValue (snd p)) props)))).
Proof.
  induction 1 as [| [k x] r Hx Hr IH];
    intros Hkeys Hdist pre post acc i n Hacc Hn Hsize.
  - exists 1%nat. rewrite decodeEntries_S.
    unfold indexBelow. cbn [asNum num_ltb length Z.of_nat] in *.
    destruct (Z.ltb_spec i n); [lia |].
    cbn [flat_map app]. rewrite app_nil_r.
    change (len []) with 0. rewrite Z.add_0_r. reflexivity.
  - apply Forall_cons_iff in Hkeys.
    destruct Hkeys as [(Hk1 & Hk2 & Hk3) Hkeys'].
    cbn [fst snd] in *.
    cbn [map fst distinct] in Hdist.
    apply andb_prop in Hdist. destruct Hdist as [Hfresh Hdist].
    apply negb_true_iff in Hfresh.
    cbn [flat_map fst snd] in *. rewrite !len_app in Hsize.
    set (body := flat_map (fun p => encodeString (fst p)
                                    ++ encodeValue (snd p)) r) in *.
    pose proof (len_nonneg body) as Hr0.
    pose proof (len_nonneg (encodeValue x)) as Hx0.
    pose proof (len_nonneg (encodeString k)) as Hk0.
    pose proof (len_nonneg pre) as Hp0.
    destruct (string_at k pre (encodeValue x ++ body ++ post) 0 Hk1 Hk2
                        ltac:(lia)) as (_ & Hkey).
    destruct (Hx (pre ++ encodeString k) (body ++ post)
                 ltac:(rewrite len_app; lia)) as (f1 & H1).
    destruct (IH Hkeys' Hdist (pre ++ encodeString k ++ encodeValue x) post
                 (acc ++ [(k, x)]) (i + 1) n) as (f2 & H2).
    { intros p Hp. apply in_app_or in Hp. destruct Hp as [Hp | [<- | []]].
      - specialize (Hacc p Hp). cbn [map fst existsb] in Hacc.
        apply orb_false_iff in Hacc. tauto.
      - exact Hfresh. }
    { cbn [length] in Hn. lia. }
    { rewrite !len_app. lia. }
    exists (S (1 + (f1 + f2))). rewrite decodeEntries_S.
    unfold indexBelow. cbn [asNum num_ltb].
    destruct (Z.ltb_spec i n); [| cbn [length] in Hn; lia].
    rewrite <- !app_assoc.
    rewrite (decodeValue_more 1 (f1 + f2) _ _ _ Hkey).
    rewrite <- !app_assoc in H1. rewrite len_app in H1.
    replace (1 + (f1 + f2))%nat with (f1 + (1 + f2))%nat by lia.
    rewrite (decodeValue_more f1 (1 + f2) _ _ _ H1).
    cbn [toPropertyKey].
    assert (Hassign : assign acc k x = acc ++ [(k, x)]).
    { unfold assign. rewrite Hk3. apply obj_set_fresh.
      intros p Hp. specialize (Hacc p Hp). cbn [map fst existsb] in Hacc.
      apply orb_false_iff in Hacc. tauto. }
    rewrite Hassign.
    rewrite <- !app_assoc in H2. cbn [app] in H2.
    rewrite !len_app in H2.
    replace (f1 + (1 + f2))%nat with (f2 + (1 + f1))%nat by lia.
    rewrite Z.add_assoc in H2.
    rewrite (decodeEntries_more f2 (1 + f1) _ _ _ _ _ _ H2).
    rewrite !len_app. do 4 f_equal. lia.
Qed.

Lemma codeUnits (s : jsstring) :
  forallb codeUnit s = true -> Forall (fun c => 0 <= c < 65536) s.
Proof.
  intros H. apply Forall_forall. intros c Hc.
  rewrite forallb_forall in H. specialize (H c Hc).
  unfold codeUnit in H. apply andb_prop in H. lia.
Qed.

Lemma bytes_of (bs : list Z) : forallb byteb bs = true -> Forall isByte bs.
Proof.
  intros H. apply Forall_forall. intros c Hc.
  rewrite forallb_forall in H. specialize (H c Hc).
  unfold byteb in H. apply andb_prop in H. unfold isByte. lia.
Qed.

(** Every plain value is written as bytes, and read back wherever its
    encoding stands in a buffer. *)
Lemma plain_decodes (v : value) :
  plain v = true ->
  Forall (fun s => TextDecoder_decode (TextEncoder_encode s) = s)
         (strings v) ->
  (len (encodeValue v) <= 2 ^ 31 -> Forall isByte (encodeValue v))
  /\ (forall pre post,
         len pre + len (encodeValue v) <= 2 ^ 31 ->
         exists f,
           decodeValue TextDecoder_decode fracToString f
                       (pre ++ encodeValue v ++ post) (Int (len pre))
           = Some (Ok (v, Int (len pre + len (encodeValue v))))).
Proof.
  induction v as [| | b | n | s | bs | items IH | props IH]
    using value_induction; intros Hplain Htext.
  - split.
    + intros _. apply (simple_at VUndefined [] [] 0 I).
      change (len []) with 0. lia.
    + intros pre post Hsize. exists 1%nat.
      apply (simple_at VUndefined pre post 0 I).
      pose proof (encodeValue_nonempty VUndefined). lia.
  - split.
    + intros _. apply (simple_at VNull [] [] 0 I).
      change (len []) with 0. lia.
    + intros pre post Hsize. exists 1%nat.
      apply (simple_at VNull pre post 0 I).
      pose proof (encodeValue_nonempty VNull). lia.
  - split.
    + intros _. apply (simple_at (VBool b) [] [] 0 I).
      change (len []) with 0. lia.
    + intros pre post Hsize. exists 1%nat.
      apply (simple_at (VBool b) pre post 0 I).
      pose proof (encodeValue_nonempty (VBool b)). lia.
  - destruct n as [z | bits |]; cbn [plain] in Hplain; cbn [encodeValue].
    + assert (Hz : - 2 ^ 31 <= z < 2 ^ 31).
      { apply andb_prop in Hplain. lia. }
      split.
      * intros _. apply (int_at z [] [] 0 Hz).
        change (len []) with 0. lia.
      * intros pre post Hsize. exists 1%nat.
        apply (int_at z pre post 0 Hz).
        pose proof (encodeValue_nonempty (VNum (Int z))) as Hne.
        cbn [encodeValue] in Hne. lia.
    + apply andb_prop in Hplain. destruct Hplain as [Hrange Hbits].
      apply andb_prop in Hrange.
      assert (Hfloat : float64_of_bits bits = Frac bits).
      { destruct (float64_of_bits bits) as [z | b' |]; cbn in Hbits;
          try discriminate.
        apply Z.eqb_eq in Hbits. congruence. }
      split; [intros _; apply encodeFloat_bytes |].
      intros pre post Hsize. exists 1%nat. cbn [encodeNumber].
      rewrite (float_at bits pre post 0); [rewrite Hfloat; reflexivity | lia |].
      pose proof (len_nonneg (encodeFloat bits)). cbn [encodeNumber] in Hsize.
      lia.
    + split; [intros _; apply encodeFloat_bytes |].
      intros pre post Hsize. exists 1%nat. cbn [encodeNumber] in *.
      rewrite (float_at nan_bits pre post 0); [reflexivity | | ].
      * unfold nan_bits. lia.
      * pose proof (len_nonneg (encodeFloat nan_bits)). lia.
  - cbn [plain] in Hplain. cbn [strings] in Htext. cbn [encodeValue].
    apply codeUnits in Hplain.
    apply Forall_cons_iff in Htext. destruct Htext as [Hs _].
    split.
    + intros Hsize. apply (string_at s [] [] 0 Hplain Hs).
      change (len []) with 0. lia.
    + intros pre post Hsize. exists 1%nat.
      apply (string_at s pre post 0 Hplain Hs Hsize).
  - cbn [plain] in Hplain. cbn [encodeValue]. apply bytes_of in Hplain.
    split.
    + intros Hsize. apply (bytestring_at bs [] [] 0 Hplain).
      change (len []) with 0. lia.
    + intros pre post Hsize. exists 1%nat.
      apply (bytestring_at bs pre post 0 Hplain Hsize).
  - cbn [plain] in Hplain. cbn [strings] in Htext. cbn [encodeValue].
    rewrite forallb_forall in Hplain.
    rewrite Forall_forall in IH, Htext.
    assert (Hitem : forall x, In x items ->
               (len (encodeValue x) <= 2 ^ 31 -> Forall isByte (encodeValue x))
               /\ (forall pre post,
                      len pre + len (encodeValue x) <= 2 ^ 31 ->
                      exists f,
                        decodeValue TextDecoder_decode fracToString f
                                    (pre ++ encodeValue x ++ post)
                                    (Int (len pre))
                        = Some (Ok (x, Int (len pre + len (encodeValue x)))))).
    { intros x Hx. apply (IH x Hx (Hplain x Hx)).
      apply Forall_forall. intros t Ht. apply Htext.
      apply in_flat_map. exists x. split; assumption. }
    set (n := Z.of_nat (length items)).
    set (body := flat_map encodeValue items).
    assert (Hcount : n <= len body)
      by (apply count_size; apply encodeValue_nonempty).
    pose proof (encodeTypeAndValue_nonempty 4 n) as Hh0.
    pose proof (len_nonneg body) as Hb0.
    assert (Hn0 : 0 <= n) by (unfold n; lia).
    split.
    + intros Hsize. rewrite len_app in Hsize.
      apply Forall_app. split.
      * apply (argument_at 4 n [] [] (fun _ => Throw ""));
          [lia | lia | change (len []) with 0; lia].
      * apply Forall_forall. intros c Hc. apply in_flat_map in Hc.
        destruct Hc as (x & Hx & Hc).
        pose proof (part_size encodeValue items x Hx) as Hpart.
        fold body in Hpart.
        destruct (Hitem x Hx) as [Hbytes _].
        specialize (Hbytes ltac:(lia)).
        rewrite Forall_forall in Hbytes. apply Hbytes. exact Hc.
    + intros pre post Hsize. rewrite len_app in Hsize.
      pose proof (len_nonneg pre) as Hp0.
      change (2 ^ 31) with 2147483648 in Hsize.
      destruct (argument_at 4 n pre (body ++ post)
                  (fun ai =>
                     if ai =? 31
                     then Ok (VNum (Int (-1)), num_add (Int (len pre)) (Int 1))
                     else Throw ("Invalid length encoding: " ++ dec_string ai))
                  ltac:(lia) ltac:(change (2 ^ 31) with 2147483648; lia)
                  ltac:(change (2 ^ 53) with 9007199254740992; lia))
        as (_ & _ & Hm & Hd).
      cbv zeta in Hm, Hd.
      destruct (items_at items) with
        (pre := pre ++ encodeTypeAndValue 4 n) (post := post)
        (acc := @nil value) (i := 0) (n := n) as (f & Hf).
      { apply Forall_forall. intros x Hx. apply (Hitem x Hx). }
      { unfold n. lia. }
      { rewrite len_app. fold body. change (2 ^ 31) with 2147483648. lia. }
      fold body in Hf. rewrite <- app_assoc in Hf. rewrite len_app in Hf.
      exists (S f). rewrite <- app_assoc.
      rewrite (decodeValue_dispatch f _ (len pre) 4);
        [| rewrite !len_app; pose proof (len_nonneg post); lia | exact Hm].
      cbn [Z.eqb Pos.eqb]. unfold decodeLength. rewrite Hd, Hf.
      cbn [app]. rewrite len_app. do 4 f_equal. lia.
  - cbn [plain] in Hplain. cbn [strings] in Htext.
    apply andb_prop in Hplain. destruct Hplain as [Hdist Hplain].
    rewrite forallb_forall in Hplain.
    rewrite Forall_forall in IH, Htext.
    assert (Hkey : forall p, In p props ->
               Forall (fun c => 0 <= c < 65536) (fst p)
               /\ TextDecoder_decode (TextEncoder_encode (fst p)) = fst p
               /\ jsstring_eqb (fst p) (str "__proto__") = false
               /\ arrayIndex (fst p) = None).
    { intros [k x] Hp. specialize (Hplain (k, x) Hp). cbn beta iota in Hplain.
      apply andb_prop in Hplain. destruct Hplain as [Hk _].
      unfold plainKey in Hk.
      apply andb_prop in Hk. destruct Hk as [Hk Hidx].
      apply andb_prop in Hk. destruct Hk as [Hunits Hproto].
      cbn [fst]. split; [apply codeUnits; exact Hunits |].
      split.
      { apply Htext. apply in_flat_map. exists (k, x).
        split; [exact Hp | left; reflexivity]. }
      split; [apply negb_true_iff; exact Hproto |].
      destruct (arrayIndex k); [discriminate | reflexivity]. }
    assert (Hitem : forall p, In p props ->
               (len (encodeValue (snd p)) <= 2 ^ 31 ->
                Forall isByte (encodeValue (snd p)))
               /\ (forall pre post,
                      len pre + len (encodeValue (snd p)) <= 2 ^ 31 ->
                      exists f,
                        decodeValue TextDecoder_decode fracToString f
                                    (pre ++ encodeValue (snd p) ++ post)
                                    (Int (len pre))
                        = Some (Ok (snd p,
                                    Int (len pre
                                         + len (encodeValue (snd p))))))).
    { intros [k x] Hp. cbn [snd]. apply (IH (k, x) Hp).
      - specialize (Hplain (k, x) Hp). cbn beta iota in Hplain.
        apply andb_prop in Hplain. tauto.
      - apply Forall_forall. intros t Ht. apply Htext.
        apply in_flat_map. exists (k, x).
        split; [exact Hp | right; exact Ht]. }
    cbn [encodeValue]. cbv zeta.
    assert (Hent : Object_entries
                     (map (fun '(k, x) => (k, encodeValue x)) props)
                   = map (fun '(k, x) => (k, encodeValue x)) props).
    { apply Object_entries_plain. apply Forall_forall.
      intros e He. apply in_map_iff in He.
      destruct He as ([k x] & <- & Hp). cbn [fst].
      apply (Hkey (k, x) Hp). }
    rewrite Hent. rewrite length_map.
    assert (Hbody : flat_map (fun e : jsstring * list Z =>
                                encodeString (fst e) ++ snd e)
                             (map (fun '(k, x) => (k, encodeValue x)) props)
                    = flat_map (fun p => encodeString (fst p)
                                         ++ encodeValue (snd p)) props).
    { clear. induction props as [| [k x] r IHr]; [reflexivity |].
      cbn [map flat_map fst snd]. rewrite IHr. reflexivity. }
    rewrite Hbody.
    set (entry := fun p : jsstring * value =>
                    encodeString (fst p) ++ encodeValue (snd p)).
    set (n := Z.of_nat (length props)).
    set (body := flat_map entry props).
    assert (Hcount : n <= len body).
    { apply count_size. intros p. unfold entry. rewrite len_app.
      pose proof (encodeValue_nonempty (snd p)).
      pose proof (len_nonneg (encodeString (fst p))). lia. }
    pose proof (encodeTypeAndValue_nonempty 5 n) as Hh0.
    pose proof (len_nonneg body) as Hb0.
    assert (Hn0 : 0 <= n) by (unfold n; lia).
    split.
    + intros Hsize. rewrite len_app in Hsize.
      apply Forall_app. split.
      * apply (argument_at 5 n [] [] (fun _ => Throw ""));
          [lia | lia | change (len []) with 0; lia].
      * apply Forall_forall. intros c Hc. apply in_flat_map in Hc.
        destruct Hc as (p & Hp & Hc).
        pose proof (part_size entry props p Hp) as Hpart.
        fold body in Hpart. unfold entry in Hpart, Hc.
        rewrite len_app in Hpart.
        pose proof (len_nonneg (encodeString (fst p))).
        pose proof (len_nonneg (encodeValue (snd p))).
        apply in_app_or in Hc. destruct Hc as [Hc | Hc].
        -- destruct (Hkey p Hp) as (K1 & K2 & _).
           destruct (string_at (fst p) [] [] 0 K1 K2) as [Hbytes _].
           { change (len []) with 0. lia. }
           rewrite Forall_forall in Hbytes. apply Hbytes. exact Hc.
        -- destruct (Hitem p Hp) as [Hbytes _].
           specialize (Hbytes ltac:(lia)).
           rewrite Forall_forall in Hbytes. apply Hbytes. exact Hc.
    + intros pre post Hsize. rewrite len_app in Hsize.
      pose proof (len_nonneg pre) as Hp0.
      change (2 ^ 31) with 2147483648 in Hsize.
      destruct (argument_at 5 n pre (body ++ post)
                  (fun ai =>
                     if ai =? 31
                     then Ok (VNum (Int (-1)), num_add (Int (len pre)) (Int 1))
                     else Throw ("Invalid length encoding: " ++ dec_string ai))
                  ltac:(lia) ltac:(change (2 ^ 31) with 2147483648; lia)
                  ltac:(change (2 ^ 53) with 9007199254740992; lia))
        as (_ & _ & Hm & Hd).
      cbv zeta in Hm, Hd.
      destruct (entries_at props) with
        (pre := pre ++ encodeTypeAndValue 5 n) (post := post)
        (acc := @nil (jsstring * value)) (i := 0) (n := n) as (f & Hf).
      { apply Forall_forall. intros p Hp. apply (Hitem p Hp). }
      { apply Forall_forall. intros p Hp.
        destruct (Hkey p Hp) as (K1 & K2 & K3 & _). auto. }
      { exact Hdist. }
      { intros p []. }
      { unfold n. lia. }
      { rewrite len_app. fold entry. fold body.
        change (2 ^ 31) with 2147483648. lia. }
      fold entry in Hf. fold body in Hf.
      rewrite <- app_assoc in Hf. rewrite len_app in Hf.
      exists (S f). rewrite <- app_assoc.
      rewrite (decodeValue_dispatch f _ (len pre) 5);
        [| rewrite !len_app; pose proof (len_nonneg post); lia | exact Hm].
      cbn [Z.eqb Pos.eqb]. unfold decodeLength. rewrite Hd, Hf.
      cbn [app]. rewrite len_app. do 4 f_equal. lia.
Qed.


End Platform.

End CBORDecode.

(** ** CBOR: round trip and malformed input *)

Module CBORRoundTrip.
Import JS JSFacts CBOR CBORFacts CBORValues CBORDecode.

Section Platform.
Variable TextDecoder_decode : list Z -> jsstring.
Variable fracToString : Z -> jsstring.





(** A tagged item is decoded to an object with the properties [tag] and
    [value]. *)
Theorem tagged_item (t : Z) (v : value) :
  0 <= t < 2 ^ 31 ->
  plain v = true ->
  Forall (fun s => TextDecoder_decode (TextEncoder_encode s) = s)
         (strings v) ->
  len (encodeTypeAndValue 6 t ++ encodeValue v) <= 2 ^ 31 ->
  exists fuel, forall k,
    CBOR.decode TextDecoder_decode fracToString (fuel + k)
                (encodeTypeAndValue 6 t ++ encodeValue v)
    = Some (Ok (VObject [(str "tag", VNum (Int t)); (str "value", v)])).
Proof.
  intros Ht Hplain Htext Hsize.
  change (2 ^ 31) with 2147483648 in Ht, Hsize.
  rewrite len_app in Hsize.
  pose proof (len_nonneg (encodeValue v)) as Hv0.
  destruct (argument_at 6 t [] (encodeValue v)
              (fun ai =>
                 if ai =? 31
                 then Ok (VNum (Int (-1)), num_add (Int 0) (Int 1))
                 else Throw ("Invalid length encoding: " ++ dec_string ai))
              ltac:(lia) ltac:(change (2 ^ 31) with 2147483648; lia)
              ltac:(change (len []) with 0;
                    change (2 ^ 53) with 9007199254740992; lia))
    as (_ & Hl & Hm & Hd).
  cbv zeta in Hl, Hm, Hd. cbn [app] in Hm, Hd.
  change (len []) with 0 in Hm, Hd. rewrite Z.add_0_l in Hd.
  destruct (plain_decodes TextDecoder_decode fracToString v Hplain Htext)
    as [_ Hdec].
  destruct (Hdec (encodeTypeAndValue 6 t) []
                 ltac:(change (2 ^ 31) with 2147483648; lia)) as (f & Hf).
  rewrite app_nil_r in Hf.
  exists (S f). intros k. unfold CBOR.decode. cbn [Nat.add].
  rewrite (decodeValue_dispatch _ _ (f + k) _ 0 6);
    [| rewrite len_app; lia | exact Hm].
  cbn [Z.eqb Pos.eqb]. unfold decodeLength. rewrite Hd.
  rewrite (decodeValue_more _ _ f k _ _ _ Hf). reflexivity.
Qed.

End Platform.





Lemma tagged_item_witness :
  exists fuel, forall k,
    CBOR.decode (fun bs => bs) (fun _ => []) (fuel + k)
                (encodeTypeAndValue 6 1 ++ encodeValue (VNum (Int 1700000000)))
    = Some (Ok (VObject [(str "tag", VNum (Int 1));
                         (str "value", VNum (Int 1700000000))])).
Proof.
  apply (tagged_item (fun bs => bs) (fun _ => []) 1 (VNum (Int 1700000000))).
  - lia.
  - vm_compute. reflexivity.
  - constructor.
  - vm_compute. discriminate.
Defined.

End CBORRoundTrip.

(** ** CoAP: option numbers, option names and header fields *)

Module CoAPCodec.
Import JS JSFacts CoAP CoAPFacts CoAPData CoAPDataFacts CoAPRequests.

(** [encodeNumber] writes the 32-bit value of a number, most significant
    byte first, in no more bytes than needed below 65536. *)
Theorem encodeNumber_big_endian (n : Z) :
  0 <= n ->
  Forall isByte (encodeNumber n)
  /\ bigEndian (encodeNumber n) = n mod 2 ^ 32
  /\ (n < 65536 -> forall b rest, encodeNumber n = b :: rest -> b <> 0)
  /\ (encodeNumber n = [] <-> n = 0).
Proof.
  intros Hn. destruct (encodeNumber_value n Hn) as [Hb Hv].
  split; [exact Hb |]. split; [exact Hv |].
  unfold encodeNumber.
  destruct (Z.eqb_spec n 0) as [-> | Hn0].
  { repeat split; try reflexivity; try discriminate. }
  destruct (Z.ltb_spec n 256) as [H256 | H256].
  { cbn [Uint8Array_from map]. rewrite (Z.mod_small n 256) by lia.
    split; [intros _ b rest Heq; injection Heq as <- _; exact Hn0 |].
    split; [discriminate | intros ->; contradiction]. }
  destruct (Z.ltb_spec n 65536) as [H65536 | H65536].
  { destruct (two_bytes n ltac:(lia)) as (T1 & T2 & _).
    cbn [Uint8Array_from map].
    rewrite (Z.mod_small _ 256 T1), (Z.mod_small _ 256 T2).
    assert (Hs : sar n 8 = n / 256)
      by (apply (sar_small n 8); change (2 ^ 31) with 2147483648; lia).
    split.
    { intros _ b rest Heq. injection Heq as <- _. rewrite Hs.
      Z.div_mod_to_equations. lia. }
    split; [discriminate | intros ->; contradiction]. }
  cbn [Uint8Array_from map].
  split; [lia |].
  split; [discriminate | intros ->; contradiction].
Qed.

Lemma encodeNumber_big_endian_witness :
  Forall isByte (encodeNumber 61441)
  /\ bigEndian (encodeNumber 61441) = 61441 mod 2 ^ 32
  /\ (61441 < 65536 ->
      forall b rest, encodeNumber 61441 = b :: rest -> b <> 0)
  /\ (encodeNumber 61441 = [] <-> 61441 = 0).
Proof. apply (encodeNumber_big_endian 61441). lia. Defined.

(** Names and numbers of options.  A number that [getOptionName] has a
    name for is found again by [getOptionNumber]; the name [option-N]
    made up for any other number is not: it resolves to NaN.  The other
    way round, a name of the table, in any letter case, comes back in
    lower case. *)
Theorem option_name_number (n : Z) (name : jsstring) :
  getOptionNumber (getOptionName (Int n))
  = (if namedOption n then Int n else NaN)
  /\ (forall k, lookup (toLowerCase name) optionMap = Some k ->
                getOptionName (getOptionNumber name) = toLowerCase name).
Proof.
  split.
  - unfold getOptionName, namedOption.
    cbn [reverseMap lookupZ map fst existsb].
    repeat match goal with
           | |- context [?k =? n] =>
               rewrite (Z.eqb_sym k n);
               destruct (Z.eqb_spec n k) as [-> | ?]; [reflexivity |]
           end.
    cbn [orb]. reflexivity.
  - intros k Hk. unfold getOptionNumber. rewrite Hk.
    unfold optionMap in Hk. cbn [lookup] in Hk.
    repeat match type of Hk with
           | (if jsstring_eqb ?a ?b then _ else _) = _ =>
               let E := fresh "E" in
               destruct (jsstring_eqb a b) eqn:E;
               [apply jsstring_eqb_eq in E; rewrite <- E;
                injection Hk as <-; reflexivity |]
           end.
    discriminate.
Qed.

Lemma band_range (x k : Z) :
  0 <= k < 31 -> 0 <= band x (Z.ones k) < 2 ^ k.
Proof.
  intros Hk. rewrite band_low by exact Hk.
  apply Z.mod_pos_bound. apply Z.pow_pos_nonneg; lia.
Qed.

Lemma slice_length (xs : list Z) (s e : Z) :
  0 <= s <= e -> len (slice xs s e) <= e - s.
Proof.
  intros Hse. unfold slice, len. cbv zeta.
  destruct (Z.ltb_spec s 0); [lia |].
  destruct (Z.ltb_spec e 0); [lia |].
  rewrite length_firstn. lia.
Qed.

Lemma In_slice (xs : list Z) (s e b : Z) :
  In b (slice xs s e) -> In b xs.
Proof.
  unfold slice. cbv zeta. intros Hb.
  match type of Hb with
  | In b (firstn ?n (skipn ?k xs)) =>
      rewrite <- (firstn_skipn k xs); apply in_or_app; right;
      rewrite <- (firstn_skipn n (skipn k xs)); apply in_or_app; left;
      exact Hb
  end.
Qed.

Lemma byte_or_nothing (bytes : list Z) (i : Z) :
  Forall isByte bytes -> isByte (int_of (get bytes i)).
Proof.
  intros Hb. destruct (get bytes i) as [b |] eqn:E; cbn [int_of].
  - apply (get_isByte bytes i b Hb E).
  - unfold isByte. lia.
Qed.

(** [parseMessage] returns for every input, and the header fields of
    what it returns are within their bit widths: version and type in two
    bits, the code class in three, the code detail in five, the message
    ID in sixteen, at most fifteen token bytes; the code is its class
    and detail put together. *)
Theorem parseMessage_fields (data : list Z) :
  let m := parseMessage data in
  0 <= version m < 4
  /\ 0 <= type m < 4
  /\ 0 <= codeClass m < 8
  /\ 0 <= codeDetail m < 32
  /\ 0 <= messageId m < 65536
  /\ len (token m) <= 15
  /\ Forall isByte (token m)
  /\ (forall c, code m = Some c -> c = codeClass m * 32 + codeDetail m).
Proof.
  cbv zeta. unfold parseMessage.
  set (bytes := Uint8Array_from data).
  assert (Hbytes : Forall isByte bytes) by apply Uint8Array_from_isByte.
  destruct (parseOptions bytes (4 + band (int_of (get bytes 0)) 15))
    as [opts off].
  cbn [version type codeClass codeDetail messageId token code].
  split; [apply (band_range _ 2); lia |].
  split; [apply (band_range _ 2); lia |].
  split; [apply (band_range _ 3); lia |].
  split; [apply (band_range _ 5); lia |].
  split.
  { rewrite bor_shl8 by (apply byte_or_nothing; exact Hbytes).
    pose proof (byte_or_nothing bytes 2 Hbytes) as H2.
    pose proof (byte_or_nothing bytes 3 Hbytes) as H3.
    unfold isByte in *. lia. }
  pose proof (band_range (int_of (get bytes 0)) 4 ltac:(lia)) as Htl.
  change (Z.ones 4) with 15 in Htl. change (2 ^ 4) with 16 in Htl.
  split.
  { destruct (0 <? band (int_of (get bytes 0)) 15); [| cbn; lia].
    pose proof (slice_length bytes 4 (4 + band (int_of (get bytes 0)) 15)
                  ltac:(lia)).
    lia. }
  split.
  { destruct (0 <? band (int_of (get bytes 0)) 15); [| constructor].
    apply Forall_forall. intros b Hb. apply In_slice in Hb.
    rewrite Forall_forall in Hbytes. apply Hbytes. exact Hb. }
  intros c Hc. rewrite Hc. cbn [int_of].
  assert (Hcb : isByte c) by (apply (get_isByte bytes 1 c Hbytes Hc)).
  destruct (code_fields c Hcb) as [-> ->].
  unfold isByte in Hcb. Z.div_mod_to_equations. lia.
Qed.

End CoAPCodec.

(** ** CoAP: the request builders *)

Module CoAPRequestProps.
Import JS JSFacts CoAP CoAPFacts CoAPData CoAPDataFacts CoAPRequests.

Lemma extension_length (x : Z) : len (extension x) <= 2.
Proof.
  unfold extension.
  destruct (x <? 13); [cbn; lia |]. destruct (x <? 269); cbn; lia.
Qed.

Lemma generateToken_token (random : nat -> Z) :
  len (generateToken random) <= 8 /\ Forall isByte (generateToken random).
Proof.
  split; [cbn; lia | apply Uint8Array_from_isByte].
Qed.

(** A request with a path and, if [format] is given, a content format:
    what the parser makes of it. *)
Lemma request_built (messageId code : Z) (token : list Z)
      (path : jsstring) (format : option Z)
      (payload : option payloadValue) :
  0 <= messageId < 65536 -> 0 <= code < 256 ->
  len token <= 8 -> Forall isByte token ->
  Forall (fun ch => 0 <= ch < 65536) path ->
  len (TextEncoder_encode path) <= 65804 ->
  (forall p, payload = Some p ->
             Forall isByte (payloadBytes p) /\ len (payloadBytes p) < 2 ^ 52) ->
  let entries :=
    (str "uri-path", OString path)
      :: match format with
         | Some f => [(str "content-format", ONumber f)]
         | None => []
         end in
  parseMessage (buildMessage messageId token 0 code entries payload)
  = {| version := 1; type := 0; code := Some code;
       codeClass := code / 32; codeDetail := code mod 32;
       messageId := messageId; token := token;
       options :=
         (str "uri-path", [TextEncoder_encode path])
           :: match format with
              | Some f => [(str "content-format", [encodeNumber f])]
              | None => []
              end;
       payload := if truthy payload then option_map payloadBytes payload
                  else None |}.
Proof.
  intros Hid Hcode Htl Htb Hpath Hplen Hpay entries.
  assert (Hutf : Forall isByte (TextEncoder_encode path))
    by (apply TextEncoder_encode_bytes; exact Hpath).
  pose proof (len_nonneg (TextEncoder_encode path)) as Hp0.
  assert (Hnum : forall f, Forall isByte (encodeNumber f)
                           /\ len (encodeNumber f) <= 4).
  { intros f. unfold encodeNumber.
    repeat match goal with
           | |- context [if ?c then _ else _] => destruct c
           end;
      (split; [try apply Uint8Array_from_isByte; constructor | cbn; lia]). }
  assert (Hwire : Forall wireOption (numbered entries)).
  { unfold entries. destruct format as [f |]; cbn [numbered map].
    - apply Forall_cons; [| apply Forall_cons; [| constructor]].
      + split; [exists 11; split; [reflexivity | lia] |].
        cbn [snd valueBytes]. split; assumption.
      + split; [exists 12; split; [reflexivity | lia] |].
        cbn [snd valueBytes]. destruct (Hnum f). split; [lia | assumption].
    - apply Forall_cons; [| constructor].
      split; [exists 11; split; [reflexivity | lia] |].
      cbn [snd valueBytes]. split; assumption. }
  assert (Hsorted : Sorted numberLe (numbered entries)).
  { unfold entries. destruct format as [f |]; cbn [numbered map];
      repeat constructor; unfold numberLe; cbn; lia. }
  assert (Hpb : forall p, payload = Some p -> Forall isByte (payloadBytes p))
    by (intros p Hp; apply (Hpay p Hp)).
  assert (Hlen : arrayLength (buildMessage messageId token 0 code entries
                                           payload)).
  { unfold arrayLength.
    rewrite (buildMessage_shape messageId token 0 code entries payload)
      by (assumption || lia).
    rewrite !len_app.
    assert (Hopts : len (encodeSorted (Int 0) (numbered entries))
                    <= 65804 + 20).
    { unfold entries. destruct format as [f |];
        cbn [numbered map encodeSorted getOptionNumber].
      - change (getOptionNumber (str "uri-path")) with (Int 11).
        change (getOptionNumber (str "content-format")) with (Int 12).
        change (num_sub (Int 11) (Int 0)) with (Int 11).
        change (num_sub (Int 12) (Int 11)) with (Int 1).
        rewrite !encodeOption_shape by lia.
        rewrite !len_app, !len_cons, !len_app. change (len []) with 0.
        cbn [valueBytes].
        pose proof (extension_length 11). pose proof (extension_length 1).
        pose proof (extension_length (len (TextEncoder_encode path))).
        pose proof (extension_length (len (encodeNumber f))).
        destruct (Hnum f). lia.
      - change (getOptionNumber (str "uri-path")) with (Int 11).
        change (num_sub (Int 11) (Int 0)) with (Int 11).
        rewrite !encodeOption_shape by lia.
        rewrite !len_app, !len_cons, !len_app. change (len []) with 0.
        cbn [valueBytes].
        pose proof (extension_length 11).
        pose proof (extension_length (len (TextEncoder_encode path))).
        lia. }
    assert (Hpp : len (payloadPart payload) <= 2 ^ 52).
    { unfold payloadPart. destruct payload as [p |]; [| cbn; lia].
      destruct (truthy (Some p)); [| cbn; lia].
      rewrite len_cons. destruct (Hpay p eq_refl). lia. }
    change (len [_; _; _; _]) with 4.
    change (2 ^ 53) with 9007199254740992.
    change (2 ^ 52) with 4503599627370496 in Hpp. lia. }
  rewrite (parse_build messageId token 0 code entries payload)
    by (assumption || lia).
  unfold messageOf. f_equal.
  unfold entries. destruct format as [f |]; reflexivity.
Qed.

(** The same for any value of the client's counter and for the payload
    as data. *)
Lemma request_parsed (messageId code : Z) (token : list Z)
      (path : jsstring) (format : option Z)
      (payload : option payloadValue) (body : option (list Z)) :
  0 <= code < 256 ->
  len token <= 8 -> Forall isByte token ->
  Forall (fun ch => 0 <= ch < 65536) path ->
  len (TextEncoder_encode path) <= 65804 ->
  carriesPayload payload body ->
  (forall b, body = Some b -> Forall isByte b /\ len b < 2 ^ 52) ->
  let entries :=
    (str "uri-path", OString path)
      :: match format with
         | Some f => [(str "content-format", ONumber f)]
         | None => []
         end in
  parseMessage (buildMessage messageId token 0 code entries payload)
  = {| version := 1; type := 0; code := Some code;
       codeClass := code / 32; codeDetail := code mod 32;
       messageId := messageId mod 65536; token := token;
       options :=
         (str "uri-path", [TextEncoder_encode path])
           :: match format with
              | Some f => [(str "content-format", [encodeNumber f])]
              | None => []
              end;
       payload := body |}.
Proof.
  intros Hcode Htl Htb Hpath Hplen Hpay Hbody entries.
  rewrite buildMessage_id_mod.
  unfold entries.
  rewrite (request_built (messageId mod 65536) code token path format
                         payload); try assumption.
  - f_equal.
    destruct payload as [[bs | [| ch s]] |]; cbn [carriesPayload] in Hpay;
      cbn [truthy option_map payloadBytes]; symmetry; exact Hpay.
  - apply Z.mod_pos_bound. lia.
  - intros p ->.
    destruct p as [bs | [| ch s]]; cbn [carriesPayload] in Hpay;
      cbn [payloadBytes].
    + apply Hbody. exact Hpay.
    + split; [constructor | cbn; lia].
    + apply Hbody. exact Hpay.
Qed.

(** [createGET(path)]: a confirmable GET whose only option is Uri-Path,
    holding the whole path as one value (it is not split at [/]).  The
    message carries the client's counter in 16 bits; the message ID that
    is returned is the counter itself, which moves on by one. *)
Theorem get_request (c : Client) (random : nat -> Z) (path : jsstring) :
  Forall (fun ch => 0 <= ch < 65536) path ->
  len (TextEncoder_encode path) <= 65804 ->
  let r := createGET c random path noOptions in
  parseMessage (bytes (fst r))
  = {| version := 1; type := CON; code := Some GET;
       codeClass := 0; codeDetail := 1;
       messageId := clientMessageId c mod 65536;
       token := generateToken random;
       options := [(str "uri-path", [TextEncoder_encode path])];
       payload := None |}
  /\ createdMessageId (fst r) = clientMessageId c
  /\ createdToken (fst r) = generateToken random
  /\ clientMessageId (snd r) = clientMessageId c + 1.
Proof.
  intros Hpath Hlen. cbv zeta.
  unfold createGET, noOptions, createMessage.
  cbn [properties payloadProperty fst snd bytes createdMessageId
       createdToken clientMessageId].
  change (CBOR.Object_entries (spread [(str "uri-path", OString path)] []))
    with [(str "uri-path", OString path)].
  destruct (generateToken_token random) as [Ht1 Ht2].
  split; [| repeat split].
  apply (request_parsed (clientMessageId c) GET (generateToken random) path
                        None None None ltac:(unfold GET; lia) Ht1 Ht2 Hpath
                        Hlen eq_refl).
  intros b Hb. discriminate Hb.
Qed.

Lemma get_request_witness :
  let r := createGET init (fun _ => 7) (str "/a/b") noOptions in
  parseMessage (bytes (fst r))
  = {| version := 1; type := CON; code := Some GET;
       codeClass := 0; codeDetail := 1;
       messageId := 1; token := [7; 7; 7; 7];
       options := [(str "uri-path", [str "/a/b"])];
       payload := None |}
  /\ createdMessageId (fst r) = 1
  /\ createdToken (fst r) = [7; 7; 7; 7]
  /\ clientMessageId (snd r) = 1 + 1.
Proof.
  apply (get_request init (fun _ => 7) (str "/a/b")).
  - repeat constructor; lia.
  - vm_compute. discriminate.
Defined.

(** [createFETCH(path, payload)]: a confirmable FETCH with Uri-Path and
    the content format 61441 in two bytes; a [Uint8Array] payload, even
    an empty one, and a non-empty string payload are carried behind the
    marker, any other payload is left out. *)
Theorem fetch_request (c : Client) (random : nat -> Z) (path : jsstring)
        (payload : option payloadValue) (body : option (list Z)) :
  Forall (fun ch => 0 <= ch < 65536) path ->
  len (TextEncoder_encode path) <= 65804 ->
  carriesPayload payload body ->
  (forall b, body = Some b -> Forall isByte b /\ len b < 2 ^ 52) ->
  let r := createFETCH c random path payload noOptions in
  parseMessage (bytes (fst r))
  = {| version := 1; type := CON; code := Some FETCH;
       codeClass := 0; codeDetail := 5;
       messageId := clientMessageId c mod 65536;
       token := generateToken random;
       options := [(str "uri-path", [TextEncoder_encode path]);
                   (str "content-format", [[0xF0; 0x01]])];
       payload := body |}.
Proof.
  intros Hpath Hlen Hpay Hbody. cbv zeta.
  unfold createFETCH, noOptions, createMessage.
  cbn [properties payloadProperty fst snd bytes].
  change (CBOR.Object_entries
            (spread [(str "uri-path", OString path);
                     (str "content-format",
                      ONumber YANG_IDENTIFIERS_CBOR_SEQ)] []))
    with [(str "uri-path", OString path);
          (str "content-format", ONumber YANG_IDENTIFIERS_CBOR_SEQ)].
  destruct (generateToken_token random) as [Ht1 Ht2].
  apply (request_parsed (clientMessageId c) FETCH (generateToken random)
                        path (Some YANG_IDENTIFIERS_CBOR_SEQ) payload body
                        ltac:(unfold FETCH; lia) Ht1 Ht2 Hpath Hlen Hpay
                        Hbody).
Qed.

Lemma fetch_request_witness :
  let r := createFETCH init (fun _ => 7) (str "c")
                       (Some (PBytes [])) noOptions in
  parseMessage (bytes (fst r))
  = {| version := 1; type := CON; code := Some FETCH;
       codeClass := 0; codeDetail := 5;
       messageId := 1; token := [7; 7; 7; 7];
       options := [(str "uri-path", [str "c"]);
                   (str "content-format", [[0xF0; 0x01]])];
       payload := Some [] |}.
Proof.
  apply (fetch_request init (fun _ => 7) (str "c") (Some (PBytes []))
                       (Some [])).
  - repeat constructor; lia.
  - vm_compute. discriminate.
  - reflexivity.
  - intros b Hb. injection Hb as <-. split; [constructor | cbn; lia].
Defined.

Section Platform.
Variable TextDecoder_decode : list Z -> jsstring.
Variable fracToString : Z -> jsstring.


End Platform.


End CoAPRequestProps.

(** ** MUP1: packing and parsing, prefix-escape class *)

Module Mup1PrefixParse.
Import JS JSFacts Mup1Parse.

(** In the prefix-escape class, packing and parsing back a frame whose
    type is not a framing byte and whose payload holds none of the three
    framing bytes: the frame comes back, with a valid checksum. *)
Theorem pack_parse_prefix (t : Z) (d : list Z) :
  isByte t -> t <> Mup1.EOF -> t <> Mup1.ESCAPE ->
  Forall (fun b => isByte b /\ Mup1.isSpecial b = false) d ->
  exists c,
    Mup1.parseFrame (Mup1.createFrame t d)
    = Ok {| Mup1.type := t; Mup1.data := d;
            Mup1.checksum := Int c; Mup1.checksumValid := true |}.
Proof. exact (pack_parse_plain t d). Qed.

Lemma pack_parse_prefix_witness :
  exists c,
    Mup1.parseFrame (Mup1.createFrame 99 [0x40; 0x01; 0x00; 0xFF])
    = Ok {| Mup1.type := 99; Mup1.data := [0x40; 0x01; 0x00; 0xFF];
            Mup1.checksum := Int c; Mup1.checksumValid := true |}.
Proof.
  apply (pack_parse_prefix 99 [0x40; 0x01; 0x00; 0xFF]).
  - unfold isByte. lia.
  - unfold Mup1.EOF. lia.
  - unfold Mup1.ESCAPE. lia.
  - repeat constructor; unfold isByte; lia.
Defined.

End Mup1PrefixParse.

(** ** MUP1: checksum, frames without framing bytes, malformed frames *)

Module Mup1Checksum.
Import JS JSFacts Mup1Facts Mup1Parse Mup1Tools.

(** Induction on a sequence two elements at a time. *)
Lemma pair_induction (P : list Z -> Prop) :
  P [] -> (forall a, P [a]) -> (forall a b r, P r -> P (a :: b :: r)) ->
  forall l, P l.
Proof.
  intros H0 H1 H2 l.
  assert (H : P l /\ forall a, P (a :: l)).
  { induction l as [| b r [IH1 IH2]]; [split; [exact H0 | exact H1] |].
    split; [apply IH2 |]. intros a. apply H2. exact IH1. }
  apply H.
Qed.

Lemma sumWords_wordSum (data : list Z) :
  Forall isByte data ->
  forall acc, Mup1.sumWords data acc = acc + wordSum data
              /\ Mup1Subst.sumWords data acc = acc + wordSum data.
Proof.
  intros Hd.
  assert (Hpair : forall hi lo, isByte hi -> isByte lo ->
                    bor (shl hi 8) lo = hi * 256 + lo)
    by (intros; apply bor_shl8; assumption).
  assert (Hsingle : forall hi, isByte hi -> shl hi 8 = hi * 256).
  { intros hi Hhi. unfold isByte in Hhi.
    apply (shl_small hi 8);
      change (2 ^ 31) with 2147483648; change (2 ^ 8) with 256; lia. }
  assert (Hzero : isByte 0) by (unfold isByte; lia).
  revert Hd.
  induction data as [| hi | hi lo rest IH] using pair_induction;
    intros Hd acc.
  - cbn. split; lia.
  - apply Forall_cons_iff in Hd. destruct Hd as [Hhi _].
    cbn [Mup1.sumWords Mup1Subst.sumWords wordSum].
    rewrite (Hpair hi 0 Hhi Hzero), (Hsingle hi Hhi). split; lia.
  - apply Forall_cons_iff in Hd. destruct Hd as [Hhi Hd].
    apply Forall_cons_iff in Hd. destruct Hd as [Hlo Hd].
    cbn [Mup1.sumWords Mup1Subst.sumWords wordSum].
    rewrite (Hpair hi lo Hhi Hlo).
    destruct (IH Hd (acc + (hi * 256 + lo))) as [H1 H2].
    rewrite H1, H2. split; lia.
Qed.

Lemma wordSum_nonneg (data : list Z) :
  Forall isByte data -> 0 <= wordSum data.
Proof.
  induction data as [| hi | hi lo rest IH] using pair_induction;
    intros Hd.
  - cbn. lia.
  - apply Forall_cons_iff in Hd. destruct Hd as [Hhi _].
    unfold isByte in Hhi. cbn [wordSum]. lia.
  - apply Forall_cons_iff in Hd. destruct Hd as [Hhi Hd].
    apply Forall_cons_iff in Hd. destruct Hd as [Hlo Hd].
    unfold isByte in Hhi, Hlo. cbn [wordSum].
    specialize (IH Hd). lia.
Qed.

(** The carry loop on a sum below 2^31. *)
Lemma foldCarries_endAround (s : Z) :
  0 <= s < 2 ^ 31 -> Mup1.foldCarries 8 s = endAround s.
Proof.
  intros Hs. change (2 ^ 31) with 2147483648 in Hs.
  change 8%nat with (3 + 5)%nat.
  rewrite (proj1 (foldCarries_settles s 5)).
  assert (Hsar : forall v, 0 <= v < 2147483648 -> sar v 16 = v / 65536).
  { intros v Hv. apply (sar_small v 16);
      [change (2 ^ 31) with 2147483648; lia | lia]. }
  assert (Hround : forall v, 0 <= v < 2147483648 ->
                     band v 0xFFFF + sar v 16 = v mod 65536 + v / 65536).
  { intros v Hv. rewrite carry_round.
    rewrite toInt32_small by (change (2 ^ 31) with 2147483648; lia).
    reflexivity. }
  unfold endAround. cbn [Mup1.foldCarries].
  destruct (Z.eqb_spec s 0) as [-> | Hs0]; [reflexivity |].
  destruct (Z.eqb_spec (sar s 16) 0) as [E0 | E0];
    rewrite (Hsar s Hs) in E0.
  { Z.div_mod_to_equations. lia. }
  rewrite (Hround s Hs).
  set (v1 := s mod 65536 + s / 65536).
  assert (Hv1 : 1 <= v1 < 98303) by (unfold v1; Z.div_mod_to_equations; lia).
  destruct (Z.eqb_spec (sar v1 16) 0) as [E1 | E1];
    rewrite (Hsar v1 ltac:(lia)) in E1.
  { unfold v1 in *. Z.div_mod_to_equations. lia. }
  rewrite (Hround v1 ltac:(lia)).
  set (v2 := v1 mod 65536 + v1 / 65536).
  assert (Hv2 : 1 <= v2 < 65536) by (unfold v2; Z.div_mod_to_equations; lia).
  destruct (Z.eqb_spec (sar v2 16) 0) as [E2 | E2];
    rewrite (Hsar v2 ltac:(lia)) in E2;
    [| Z.div_mod_to_equations; lia].
  unfold v2, v1 in *. Z.div_mod_to_equations. lia.
Qed.

Lemma complement16 (r : Z) :
  0 <= r < 65536 -> band (bnot r) 0xFFFF = 65535 - r.
Proof.
  intros Hr. unfold band, bnot.
  rewrite (toInt32_small r) by (change (2 ^ 31) with 2147483648; lia).
  rewrite (toInt32_small 65535) by (change (2 ^ 31) with 2147483648; lia).
  rewrite (toInt32_small (Z.lnot r))
    by (unfold Z.lnot; change (2 ^ 31) with 2147483648; lia).
  change 65535 with (Z.ones 16) at 1.
  rewrite Z.land_ones by lia. unfold Z.lnot.
  change (2 ^ 16) with 65536. Z.div_mod_to_equations. lia.
Qed.

Lemma endAround_range (s : Z) : 0 <= s -> 0 <= endAround s < 65536.
Proof.
  intros Hs. unfold endAround. destruct (s =? 0); [lia |].
  Z.div_mod_to_equations. lia.
Qed.

(** [calculateChecksum] is the 16-bit one's complement of the end-around
    carry sum of the data's 16-bit words, in both classes alike, as long
    as the plain sum of the words stays below 2^31. *)
Theorem checksum_ones_complement (data : list Z) :
  Forall isByte data -> wordSum data < 2 ^ 31 ->
  Mup1.calculateChecksum data = 65535 - endAround (wordSum data)
  /\ Mup1Subst.calculateChecksum data = 65535 - endAround (wordSum data).
Proof.
  intros Hd Hsum.
  pose proof (wordSum_nonneg data Hd) as H0.
  destruct (sumWords_wordSum data Hd 0) as [H1 H2].
  change (0 + wordSum data) with (wordSum data) in H1, H2.
  unfold Mup1.calculateChecksum, Mup1Subst.calculateChecksum.
  rewrite H1, H2.
  change (Mup1Subst.foldCarries 8 (wordSum data))
    with (Mup1.foldCarries 8 (wordSum data)).
  rewrite (foldCarries_endAround (wordSum data) ltac:(lia)).
  rewrite (complement16 _ (endAround_range _ H0)). split; reflexivity.
Qed.

Lemma checksum_ones_complement_witness :
  Mup1.calculateChecksum [0x3E; 0x70; 0x3C; 0x3C]
  = 65535 - endAround (wordSum [0x3E; 0x70; 0x3C; 0x3C])
  /\ Mup1Subst.calculateChecksum [0x3E; 0x70; 0x3C; 0x3C]
     = 65535 - endAround (wordSum [0x3E; 0x70; 0x3C; 0x3C]).
Proof.
  apply (checksum_ones_complement [0x3E; 0x70; 0x3C; 0x3C]).
  - repeat constructor; unfold isByte; lia.
  - vm_compute. reflexivity.
Defined.

End Mup1Checksum.

Module Mup1SubstParse.
Import JS JSFacts Mup1Facts Mup1Parse Mup1Tools.

Lemma checksum_same (data : list Z) :
  Mup1Subst.calculateChecksum data = Mup1.calculateChecksum data.
Proof.
  unfold Mup1Subst.calculateChecksum, Mup1.calculateChecksum.
  assert (Hsum : forall acc,
             Mup1Subst.sumWords data acc = Mup1.sumWords data acc).
  { induction data as [| hi | hi lo rest IH] using Mup1Checksum.pair_induction;
      intros acc.
    - reflexivity.
    - cbn [Mup1Subst.sumWords Mup1.sumWords]. f_equal.
      unfold bor. change (toInt32 0) with 0. rewrite Z.lor_0_r.
      unfold shl. apply toInt32_small. apply toInt32_range.
    - cbn [Mup1Subst.sumWords Mup1.sumWords]. apply IH. }
  rewrite Hsum. reflexivity.
Qed.

Lemma unescaped_spec (b : Z) :
  unescaped b = true ->
  isByte b /\ b <> 0x00 /\ b <> 0xFF /\ b <> 0x3E /\ b <> 0x3C
  /\ b <> 0x5C.
Proof.
  unfold unescaped. cbn [existsb]. intros H.
  apply andb_prop in H. destruct H as [Hb Hn].
  apply andb_prop in Hb. apply negb_true_iff in Hn.
  repeat (apply orb_false_iff in Hn; destruct Hn as [? Hn]).
  unfold isByte. lia.
Qed.

Lemma unescaped_plain (d : list Z) :
  forallb unescaped d = true ->
  Forall (fun b => isByte b /\ Mup1.isSpecial b = false) d.
Proof.
  intros H. rewrite forallb_forall in H. apply Forall_forall.
  intros b Hb. destruct (unescaped_spec b (H b Hb)) as (B & _ & _ & S & E & X).
  split; [exact B |]. unfold Mup1.isSpecial. cbn [existsb].
  destruct (Z.eqb_spec b Mup1.SOF); [contradiction |].
  destruct (Z.eqb_spec b Mup1.EOF); [contradiction |].
  destruct (Z.eqb_spec b Mup1.ESCAPE); [contradiction |].
  reflexivity.
Qed.

Lemma escapeData_unescaped (d : list Z) :
  forallb unescaped d = true -> Mup1Subst.escapeData d = d.
Proof.
  induction d as [| b d IH]; intros H; [reflexivity |].
  cbn [forallb] in H. apply andb_prop in H. destruct H as [Hb Hd].
  destruct (unescaped_spec b Hb) as (_ & B0 & BF & S & E & X).
  cbn [Mup1Subst.escapeData].
  destruct (Z.eqb_spec b 0); [contradiction |].
  destruct (Z.eqb_spec b 255); [contradiction |].
  destruct (Z.eqb_spec b Mup1Subst.SOF); [contradiction |].
  destruct (Z.eqb_spec b Mup1Subst.EOF); [contradiction |].
  destruct (Z.eqb_spec b Mup1Subst.ESCAPE); [contradiction |].
  rewrite (IH Hd). reflexivity.
Qed.

Lemma unescapeData_no_escape (d : list Z) :
  Forall (fun b => b <> Mup1.ESCAPE) d -> Mup1Subst.unescapeData d = d.
Proof.
  induction 1 as [| b d Hb Hd IH]; [reflexivity |].
  cbn [Mup1Subst.unescapeData].
  destruct (Z.eqb_spec b Mup1Subst.ESCAPE); [contradiction |].
  rewrite IH. reflexivity.
Qed.

(** Parsing, in the substitution class, a frame whose payload holds no
    byte that needs escaping. *)
Lemma parseFrame_wire_subst (t : Z) (d pad h : list Z) :
  isByte t -> t <> Mup1.EOF -> t <> Mup1.ESCAPE ->
  Forall (fun b => isByte b /\ Mup1.isSpecial b = false) d ->
  pad = [] \/ pad = [Mup1.EOF] ->
  length h = 4%nat ->
  Forall (fun b => isByte b /\ b <> 0x3C) h ->
  Mup1Subst.parseFrame (Mup1.frameBody t d pad ++ h)
  = Ok {| Mup1Subst.type := t;
          Mup1Subst.data := d;
          Mup1Subst.checksum := parseInt h 16;
          Mup1Subst.checksumValid :=
            num_eqb (Int (Mup1.calculateChecksum (Mup1.frameBody t d pad)))
                    (parseInt h 16) |}.
Proof.
  intros Ht HtEOF HtESC Hd Hpad Hh4 Hh.
  set (wire := Mup1.frameBody t d pad ++ h).
  pose proof (len_nonneg d) as Hld.
  pose proof (len_wire t d pad h Hh4) as Hlw. fold wire in Hlw.
  pose proof (len_pad t d pad h Hpad) as Hlp.
  pose proof (payload_no_EOF d pad Hd Hpad) as HnoEOF.
  pose proof (payload_no_ESC d pad Hd Hpad) as HnoESC.
  unfold Mup1Subst.parseFrame.
  rewrite (Uint8Array_from_bytes wire (wire_bytes t d pad h Ht Hd Hpad Hh4 Hh)).
  assert (Hsof : Mup1Subst.findSOF wire 0 = Some 0) by reflexivity.
  rewrite Hsof. cbv zeta.
  change Mup1Subst.findEnd with Mup1.findEnd.
  change Mup1Subst.popEOF with Mup1.popEOF.
  pose proof (findEnd_wire t d pad h HtEOF HtESC Hd Hpad Hh4 Hh) as HfE.
  fold wire in HfE. rewrite HfE.
  set (e := 2 + len d + len pad).
  destruct (Z.eqb_spec e (-1)) as [Hbad | _];
    [unfold e in Hbad; destruct Hlp; lia |].
  destruct (Z.ltb_spec (len wire) (e + 1 + 4)) as [Hbad | _];
    [unfold e in Hbad; lia |].
  assert (Ebody : len (Mup1.frameBody t d pad) = e + 1).
  { unfold Mup1.frameBody. rewrite !len_app. unfold e.
    change (len [Mup1.SOF; t]) with 2. change (len [Mup1.EOF]) with 1. lia. }
  assert (S1 : slice wire (e + 1) (e + 1 + 4) = h).
  { unfold wire. rewrite <- Ebody.
    pose proof (slice_app_mid (Mup1.frameBody t d pad) h []) as Hs.
    rewrite app_nil_r in Hs.
    replace 4 with (len h) by (unfold len; rewrite Hh4; reflexivity).
    exact Hs. }
  assert (S2 : slice wire 0 (e + 1) = Mup1.frameBody t d pad).
  { unfold wire. rewrite <- Ebody.
    apply (slice_app_mid [] (Mup1.frameBody t d pad) h). }
  assert (G1 : get wire (0 + 1) = Some t) by reflexivity.
  rewrite S1, S2, G1. cbn [int_of]. rewrite checksum_same.
  f_equal.
  assert (Hpay : (if 0 + 2 <? e
                  then
                    if 0 <? len (Mup1.popEOF (slice wire (0 + 2) e))
                    then Mup1Subst.unescapeData
                           (Mup1.popEOF (slice wire (0 + 2) e))
                    else []
                  else []) = d).
  { destruct (Z.ltb_spec (0 + 2) e) as [Hlt | Hge].
    - assert (S3 : Mup1.popEOF (slice wire (0 + 2) e) = d).
      { destruct (popEOF_plain d HnoEOF) as [P1 P2].
        destruct Hpad as [Ep | Ep].
        - assert (Es : slice wire (0 + 2) e = d).
          { unfold wire, Mup1.frameBody, e. rewrite Ep.
            change (len []) with 0. rewrite Z.add_0_r.
            rewrite <- !app_assoc.
            apply (slice_app_mid [Mup1.SOF; t] d). }
          rewrite Es. exact P1.
        - assert (Es : slice wire (0 + 2) e = d ++ [Mup1.EOF]).
          { unfold wire, Mup1.frameBody, e. rewrite Ep.
            replace ([Mup1.SOF; t] ++ d ++ [Mup1.EOF] ++ [Mup1.EOF])
              with ([Mup1.SOF; t] ++ (d ++ [Mup1.EOF]) ++ [Mup1.EOF])
              by (rewrite <- !app_assoc; reflexivity).
            rewrite <- !app_assoc.
            replace (2 + len d + len [Mup1.EOF])
              with (len [Mup1.SOF; t] + len (d ++ [Mup1.EOF]))
              by (rewrite len_app; change (len [Mup1.SOF; t]) with 2; lia).
            rewrite (app_assoc d [Mup1.EOF]).
            apply (slice_app_mid [Mup1.SOF; t] (d ++ [Mup1.EOF])). }
          rewrite Es. exact P2. }
      rewrite S3.
      destruct (Z.ltb_spec 0 (len d)) as [_ | Hz].
      + apply unescapeData_no_escape, HnoESC.
      + destruct d as [| b0 d0]; [reflexivity |].
        rewrite len_cons in Hz. pose proof (len_nonneg d0). lia.
    - destruct d as [| b d']; [reflexivity |].
      unfold e in Hge. rewrite len_cons in Hge.
      pose proof (len_nonneg d'). destruct Hlp; lia. }
  rewrite Hpay.
  rewrite Uint8Array_from_bytes; [reflexivity |].
  eapply Forall_impl; [| exact Hd]. intros b [Hb _]. exact Hb.
Qed.

(** In the substitution class, packing and parsing back a frame whose
    type is not a framing byte and whose payload needs no escaping: the
    frame comes back, with a valid checksum. *)
Theorem pack_parse_unescaped (t : Z) (d : list Z) :
  isByte t -> t <> Mup1Subst.EOF -> t <> Mup1Subst.ESCAPE ->
  forallb unescaped d = true ->
  exists c,
    Mup1Subst.parseFrame (Mup1Subst.createFrame t d)
    = Ok {| Mup1Subst.type := t; Mup1Subst.data := d;
            Mup1Subst.checksum := Int c;
            Mup1Subst.checksumValid := true |}.
Proof.
  intros Ht HtEOF HtESC Hun.
  pose proof (unescaped_plain d Hun) as Hd.
  set (pad := if len d mod 2 =? 0 then [Mup1.EOF] else []).
  set (c := Mup1.calculateChecksum (Mup1.frameBody t d pad)).
  assert (Hc : 0 <= c < 65536) by (apply band16_range).
  destruct (checksumStr_parse c Hc) as (H4 & Hh & Hparse).
  assert (Hpad : pad = [] \/ pad = [Mup1.EOF])
    by (unfold pad; destruct (_ =? 0); [right | left]; reflexivity).
  assert (Hframe : Mup1Subst.createFrame t d
                   = Mup1.frameBody t d pad ++ Mup1.checksumStr c).
  { unfold Mup1Subst.createFrame. cbv zeta.
    rewrite (escapeData_unescaped d Hun), append_if_nonempty.
    rewrite checksum_same.
    assert (Hbody : (if len d mod 2 =? 0
                     then ([Mup1Subst.SOF; t] ++ d ++ [Mup1Subst.EOF])
                          ++ [Mup1Subst.EOF]
                     else [Mup1Subst.SOF; t] ++ d ++ [Mup1Subst.EOF])
                    = Mup1.frameBody t d pad).
    { unfold Mup1.frameBody, pad. rewrite <- !app_assoc.
      destruct (_ =? 0); [reflexivity |].
      rewrite app_nil_r. reflexivity. }
    assert (Hbody' : (if len d mod 2 =? 0
                      then (([Mup1Subst.SOF; t] ++ d) ++ [Mup1Subst.EOF])
                           ++ [Mup1Subst.EOF]
                      else ([Mup1Subst.SOF; t] ++ d) ++ [Mup1Subst.EOF])
                     = Mup1.frameBody t d pad).
    { rewrite <- Hbody. rewrite <- !app_assoc. reflexivity. }
    rewrite Hbody, Hbody'. fold c.
    apply Uint8Array_from_bytes.
    apply (wire_bytes t d pad (Mup1.checksumStr c)); assumption. }
  exists c. rewrite Hframe.
  rewrite (parseFrame_wire_subst t d pad (Mup1.checksumStr c))
    by assumption.
  fold c. rewrite Hparse. cbn [num_eqb]. rewrite Z.eqb_refl. reflexivity.
Qed.

Lemma pack_parse_unescaped_witness :
  exists c,
    Mup1Subst.parseFrame (Mup1Subst.createFrame 99 [0x40; 0x01; 0x12; 0x34])
    = Ok {| Mup1Subst.type := 99;
            Mup1Subst.data := [0x40; 0x01; 0x12; 0x34];
            Mup1Subst.checksum := Int c;
            Mup1Subst.checksumValid := true |}.
Proof.
  apply (pack_parse_unescaped 99 [0x40; 0x01; 0x12; 0x34]).
  - unfold isByte. lia.
  - unfold Mup1Subst.EOF. lia.
  - unfold Mup1Subst.ESCAPE. lia.
  - vm_compute. reflexivity.
Defined.

End Mup1SubstParse.

Module Mup1Errors.
Import JS JSFacts Mup1Parse Mup1Tools.

Lemma findSOF_none (data : list Z) (i : Z) :
  Forall (fun b => b <> Mup1.SOF) data -> Mup1.findSOF data i = None.
Proof.
  intros H. revert i. induction H as [| b data Hb Hd IH]; intros i;
    [reflexivity |].
  cbn [Mup1.findSOF]. destruct (Z.eqb_spec b Mup1.SOF); [contradiction |].
  apply IH.
Qed.

Lemma findSOF_first (junk rest : list Z) (i : Z) :
  Forall (fun b => b <> Mup1.SOF) junk ->
  Mup1.findSOF (junk ++ Mup1.SOF :: rest) i = Some (i + len junk).
Proof.
  intros H. revert i. induction H as [| b junk Hb Hd IH]; intros i.
  - cbn [app Mup1.findSOF]. rewrite Z.eqb_refl.
    change (len []) with 0. f_equal. lia.
  - cbn [app Mup1.findSOF].
    destruct (Z.eqb_spec b Mup1.SOF); [contradiction |].
    rewrite IH, len_cons. f_equal. lia.
Qed.

Lemma bytes_without (x : Z) (l : list Z) :
  Forall (fun b => b mod 256 <> x) l ->
  Forall (fun b => b <> x) (Uint8Array_from l).
Proof.
  intros H. unfold Uint8Array_from. apply Forall_forall.
  intros b Hb. apply in_map_iff in Hb. destruct Hb as (a & <- & Ha).
  rewrite Forall_forall in H. apply H. exact Ha.
Qed.

(** A buffer without a start marker, and a buffer without an end marker
    behind the first start marker, are refused, in both classes. *)
Theorem frame_markers_missing (junk rest : list Z) :
  Forall (fun b => b mod 256 <> 0x3E) junk ->
  Forall (fun b => b mod 256 <> 0x3C) rest ->
  Mup1.parseFrame junk = Throw "No start of frame found"
  /\ Mup1Subst.parseFrame junk = Throw "No start of frame found"
  /\ Mup1.parseFrame (junk ++ 0x3E :: rest) = Throw "No end of frame found"
  /\ Mup1Subst.parseFrame (junk ++ 0x3E :: rest)
     = Throw "No end of frame found".
Proof.
  intros Hjunk Hrest.
  pose proof (bytes_without 0x3E junk Hjunk) as Hj.
  pose proof (bytes_without 0x3C rest Hrest) as Hr.
  unfold Mup1.parseFrame, Mup1Subst.parseFrame.
  change Mup1Subst.findSOF with Mup1.findSOF.
  change Mup1Subst.findEnd with Mup1.findEnd.
  rewrite (findSOF_none _ 0 Hj).
  split; [reflexivity |]. split; [reflexivity |].
  assert (Hdata : Uint8Array_from (junk ++ 0x3E :: rest)
                  = Uint8Array_from junk ++ Mup1.SOF :: Uint8Array_from rest)
    by (unfold Uint8Array_from; rewrite map_app; reflexivity).
  rewrite Hdata.
  rewrite (findSOF_first _ _ 0 Hj). cbv zeta. rewrite Z.add_0_l.
  set (jb := Uint8Array_from junk) in *.
  set (rb := Uint8Array_from rest) in *.
  assert (Hend : Mup1.findEnd (jb ++ Mup1.SOF :: rb)
                   (Z.to_nat (len (jb ++ Mup1.SOF :: rb) - (len jb + 1)))
                   (len jb + 1) 0 (-1) = -1).
  { replace (jb ++ Mup1.SOF :: rb) with ((jb ++ [Mup1.SOF]) ++ rb ++ [])
      by (rewrite app_nil_r, <- app_assoc; reflexivity).
    replace (len jb + 1) with (len (jb ++ [Mup1.SOF]))
      by (rewrite len_app; reflexivity).
    rewrite (findEnd_skip rb (jb ++ [Mup1.SOF]) [] _ 0 (-1) Hr).
    - replace (Z.to_nat (len ((jb ++ [Mup1.SOF]) ++ rb ++ [])
                         - len (jb ++ [Mup1.SOF])) - length rb)%nat
        with 0%nat; [reflexivity |].
      rewrite !len_app. change (len []) with 0. unfold len. lia.
    - rewrite !len_app. change (len []) with 0. unfold len. lia. }
  rewrite Hend. split; reflexivity.
Qed.

Lemma frame_markers_missing_witness :
  Mup1.parseFrame [0x70; 0x3C] = Throw "No start of frame found"
  /\ Mup1Subst.parseFrame [0x70; 0x3C] = Throw "No start of frame found"
  /\ Mup1.parseFrame ([0x70; 0x3C] ++ 0x3E :: [0x70; 0x38])
     = Throw "No end of frame found"
  /\ Mup1Subst.parseFrame ([0x70; 0x3C] ++ 0x3E :: [0x70; 0x38])
     = Throw "No end of frame found".
Proof.
  apply (frame_markers_missing [0x70; 0x3C] [0x70; 0x38]);
    repeat constructor; cbn; lia.
Defined.

End Mup1Errors.

(** ** MUP1: the hexadecimal helpers *)

Module Mup1Hex.
Import JS JSFacts Mup1Tools.

(** The two digits of a byte, and what [parseInt(_, 16)] makes of them,
    in lower and in upper case. *)
Lemma hex_digits (b : Z) :
  isByte b ->
  exists x y,
    padStart0 2 (toString16 b) = [x; y]
    /\ parseInt [x; y] 16 = Int b
    /\ parseInt (toUpperCase [x; y]) 16 = Int b.
Proof.
  intros Hb.
  pose (P := fun b : Z =>
               match padStart0 2 (toString16 b) with
               | [x; y] =>
                   num_eqb (parseInt [x; y] 16) (Int b)
                   && num_eqb (parseInt (toUpperCase [x; y]) 16) (Int b)
               | _ => false
               end).
  assert (H : P b = true).
  { revert b Hb. apply (forall_below P 256). vm_compute. reflexivity. }
  unfold P in H.
  destruct (padStart0 2 (toString16 b)) as [| x [| y [| z r]]];
    try discriminate H.
  exists x, y. apply andb_prop in H. destruct H as [H1 H2].
  split; [reflexivity |].
  split.
  - destruct (parseInt [x; y] 16) as [v | |]; cbn in H1; try discriminate.
    apply Z.eqb_eq in H1. congruence.
  - destruct (parseInt (toUpperCase [x; y]) 16) as [v | |]; cbn in H2;
      try discriminate.
    apply Z.eqb_eq in H2. congruence.
Qed.

Lemma hexToBytes_length (s : jsstring) :
  length (hexToBytes s) = Nat.div2 (S (length s)).
Proof.
  induction s as [| a | a b r IH] using Mup1Checksum.pair_induction.
  - reflexivity.
  - reflexivity.
  - cbn [hexToBytes length Nat.div2]. rewrite IH. reflexivity.
Qed.

Lemma toUpperCase_length (s : jsstring) :
  length (toUpperCase s) = length s.
Proof. apply length_map. Qed.

Lemma joinSpace_length (parts : list jsstring) :
  Forall (fun p => length p = 2%nat) parts ->
  S (length (joinSpace parts)) = (3 * length parts)%nat \/ parts = [].
Proof.
  induction 1 as [| p parts Hp Hparts IH]; [right; reflexivity |].
  left. destruct parts as [| q parts].
  - cbn [joinSpace length]. lia.
  - destruct IH as [IH | IH]; [| discriminate].
    cbn [joinSpace length] in *. rewrite length_app. cbn [length]. lia.
Qed.

(** [hexToBytes] reads back bytes written as two hexadecimal digits each
    with nothing in between, and the one-byte output of [bytesToHex]. It
    does not read back what [bytesToHex] writes for two bytes or more:
    the separating spaces shift the pairs of characters, and the result
    has more elements than there were bytes. *)
Theorem hex_helpers (bytes : list Z) :
  Forall isByte bytes ->
  hexToBytes (compactHex bytes) = map Int bytes
  /\ (length bytes = 1%nat -> hexToBytes (bytesToHex bytes) = map Int bytes)
  /\ ((2 <= length bytes)%nat ->
      length (hexToBytes (bytesToHex bytes))
      = Nat.div2 (3 * length bytes)
      /\ hexToBytes (bytesToHex bytes) <> map Int bytes).
Proof.
  intros Hb. split; [| split].
  - induction Hb as [| b bytes Hb Hbytes IH]; [reflexivity |].
    destruct (hex_digits b Hb) as (x & y & Hxy & Hlow & _).
    unfold compactHex in *. cbn [flat_map map]. rewrite Hxy.
    cbn [app hexToBytes]. rewrite Hlow, IH. reflexivity.
  - intros Hone. destruct bytes as [| b [| b' r]]; try discriminate Hone.
    apply Forall_cons_iff in Hb. destruct Hb as [Hb _].
    destruct (hex_digits b Hb) as (x & y & Hxy & _ & Hup).
    unfold bytesToHex. cbn [map joinSpace]. rewrite Hxy.
    change (hexToBytes (toUpperCase [x; y]))
      with [parseInt (toUpperCase [x; y]) 16].
    rewrite Hup. reflexivity.
  - intros Htwo.
    assert (Hlen : length (hexToBytes (bytesToHex bytes))
                   = Nat.div2 (3 * length bytes)).
    { rewrite hexToBytes_length. unfold bytesToHex.
      rewrite toUpperCase_length.
      destruct (joinSpace_length
                  (map (fun b => padStart0 2 (toString16 b)) bytes))
        as [Hj | Hj].
      - apply Forall_forall. intros p Hp. apply in_map_iff in Hp.
        destruct Hp as (b & <- & Hin).
        rewrite Forall_forall in Hb.
        destruct (hex_digits b (Hb b Hin)) as (x & y & Hxy & _).
        rewrite Hxy. reflexivity.
      - rewrite Hj, length_map. reflexivity.
      - destruct bytes; [cbn in Htwo; lia | discriminate Hj]. }
    split; [exact Hlen |].
    intros Heq. rewrite Heq, length_map in Hlen.
    assert (Hdiv : (2 * Nat.div2 (3 * length bytes) + 1 >= 3 * length bytes)%nat).
    { destruct (Nat.Even_or_Odd (3 * length bytes)) as [He | Ho].
      - apply Nat.Even_double in He. unfold Nat.double in He. lia.
      - apply Nat.Odd_double in Ho. unfold Nat.double in Ho. lia. }
    lia.
Qed.

Lemma hex_helpers_witness :
  hexToBytes (compactHex [0x3E; 0x70]) = map Int [0x3E; 0x70]
  /\ (length [0x3E; 0x70] = 1%nat ->
      hexToBytes (bytesToHex [0x3E; 0x70]) = map Int [0x3E; 0x70])
  /\ ((2 <= length [0x3E; 0x70])%nat ->
      length (hexToBytes (bytesToHex [0x3E; 0x70]))
      = Nat.div2 (3 * length [0x3E; 0x70])
      /\ hexToBytes (bytesToHex [0x3E; 0x70]) <> map Int [0x3E; 0x70]).
Proof.
  apply (hex_helpers [0x3E; 0x70]).
  repeat constructor; unfold isByte; lia.
Defined.

End Mup1Hex.

(** ** MUP1: CoAP frames *)

Module Mup1CoAP.
Import JS JSFacts Mup1Parse Mup1Tools.

(** The type of a parsed frame is the byte behind the start marker. *)
Lemma parseFrame_type (t : Z) (rest : list Z) :
  isByte t ->
  match Mup1.parseFrame (Mup1.SOF :: t :: rest) with
  | Ok f => Mup1.type f = t
  | Throw _ => True
  end.
Proof.
  intros Ht. unfold Mup1.parseFrame.
  cbn [Uint8Array_from map]. rewrite (Z.mod_small t 256 Ht).
  change (Mup1.SOF mod 256) with Mup1.SOF.
  cbn [Mup1.findSOF]. rewrite Z.eqb_refl. cbv zeta.
  repeat match goal with
         | |- context [if ?c then Throw _ else _] => destruct c; [exact I |]
         end.
  reflexivity.
Qed.

Lemma head_bytes (t : Z) (y : list Z) :
  exists rest,
    Uint8Array_from ([Mup1.SOF; t] ++ y) = Mup1.SOF :: t mod 256 :: rest.
Proof. exists (Uint8Array_from y). reflexivity. Qed.

Lemma createFrame_head (t : Z) (d : list Z) :
  exists rest, Mup1.createFrame t d = Mup1.SOF :: t mod 256 :: rest.
Proof.
  unfold Mup1.createFrame. cbv zeta.
  destruct (0 <? len d);
    match goal with
    | |- context [if ?c then _ else _] => destruct c
    end;
    rewrite <- ?app_assoc; apply head_bytes.
Qed.

(** A frame made by [createCoAPFrame] has the type ['c'], for requests;
    [parseCoAPResponse] takes only the type ['C'], so it refuses every
    frame that [createCoAPFrame] made, whatever the data.  When the data
    holds no framing byte, the frame is parsed back with that data. *)
Theorem coap_frame_is_request (coapData : list Z) :
  match Mup1.parseFrame (createCoAPFrame coapData) with
  | Ok f => Mup1.type f = 99
            /\ parseCoAPResponse f = Throw "Not a CoAP response"
  | Throw _ => True
  end
  /\ (Forall (fun b => isByte b /\ Mup1.isSpecial b = false) coapData ->
      exists c,
        Mup1.parseFrame (createCoAPFrame coapData)
        = Ok {| Mup1.type := 99; Mup1.data := coapData;
                Mup1.checksum := Int c; Mup1.checksumValid := true |}).
Proof.
  split.
  - unfold createCoAPFrame.
    destruct (createFrame_head 99 coapData) as (rest & ->).
    change (99 mod 256) with 99.
    pose proof (parseFrame_type 99 rest ltac:(unfold isByte; lia)) as H.
    destruct (Mup1.parseFrame (Mup1.SOF :: 99 :: rest)) as [f | m];
      [| exact I].
    split; [exact H |]. unfold parseCoAPResponse. rewrite H. reflexivity.
  - intros Hd. apply (pack_parse_plain 99 coapData);
      [unfold isByte; lia | unfold Mup1.EOF; lia | unfold Mup1.ESCAPE; lia
      | exact Hd].
Qed.

End Mup1CoAP.

(** ** MUP1 stream: packing, unpacking and the frame buffer *)

Module Mup1StreamProps.
Import JS JSFacts Mup1Stream.

(** The running 16-bit sum is the sum of the bytes modulo 2^16. *)
Lemma checksum_from (data : list Z) :
  Forall isByte data ->
  forall s, 0 <= s < 65536 ->
    fold_left (fun sum b => band (sum + b) 0xFFFF) data s
    = (s + fold_right Z.add 0 data) mod 65536.
Proof.
  induction 1 as [| b data Hb Hd IH]; intros s Hs.
  - cbn. rewrite Z.add_0_r, Z.mod_small by lia. reflexivity.
  - cbn [fold_left fold_right]. unfold isByte in Hb.
    assert (Hband : band (s + b) 0xFFFF = (s + b) mod 65536).
    { apply (band_ones (s + b) 16);
        [change (2 ^ 31) with 2147483648; lia | lia]. }
    rewrite Hband.
    rewrite IH by (apply Z.mod_pos_bound; lia).
    rewrite Zplus_mod_idemp_l. f_equal. lia.
Qed.

(** The checksum of the stream class is the sum of the bytes modulo
    2^16; so the checksum of two pieces put together is the sum of their
    checksums modulo 2^16. *)
Theorem stream_checksum_sum (a b : list Z) :
  Forall isByte a -> Forall isByte b ->
  calculateChecksum a = fold_right Z.add 0 a mod 65536
  /\ calculateChecksum (a ++ b)
     = (calculateChecksum a + calculateChecksum b) mod 65536.
Proof.
  intros Ha Hb. unfold calculateChecksum.
  rewrite (checksum_from a Ha 0 ltac:(lia)).
  rewrite (checksum_from b Hb 0 ltac:(lia)).
  rewrite (checksum_from (a ++ b) (proj2 (Forall_app _ _ _) (conj Ha Hb)) 0
             ltac:(lia)).
  rewrite !Z.add_0_l. split; [reflexivity |].
  rewrite fold_right_app.
  assert (Hsum : forall l x, fold_right Z.add x l = fold_right Z.add 0 l + x).
  { induction l as [| y l IHl]; intros x; cbn [fold_right]; [lia |].
    rewrite IHl. lia. }
  rewrite (Hsum a). rewrite <- Zplus_mod. reflexivity.
Qed.

Lemma stream_checksum_sum_witness :
  calculateChecksum [0xFF; 0xFF] = fold_right Z.add 0 [0xFF; 0xFF] mod 65536
  /\ calculateChecksum ([0xFF; 0xFF] ++ [0x01; 0x02])
     = (calculateChecksum [0xFF; 0xFF] + calculateChecksum [0x01; 0x02])
         mod 65536.
Proof.
  apply (stream_checksum_sum [0xFF; 0xFF] [0x01; 0x02]);
    repeat constructor; unfold isByte; lia.
Defined.

(** The loop of [unpackFrame] over bytes that are not 0xFF. *)
Lemma unpackLoop_skip (mid pre post : list Z) :
  forall n : nat,
    Forall (fun b => b <> 0xFF) mid ->
    (length mid <= n)%nat ->
    unpackLoop (pre ++ mid ++ post) n (len pre)
    = unpackLoop (pre ++ mid ++ post) (n - length mid) (len pre + len mid).
Proof.
  revert pre. induction mid as [| b mid IH]; intros pre n Hmid Hn.
  - cbn [length]. rewrite Nat.sub_0_r. change (len []) with 0.
    rewrite Z.add_0_r. reflexivity.
  - apply Forall_cons_iff in Hmid. destruct Hmid as [Hb Hmid].
    destruct n as [| n]; [cbn in Hn; lia |].
    cbn [unpackLoop app]. rewrite get_app_head. cbn [int_of].
    destruct (Z.eqb_spec b 0xFF); [contradiction |].
    cbn [length Nat.sub].
    replace (pre ++ b :: mid ++ post) with ((pre ++ [b]) ++ mid ++ post)
      by (rewrite <- app_assoc; reflexivity).
    replace (len pre + 1) with (len (pre ++ [b]))
      by (rewrite len_app; reflexivity).
    rewrite IH by (try assumption; cbn in Hn; lia).
    rewrite <- app_assoc. cbn [app].
    f_equal. rewrite len_app, (len_cons b mid). change (len [b]) with 1. lia.
Qed.

(** The bytes of a packed frame before its payload. *)
Lemma packFrame_layout (st : State) (payload : list Z) (messageType : Z) :
  fst (packFrame st payload messageType)
  = [0x40; 0x05; band (sar (messageId st) 8) 0xFF;
     band (messageId st) 0xFF; 0xB1; 0x63;
     band (sar (calculateChecksum payload) 8) 0xFF;
     band (calculateChecksum payload) 0xFF;
     0x33; 0x64; 0x3D; 0x61; 0x21; 0x8E]
      ++ [0xFF] ++ Uint8Array_from payload.
Proof. reflexivity. Qed.

(** [unpackFrame] gives back the payload of a packed frame when the
    payload is not empty and neither the message ID nor the checksum
    holds a byte 0xFF; for an empty payload it gives [null].  The frame
    has fifteen bytes before the payload, and packing moves the message
    ID on by one. *)
Theorem unpack_pack (st : State) (payload : list Z) (messageType : Z) :
  band (sar (messageId st) 8) 0xFF <> 0xFF ->
  band (messageId st) 0xFF <> 0xFF ->
  band (sar (calculateChecksum payload) 8) 0xFF <> 0xFF ->
  band (calculateChecksum payload) 0xFF <> 0xFF ->
  let r := packFrame st payload messageType in
  unpackFrame (fst r)
  = (if 0 <? len payload then Some (Uint8Array_from payload) else None)
  /\ len (fst r) = 15 + len payload
  /\ messageId (snd r) = messageId st + 1.
Proof.
  intros H1 H2 H3 H4. cbv zeta.
  rewrite packFrame_layout.
  set (hdr := [0x40; 0x05; band (sar (messageId st) 8) 0xFF;
               band (messageId st) 0xFF; 0xB1; 0x63;
               band (sar (calculateChecksum payload) 8) 0xFF;
               band (calculateChecksum payload) 0xFF;
               0x33; 0x64; 0x3D; 0x61; 0x21; 0x8E]).
  set (body := Uint8Array_from payload).
  assert (Hhdr : Forall (fun b => b <> 0xFF) hdr).
  { unfold hdr.
    repeat (apply Forall_cons; [first [assumption | lia] |]).
    constructor. }
  assert (Hbody : len body = len payload)
    by (unfold body, Uint8Array_from, len; rewrite length_map; reflexivity).
  assert (Hlen : len (hdr ++ [0xFF] ++ body) = 15 + len payload).
  { rewrite !len_app, Hbody. change (len hdr) with 14.
    change (len [0xFF]) with 1. lia. }
  split; [| split; [exact Hlen | reflexivity]].
  unfold unpackFrame. rewrite Hlen.
  pose proof (len_nonneg payload) as Hp0.
  pose proof (unpackLoop_skip hdr [] ([0xFF] ++ body)
                (Z.to_nat (15 + len payload - 1)) Hhdr
                ltac:(change (length hdr) with 14%nat; lia)) as Hskip.
  cbn [app] in Hskip. change (len []) with 0 in Hskip.
  cbn [app]. rewrite Hskip. clear Hskip.
  change (0 + len hdr) with 14.
  destruct (Z.ltb_spec 0 (len payload)) as [Hpos | Hzero].
  - replace (Z.to_nat (15 + len payload - 1) - length hdr)%nat
      with (S (Z.to_nat (len payload - 1)))
      by (change (length hdr) with 14%nat; lia).
    cbn [unpackLoop].
    change (get (hdr ++ 0xFF :: body) 14) with (get (hdr ++ 0xFF :: body) (len hdr)).
    rewrite get_app_head. cbn [int_of Z.eqb Pos.eqb].
    f_equal.
    change (14 + 1) with (len (hdr ++ [0xFF])).
    replace (hdr ++ 0xFF :: body) with ((hdr ++ [0xFF]) ++ body)
      by (rewrite <- app_assoc; reflexivity).
    apply slice_from_app.
  - replace (Z.to_nat (15 + len payload - 1) - length hdr)%nat with 0%nat
      by (change (length hdr) with 14%nat; lia).
    reflexivity.
Qed.

Lemma unpack_pack_witness :
  let r := packFrame init [0x40; 0x01; 0xFF; 0x00] 99 in
  unpackFrame (fst r)
  = (if 0 <? len [0x40; 0x01; 0xFF; 0x00]
     then Some (Uint8Array_from [0x40; 0x01; 0xFF; 0x00]) else None)
  /\ len (fst r) = 15 + len [0x40; 0x01; 0xFF; 0x00]
  /\ messageId (snd r) = messageId init + 1.
Proof.
  apply (unpack_pack init [0x40; 0x01; 0xFF; 0x00] 99);
    vm_compute; discriminate.
Defined.

(** What the loop of [extractFrames] returns: nothing, with the buffer
    as it was, or one payload found at a frame start [j], with the
    buffer cut 32 bytes behind [j]. *)
Lemma extractLoop_result (buf : list Z) (n : nat) :
  forall i,
    (extractLoop buf n i = ([], buf))
    \/ (exists p j,
          i <= j
          /\ int_of (get buf j) = 0x60
          /\ int_of (get buf (j + 1)) = 0x45
          /\ unpackFrame (slice_from buf j) = Some p
          /\ extractLoop buf n i = ([p], slice_from buf (j + 32))).
Proof.
  induction n as [| n IH]; intros i; [left; reflexivity |].
  cbn [extractLoop].
  destruct (Z.eqb_spec (int_of (get buf i)) 0x60) as [E1 | E1];
    cbn [andb].
  - destruct (Z.eqb_spec (int_of (get buf (i + 1))) 0x45) as [E2 | E2].
    + destruct (unpackFrame (slice_from buf i)) as [p |] eqn:Eu.
      * right. exists p, i. repeat split; try assumption. lia.
      * destruct (IH (i + 1)) as [Hn | (p & j & Hj & R)];
          [left; exact Hn |].
        right. exists p, j. split; [lia | exact R].
    + destruct (IH (i + 1)) as [Hn | (p & j & Hj & R)];
        [left; exact Hn |].
      right. exists p, j. split; [lia | exact R].
  - destruct (IH (i + 1)) as [Hn | (p & j & Hj & R)];
      [left; exact Hn |].
    right. exists p, j. split; [lia | exact R].
Qed.

(** One call of [processData] hands out at most one payload, however
    many frames the buffer holds.  When it hands out none, the buffer
    keeps every byte received so far.  When it hands out one, found at a
    frame start [j] (bytes 0x60 0x45), the payload is everything behind
    the first byte 0xFF of the buffer from [j] on, and the buffer is cut
    32 bytes behind [j], whatever the length of the frame. *)
Theorem processData_one_frame (st : State) (data : list Z) :
  let buf := frameBuffer st ++ Uint8Array_from data in
  let r := processData st data in
  (length (fst r) <= 1)%nat
  /\ messageId (snd r) = messageId st
  /\ (fst r = [] -> frameBuffer (snd r) = buf)
  /\ (forall p, fst r = [p] ->
        exists j,
          0 <= j
          /\ int_of (get buf j) = 0x60
          /\ int_of (get buf (j + 1)) = 0x45
          /\ unpackFrame (slice_from buf j) = Some p
          /\ frameBuffer (snd r) = slice_from buf (j + 32)).
Proof.
  cbv zeta. unfold processData, extractFrames.
  cbn [frameBuffer messageId].
  set (buf := frameBuffer st ++ Uint8Array_from data).
  destruct (extractLoop_result buf (Z.to_nat (len buf - 1)) 0)
    as [Hn | (p & j & Hj & G1 & G2 & Hu & Hr)].
  - rewrite Hn. cbn [fst snd frameBuffer messageId length].
    repeat split; try lia. intros p Hp. discriminate Hp.
  - rewrite Hr. cbn [fst snd frameBuffer messageId length].
    repeat split; try lia.
    + intros Hp. discriminate Hp.
    + intros q Hq. injection Hq as <-. exists j. repeat split; assumption.
Qed.

End Mup1StreamProps.

(* ================================================================== *)
(** ** The CoAP message of the stream class *)
(* ================================================================== *)

Module CoAPMessageProps.
Import JS JSFacts CoAPMessage.

Lemma findPayload_skip (rest pre post : list Z) (n : nat) :
  Forall (fun b => b <> 0xFF) rest ->
  findPayload (pre ++ rest ++ post) (length rest + n) (len pre)
  = findPayload (pre ++ rest ++ post) n (len pre + len rest).
Proof.
  revert pre.
  induction rest as [| x r IH]; intros pre Hr.
  - cbn [length Nat.add app]. change (len []) with 0.
    rewrite Z.add_0_r. reflexivity.
  - apply Forall_cons_iff in Hr. destruct Hr as [Hx Hr].
    cbn [length Nat.add findPayload].
    change ((x :: r) ++ post) with (x :: r ++ post).
    rewrite get_app_head. cbn [int_of].
    destruct (Z.eqb_spec x 255) as [E | _]; [contradiction |].
    cbn [andb].
    replace (pre ++ x :: r ++ post) with ((pre ++ [x]) ++ r ++ post)
      by (rewrite <- app_assoc; reflexivity).
    replace (len pre + 1) with (len (pre ++ [x]))
      by (rewrite len_app; reflexivity).
    rewrite (IH (pre ++ [x]) Hr).
    f_equal. rewrite len_app, (len_cons x r).
    change (len [x]) with 1. lia.
Qed.

Lemma options_markerFree (m : Fields) :
  markerFree m ->
  Forall (fun b => b <> 0xFF)
    (flat_map (fun opt => Uint8Array_from (fst opt :: snd opt))
              (options m)).
Proof.
  unfold markerFree.
  induction 1 as [| opt os Ho _ IH]; [constructor |].
  cbn [flat_map]. apply Forall_app. split; [| exact IH].
  unfold Uint8Array_from. apply Forall_map. exact Ho.
Qed.

Lemma findPayload_tail (pre : list Z) (payload : option (list Z)) :
  let tail := match payload with
              | Some p => 0xFF :: p
              | None => []
              end in
  findPayload (pre ++ tail) (length tail) (len pre) = found payload.
Proof.
  destruct payload as [[| b p] |]; cbn zeta.
  - cbn [length findPayload]. rewrite get_app_head. cbn [int_of].
    rewrite len_app. change (len [255]) with 1.
    destruct (Z.ltb_spec (len pre) (len pre + 1 - 1)); [lia |].
    reflexivity.
  - cbn [length findPayload]. rewrite get_app_head. cbn [int_of].
    rewrite len_app, !len_cons. pose proof (len_nonneg p).
    destruct (Z.ltb_spec (len pre) (len pre + (1 + (1 + len p)) - 1));
      [| lia].
    cbn [andb Z.eqb Pos.eqb found].
    replace (pre ++ 255 :: b :: p) with ((pre ++ [255]) ++ b :: p)
      by (rewrite <- app_assoc; reflexivity).
    replace (len pre + 1) with (len (pre ++ [255]))
      by (rewrite len_app; reflexivity).
    rewrite slice_from_app. reflexivity.
  - reflexivity.
Qed.

(** [CoAPMessage.decode] reads back what [encode] wrote: the version, the
    type, the code, the message id and the token, and the payload when it
    is not empty.  An empty payload comes back as [null].  The message is
    one that the constructor can make (version 1), with a type of two
    bits, a code and token of bytes, a token shorter than 16, a message id
    of 16 bits, and no option byte equal to the payload marker. *)
Theorem message_decode_encode (m : Fields) :
  version m = 1 ->
  0 <= type m < 4 ->
  isByte (code m) ->
  0 <= messageId m < 65536 ->
  len (token m) < 16 ->
  Forall isByte (token m) ->
  markerFree m ->
  (forall p, payload m = Some p -> Forall isByte p) ->
  decode (encode m)
  = Some {| decodedVersion := 1;
            decodedType := type m;
            decodedCode := code m;
            decodedMessageId := messageId m;
            decodedToken := token m;
            decodedPayload := found (payload m) |}.
Proof.
  intros Hv Ht Hc Hid Htl Htok Hfree Hpay.
  pose proof (len_nonneg (token m)) as Hl0.
  destruct (CoAPFacts.byte0_fields (type m) (len (token m)) Ht
              (conj Hl0 Htl)) as (Hb0 & Hf1 & Hf2 & Hf3).
  destruct (two_bytes (messageId m) Hid) as (Hhi & Hlo & _ & Hjoin).
  assert (Hhi' : isByte (band (sar (messageId m) 8) 0xFF)).
  { rewrite (band_ones _ 8) by (unfold isByte in Hhi; lia).
    change (2 ^ 8) with 256. unfold isByte in *.
    rewrite Z.mod_small; lia. }
  unfold encode. rewrite Hv.
  set (b0 := bor (bor (shl 1 6) (shl (type m) 4)) (len (token m))) in *.
  set (hi := band (sar (messageId m) 8) 255) in *.
  set (lo := band (messageId m) 255) in *.
  rewrite (Uint8Array_from_bytes [b0; code m; hi; lo])
    by (repeat (apply Forall_cons; [assumption |]); constructor).
  rewrite (Uint8Array_from_bytes (token m)) by exact Htok.
  set (opts := flat_map (fun opt => Uint8Array_from (fst opt :: snd opt))
                        (options m)).
  assert (Htail : match payload m with
                  | Some p => 255 :: Uint8Array_from p
                  | None => []
                  end
                  = match payload m with
                    | Some p => 255 :: p
                    | None => []
                    end).
  { destruct (payload m) as [p |] eqn:Ep; [| reflexivity].
    rewrite (Uint8Array_from_bytes p) by (apply Hpay; reflexivity).
    reflexivity. }
  rewrite Htail. clear Htail.
  set (tail := match payload m with
               | Some p => 255 :: p
               | None => []
               end).
  set (hdr := [b0; code m; hi; lo]).
  set (data := hdr ++ token m ++ opts ++ tail).
  assert (Hlen : len data
                 = 4 + len (token m) + len opts + len tail).
  { unfold data. rewrite !len_app. change (len hdr) with 4. lia. }
  pose proof (len_nonneg opts) as Ho0. pose proof (len_nonneg tail) as Ht0.
  unfold decode.
  destruct (Z.ltb_spec (len data) 4) as [Hlt | _]; [lia |].
  change (get data 0) with (Some b0).
  change (get data 1) with (Some (code m)).
  change (get data 2) with (Some hi).
  change (get data 3) with (Some lo).
  cbn [int_of]. rewrite Hf1, Hf2, Hf3.
  rewrite Hjoin.
  assert (Htoken : slice data 4 (4 + len (token m)) = token m).
  { unfold data. change 4 with (len hdr) at 1 2.
    apply (slice_app_mid hdr (token m) (opts ++ tail)). }
  rewrite Htoken.
  assert (Hfind : findPayload data
                    (Z.to_nat (len data - (4 + len (token m))))
                    (4 + len (token m))
                  = found (payload m)).
  { replace (Z.to_nat (len data - (4 + len (token m))))
      with (length opts + length tail)%nat by (unfold len in *; lia).
    replace data with ((hdr ++ token m) ++ opts ++ tail)
      by (unfold data; rewrite <- app_assoc; reflexivity).
    replace (4 + len (token m)) with (len (hdr ++ token m))
      by (rewrite len_app; reflexivity).
    rewrite (findPayload_skip opts (hdr ++ token m) tail (length tail))
      by (apply options_markerFree; exact Hfree).
    replace ((hdr ++ token m) ++ opts ++ tail)
      with (((hdr ++ token m) ++ opts) ++ tail)
      by (rewrite <- !app_assoc; reflexivity).
    replace (len (hdr ++ token m) + len opts)
      with (len ((hdr ++ token m) ++ opts))
      by (rewrite !len_app; reflexivity).
    apply (findPayload_tail ((hdr ++ token m) ++ opts) (payload m)). }
  rewrite Hfind. reflexivity.
Qed.

Lemma message_decode_encode_witness :
  decode (encode {| version := 1; type := 0; code := 5; messageId := 513;
                    token := [7]; options := [(11, [99; 47])];
                    payload := Some [161; 1] |})
  = Some {| decodedVersion := 1; decodedType := 0; decodedCode := 5;
            decodedMessageId := 513; decodedToken := [7];
            decodedPayload := Some [161; 1] |}.
Proof.
  apply (message_decode_encode
           {| version := 1; type := 0; code := 5; messageId := 513;
              token := [7]; options := [(11, [99; 47])];
              payload := Some [161; 1] |}).
  - reflexivity.
  - cbn; lia.
  - unfold isByte; cbn; lia.
  - cbn; lia.
  - cbn; lia.
  - repeat constructor; unfold isByte; lia.
  - unfold markerFree. cbn. repeat constructor; discriminate.
  - intros p Hp. cbn in Hp. injection Hp as <-.
    repeat constructor; unfold isByte; lia.
Defined.

End CoAPMessageProps.

(** ** The read buffer of the serial handler *)

Module SerialFacts.
Import JS JSFacts SerialHandler.




Lemma get_some_range (l : list Z) (i b : Z) :
  get l i = Some b -> 0 <= i < len l.
Proof.
  unfold get, len. destruct (Z.ltb_spec i 0) as [Hi | Hi]; [discriminate |].
  intros Hb.
  assert (Hn : nth_error l (Z.to_nat i) <> None) by congruence.
  apply nth_error_Some in Hn. lia.
Qed.


(** What the loop returns is behind an end marker that is followed by
    four more bytes. *)
Lemma findFrameEnd_found (buf : list Z) (n : nat) :
  forall i e,
    findFrameEnd buf n i = Some e ->
    exists j,
      i <= j
      /\ get buf j = Some EOF
      /\ ((get buf (j + 1) = Some EOF /\ e = j + 6 /\ j + 5 < len buf)
          \/ (get buf (j + 1) <> Some EOF /\ e = j + 5 /\ j + 4 < len buf)).
Proof.
  induction n as [| n IH]; intros i e; [discriminate |].
  cbn [findFrameEnd].
  assert (Hnext : findFrameEnd buf n (i + 1) = Some e ->
                  exists j,
                    i <= j /\ get buf j = Some EOF
                    /\ ((get buf (j + 1) = Some EOF /\ e = j + 6
                         /\ j + 5 < len buf)
                        \/ (get buf (j + 1) <> Some EOF /\ e = j + 5
                            /\ j + 4 < len buf))).
  { intros He. destruct (IH _ _ He) as (j & Hj & Hrest).
    exists j. split; [lia | exact Hrest]. }
  destruct (get buf i) as [b |] eqn:Eb; [| exact Hnext].
  destruct (Z.eqb_spec b EOF) as [-> | _]; [| exact Hnext].
  cbv zeta.
  destruct (get buf (i + 1)) as [b' |] eqn:Eb'.
  - destruct (Z.eqb_spec b' EOF) as [-> | Hne].
    + pose proof (get_some_range _ _ _ Eb') as Hr.
      destruct (Z.ltb_spec (i + 1) (len buf)) as [L1 | L1]; [| lia].
      cbn [andb].
      destruct (Z.ltb_spec (i + 1 + 4) (len buf)) as [L2 | L2]; [| exact Hnext].
      intros He. injection He as <-. exists i.
      split; [lia |]. split; [exact Eb |]. left.
      split; [exact Eb' |]. lia.
    + rewrite andb_false_r.
      destruct (Z.ltb_spec (i + 4) (len buf)) as [L3 | L3]; [| exact Hnext].
      intros He. injection He as <-. exists i.
      split; [lia |]. split; [exact Eb |]. right.
      split; [congruence |]. lia.
  - rewrite andb_false_r.
    destruct (Z.ltb_spec (i + 4) (len buf)) as [L4 | L4]; [| exact Hnext].
    intros He. injection He as <-. exists i.
    split; [lia |]. split; [exact Eb |]. right.
    split; [rewrite Eb'; discriminate |]. lia.
Qed.


(** Taking a frame out makes the buffer shorter. *)
Lemma findFrameEnd_positive (buf : list Z) (n : nat) (i e : Z) :
  0 <= i -> findFrameEnd buf n i = Some e -> 0 < e /\ 0 < len buf.
Proof.
  intros Hi He.
  destruct (findFrameEnd_found buf n i e He) as (j & Hj & _ & Hcase).
  destruct Hcase as [(_ & -> & Hl) | (_ & -> & Hl)]; lia.
Qed.

Section Fuel.
Variable Frame : Type.
Variable parseFrame : list Z -> result Frame.

(** [processBuffer] calls itself on a shorter buffer only, so the fuel
    of [processBuffer] is enough: more fuel changes nothing. *)
Lemma processBufferLoop_fuel (f1 : nat) :
  forall (f2 : nat) (buf : list Z),
    (length buf < f1)%nat -> (length buf < f2)%nat ->
    processBufferLoop Frame parseFrame f1 buf
    = processBufferLoop Frame parseFrame f2 buf.
Proof.
  induction f1 as [| f1 IH]; intros f2 buf H1 H2; [lia |].
  destruct f2 as [| f2]; [lia |].
  cbn [processBufferLoop].
  destruct (indexOf SOF buf) as [startIdx |]; [| reflexivity].
  cbv zeta.
  set (buf' := if 0 <? startIdx then skipn (Z.to_nat startIdx) buf else buf).
  assert (Hle : (length buf' <= length buf)%nat).
  { unfold buf'. destruct (0 <? startIdx); [| lia].
    rewrite length_skipn. lia. }
  destruct (findFrameEnd buf' (Z.to_nat (len buf' - (0 + 2))) (0 + 2))
    as [e |] eqn:E; [| reflexivity].
  destruct (findFrameEnd_positive buf' _ (0 + 2) e ltac:(lia) E)
    as [He Hl].
  assert (Hshort : (length (skipn (Z.to_nat e) buf') < length buf')%nat).
  { rewrite length_skipn. unfold len in Hl. lia. }
  destruct (0 <? len (skipn (Z.to_nat e) buf')); [| reflexivity].
  rewrite (IH f2 (skipn (Z.to_nat e) buf')) by lia.
  reflexivity.
Qed.

End Fuel.


Section Wire.
Variables (t : Z) (d pad h : list Z).
Hypothesis Hd : Forall (fun b => b <> EOF) d.
Hypothesis Hpad : pad = [] \/ pad = [EOF].
Hypothesis Hh4 : length h = 4%nat.
Hypothesis Hh : Forall (fun b => b <> EOF) h.

Let wire := [SOF; t] ++ d ++ EOF :: pad ++ h.







Variable Frame : Type.
Variable parseFrame : list Z -> result Frame.




End Wire.

Section Receive.
Variables (t : Z) (d pad h : list Z).
Hypothesis Hd : Forall (fun b => b <> EOF) d.
Hypothesis Hpad : pad = [] \/ pad = [EOF].
Hypothesis Hh4 : length h = 4%nat.
Hypothesis Hh : Forall (fun b => b <> EOF) h.
Variable Frame : Type.
Variable parseFrame : list Z -> result Frame.

Let wire := [SOF; t] ++ d ++ EOF :: pad ++ h.
Let received := {| frameData := wire; frame := parseFrame wire |}.




End Receive.

End SerialFacts.

Module SerialProps.
Import JS JSFacts SerialHandler SerialFacts Mup1Parse Mup1SubstParse Mup1Tools.









End SerialProps.
